(** * EcoCash tariff calculator and agent locator: embedding and properties

    The repository holds two browser widgets written in JavaScript:
    - the tariff calculator ([scriptd5f7.js]), a form that validates an
      amount, a currency and a transaction type, enforces per-currency
      ceilings and posts the request to the backend;
    - the agent locator (class [EcocashLocator]), which accumulates agent
      records from backend loads and searches, filters and sorts them.

    The development has three layers.  Module [JS] fixes the part of the
    language semantics the two scripts rely on: binary64 numbers, strings,
    the conversions [parseFloat], [Number(...)] and [toFixed], truthiness,
    strict equality, property reads and [Array.prototype.sort].  Modules
    [Calculator] and [Locator] transcribe the two scripts function by
    function; [CalculatorHandlers], [LocatorViews] and [Debounce] add the
    callbacks of the request, the blur handler, the helpers that format
    what is shown and [debounce], over the further built-ins of
    [Builtins].  The remaining modules state and prove their
    properties. *)

From Stdlib Require Import ZArith List String Ascii Bool Lia Permutation Sorted.
Import ListNotations.

Local Set Warnings "-register-all".

Local Open Scope string_scope.
Local Open Scope Z_scope.

(* ================================================================== *)
(** * Language layer *)
(* ================================================================== *)

Module JS.

(** ** Numbers

    A JavaScript number is an IEEE-754 binary64 value.  Every finite
    binary64 value is an integer multiple of the smallest subnormal,
    [2^-1074]; [Fin z] stands for [z * 2^-1074].  The representable ones
    are the [z] with at most 53 significant bits below [2^2098]; all
    arithmetic goes through [round_ratio], which rounds to nearest, ties
    to even, as the hardware does.  The two zeros are not told apart: no
    operation used by the scripts can observe the sign of a zero. *)

Inductive number : Type :=
| NaN
| PInf
| NInf
| Fin (units : Z).

Definition scale : Z := 2 ^ 1074.
Definition overflow_threshold : Z := 2 ^ 2098.
Definition zero : number := Fin 0.

(** Nearest integer to [a / b], ties to even ([0 <= a], [0 < b]). *)
Definition round_half_even (a b : Z) : Z :=
  let q := a / b in
  let r := a mod b in
  if 2 * r <? b then q
  else if b <? 2 * r then q + 1
  else if Z.even q then q else q + 1.

(** The binary64 value nearest to [n / d] units ([0 <= n], [0 < d]):
    the integer part decides how many low bits are dropped so that 53
    significant bits remain. *)
Definition round_magnitude (n d : Z) : number :=
  let t := n / d in
  let k := Z.max 0 (Z.log2 t - 52) in
  let z := round_half_even n (d * 2 ^ k) * 2 ^ k in
  if overflow_threshold <=? z then PInf else Fin z.

Definition negate (x : number) : number :=
  match x with
  | NaN => NaN
  | PInf => NInf
  | NInf => PInf
  | Fin z => Fin (- z)
  end.

Definition round_ratio (n d : Z) : number :=
  if n <? 0 then negate (round_magnitude (- n) d) else round_magnitude n d.

(** The number written by an integer literal such as [500]. *)
Definition of_Z (n : Z) : number := round_ratio (n * scale) 1.

(** The number nearest to [m * 10^e], the value of a decimal literal. *)
Definition of_decimal (m e : Z) : number :=
  if 0 <=? e then round_ratio (m * 10 ^ e * scale) 1
  else round_ratio (m * scale) (10 ^ (- e)).

Definition is_nan (x : number) : bool :=
  match x with NaN => true | _ => false end.

(** [x < y]; false as soon as one side is [NaN]. *)
Definition ltb (x y : number) : bool :=
  match x, y with
  | NaN, _ | _, NaN => false
  | NInf, NInf => false
  | NInf, _ => true
  | _, NInf => false
  | PInf, _ => false
  | Fin _, PInf => true
  | Fin a, Fin b => a <? b
  end.

Definition gtb (x y : number) : bool := ltb y x.

(** [x <= y]: the negation of [y < x] unless one side is [NaN]. *)
Definition leb (x y : number) : bool :=
  negb (is_nan x) && negb (is_nan y) && negb (ltb y x).

Definition geb (x y : number) : bool := leb y x.

(** [x === y] on numbers. *)
Definition num_eqb (x y : number) : bool :=
  match x, y with
  | PInf, PInf | NInf, NInf => true
  | Fin a, Fin b => a =? b
  | _, _ => false
  end.

Definition add (x y : number) : number :=
  match x, y with
  | NaN, _ | _, NaN => NaN
  | PInf, NInf | NInf, PInf => NaN
  | PInf, _ | _, PInf => PInf
  | NInf, _ | _, NInf => NInf
  | Fin a, Fin b => round_ratio (a + b) 1
  end.

Definition sub (x y : number) : number := add x (negate y).

(** ** Strings

    A string is a sequence of code units; [string] carries the code units
    below 256, one per character. *)

Definition code (c : ascii) : Z := Z.of_N (N_of_ascii c).

(** White space and line terminators in that range: TAB, LF, VT, FF, CR,
    SP and NBSP. *)
Definition is_whitespace (c : ascii) : bool :=
  let n := code c in
  ((9 <=? n) && (n <=? 13)) || (n =? 32) || (n =? 160).

Fixpoint trimStart (s : string) : string :=
  match s with
  | String c r => if is_whitespace c then trimStart r else s
  | EmptyString => EmptyString
  end.

Fixpoint trimEnd (s : string) : string :=
  match s with
  | String c r =>
      match trimEnd r with
      | EmptyString => if is_whitespace c then EmptyString else String c EmptyString
      | r' => String c r'
      end
  | EmptyString => EmptyString
  end.

(** [String.prototype.trim] *)
Definition trim (s : string) : string := trimEnd (trimStart s).

Definition is_empty (s : string) : bool :=
  match s with EmptyString => true | _ => false end.

(** [String.prototype.includes]: [t] occurs in [s] at some position. *)
Fixpoint includes (s t : string) : bool :=
  prefix t s ||
  match s with
  | String _ r => includes r t
  | EmptyString => false
  end.

Fixpoint drop (n : nat) (s : string) : string :=
  match n, s with
  | S n', String _ r => drop n' r
  | _, _ => s
  end.

(** ** Numeric literals *)

Definition digit_value (radix : Z) (c : ascii) : option Z :=
  let n := code c in
  let v :=
    if (48 <=? n) && (n <=? 57) then n - 48
    else if (97 <=? n) && (n <=? 102) then n - 87
    else if (65 <=? n) && (n <=? 70) then n - 55
    else radix in
  if v <? radix then Some v else None.

(** Longest run of digits at the head of [s], continuing the value [acc]:
    the value read, how many digits were read, and what follows. *)
Fixpoint scan_digits (radix : Z) (s : string) (acc count : Z) : Z * Z * string :=
  match s with
  | String c r =>
      match digit_value radix c with
      | Some d => scan_digits radix r (acc * radix + d) (count + 1)
      | None => (acc, count, s)
      end
  | EmptyString => (acc, count, s)
  end.

Definition scan_sign (s : string) : bool * string :=
  match s with
  | String c r =>
      if (c =? "-")%char then (true, r)
      else if (c =? "+")%char then (false, r)
      else (false, s)
  | EmptyString => (false, s)
  end.

(** An exponent part, [e] or [E], an optional sign and at least one digit;
    when [s] does not start with one, exponent 0 and [s] untouched. *)
Definition scan_exponent (s : string) : Z * string :=
  match s with
  | String c r =>
      if (c =? "e")%char || (c =? "E")%char then
        let '(neg, r1) := scan_sign r in
        let '(v, n, r2) := scan_digits 10 r1 0 0 in
        if n =? 0 then (0, s) else ((if neg then - v else v), r2)
      else (0, s)
  | EmptyString => (0, s)
  end.

(** The longest prefix of [s] that is a [StrUnsignedDecimalLiteral]:
    [Infinity], [ddd], [ddd.], [ddd.ddd] or [.ddd], then an optional
    exponent part. *)
Definition scan_unsigned (s : string) : option (number * string) :=
  if prefix "Infinity" s then Some (PInf, drop 8 s)
  else
    let '(i, ni, r1) := scan_digits 10 s 0 0 in
    let whole :=
      if ni =? 0 then None
      else let '(e, r4) := scan_exponent r1 in Some (of_decimal i e, r4) in
    match r1 with
    | String c r2 =>
        if (c =? ".")%char then
          let '(m, nf, r3) := scan_digits 10 r2 i 0 in
          if (ni =? 0) && (nf =? 0) then None
          else let '(e, r4) := scan_exponent r3 in Some (of_decimal m (e - nf), r4)
        else whole
    | EmptyString => whole
    end.

(** The longest prefix that is a [StrDecimalLiteral], with what follows. *)
Definition scan_decimal (s : string) : option (number * string) :=
  let '(neg, r) := scan_sign s in
  match scan_unsigned r with
  | Some (x, rest) => Some ((if neg then negate x else x), rest)
  | None => None
  end.

(** [parseFloat(s)]: leading white space is skipped, the longest decimal
    literal at the head is converted, anything after it is ignored. *)
Definition parseFloat (s : string) : number :=
  match scan_decimal (trimStart s) with
  | Some (x, _) => x
  | None => NaN
  end.

(** A [0x], [0o] or [0b] integer literal: only digits of the radix, at
    least one. *)
Definition radix_literal (radix : Z) (digits : string) : number :=
  match scan_digits radix digits 0 0 with
  | (v, n, EmptyString) => if n =? 0 then NaN else of_Z v
  | _ => NaN
  end.

(** The radix and the digits of a text that starts with [0x], [0o] or
    [0b], in either case. *)
Definition radix_prefix (t : string) : option (Z * string) :=
  match t with
  | String c0 (String c1 r) =>
      if (c0 =? "0")%char then
        if (c1 =? "x")%char || (c1 =? "X")%char then Some (16, r)
        else if (c1 =? "o")%char || (c1 =? "O")%char then Some (8, r)
        else if (c1 =? "b")%char || (c1 =? "B")%char then Some (2, r)
        else None
      else None
  | _ => None
  end.

(** [Number(s)], the conversion [isNaN] applies to a string: white space
    is stripped at both ends, the empty string is 0, and otherwise the
    whole of the text must be one numeric literal. *)
Definition StringToNumber (s : string) : number :=
  let t := trim s in
  if is_empty t then zero
  else
    match radix_prefix t with
    | Some (radix, digits) => radix_literal radix digits
    | None =>
        match scan_decimal t with
        | Some (x, EmptyString) => x
        | _ => NaN
        end
    end.

(** ** Printing numbers *)

Definition digit_char (d : Z) : ascii := ascii_of_N (Z.to_N (48 + d)).

Fixpoint decimal_digits (fuel : nat) (n : Z) (acc : string) : string :=
  match fuel with
  | O => acc
  | S fuel' =>
      let acc' := String (digit_char (n mod 10)) acc in
      if n <? 10 then acc' else decimal_digits fuel' (n / 10) acc'
  end.

(** The decimal digits of [n >= 0]; a number has no more decimal digits
    than binary ones, so the fuel is never exhausted. *)
Definition decimal (n : Z) : string :=
  decimal_digits (S (Z.to_nat (Z.log2 n))) n EmptyString.

Fixpoint zeros (n : nat) : string :=
  match n with
  | O => EmptyString
  | S n' => String "0" (zeros n')
  end.

(** [n] with [10^(n-1) <= x < 10^n] for [x = z * 2^-1074 > 0]. *)
Definition decimal_exponent (z : Z) : Z :=
  if scale <=? z then Z.of_nat (length (decimal (z / scale)))
  else 1 - Z.of_nat (length (decimal (scale / z))).

Definition reads_back (c e z : Z) : bool := num_eqb (of_decimal c e) (Fin z).

(** The fewest digits [k] and the integer [c] of [k] digits (or [10^k])
    such that [c * 10^(n-k)] is a literal for [z]; of two such integers,
    the one nearer to the exact value, the even one on a tie. *)
Fixpoint shortest_digits (fuel : nat) (k n z : Z) : Z * Z :=
  match fuel with
  | O => (0, k)
  | S fuel' =>
      let e := n - k in
      let num := if 0 <=? e then z else z * 10 ^ (- e) in
      let den := if 0 <=? e then scale * 10 ^ e else scale in
      let lo := num / den in
      let hi := lo + 1 in
      match reads_back lo e z, reads_back hi e z with
      | true, true =>
          if 2 * num <? (lo + hi) * den then (lo, k)
          else if (lo + hi) * den <? 2 * num then (hi, k)
          else if Z.even lo then (lo, k) else (hi, k)
      | true, false => (lo, k)
      | false, true => (hi, k)
      | false, false => shortest_digits fuel' (k + 1) n z
      end
  end.

Fixpoint strip_zeros (s : string) : string :=
  match s with
  | String c r =>
      match strip_zeros r with
      | EmptyString => if (c =? "0")%char then EmptyString else String c EmptyString
      | r' => String c r'
      end
  | EmptyString => EmptyString
  end.

(** [Number::toString] of a positive finite number: its shortest digits
    [d] and decimal exponent [n], laid out plainly when
    [-6 < n <= 21] and with an exponent otherwise. *)
Definition positive_to_string (z : Z) : string :=
  let n0 := decimal_exponent z in
  let '(c, k0) := shortest_digits 17 1 n0 z in
  let all := decimal c in
  let n := n0 + (Z.of_nat (length all) - k0) in
  let d := strip_zeros all in
  let k := Z.of_nat (length d) in
  if (k <=? n) && (n <=? 21) then d ++ zeros (Z.to_nat (n - k))
  else if (0 <? n) && (n <=? 21) then
    substring 0 (Z.to_nat n) d ++ "." ++ substring (Z.to_nat n) (Z.to_nat (k - n)) d
  else if (-6 <? n) && (n <=? 0) then "0." ++ zeros (Z.to_nat (- n)) ++ d
  else
    let e := n - 1 in
    let exponent := (if e <? 0 then "-" else "+") ++ decimal (Z.abs e) in
    match d with
    | String c0 EmptyString => String c0 ("e" ++ exponent)
    | String c0 r => String c0 ("." ++ r ++ "e" ++ exponent)
    | EmptyString => EmptyString
    end.

Definition NumberToString (x : number) : string :=
  match x with
  | NaN => "NaN"
  | PInf => "Infinity"
  | NInf => "-Infinity"
  | Fin z =>
      if z =? 0 then "0"
      else if z <? 0 then "-" ++ positive_to_string (- z)
      else positive_to_string z
  end.

(** ** Values

    The data the scripts handle: what a JSON response deserialises to,
    plus the members every object inherits from [Object.prototype], which
    a property read on an object literal can return.  Objects are plain
    records: converting one to a string or a number goes through the
    inherited [toString], never through a property of its own. *)

Inductive value : Type :=
| VUndefined
| VNull
| VBool (b : bool)
| VNum (x : number)
| VStr (s : string)
| VArr (items : list value)
| VObj (props : list (string * value))
| VBuiltin (name : string).

(** [ToBoolean]: what [!v], [v && ...] and [v || ...] test. *)
Definition truthy (v : value) : bool :=
  match v with
  | VUndefined | VNull => false
  | VBool b => b
  | VNum NaN => false
  | VNum (Fin z) => negb (z =? 0)
  | VNum _ => true
  | VStr s => negb (is_empty s)
  | VArr _ | VObj _ | VBuiltin _ => true
  end.

Definition or_else (v w : value) : value := if truthy v then v else w.

(** [v === w].  Primitives compare by value.  Arrays and objects compare
    by identity: the values compared here come from separately
    deserialised records, which never share one. *)
Definition strict_eq (v w : value) : bool :=
  match v, w with
  | VUndefined, VUndefined | VNull, VNull => true
  | VBool a, VBool b => Bool.eqb a b
  | VNum x, VNum y => num_eqb x y
  | VStr s, VStr t => (s =? t)%string
  | VBuiltin a, VBuiltin b => (a =? b)%string
  | _, _ => false
  end.

Fixpoint assoc (k : string) (l : list (string * value)) : option value :=
  match l with
  | [] => None
  | (k', v) :: r => if (k =? k')%string then Some v else assoc k r
  end.

(** The members of [Object.prototype]. *)
Definition object_prototype : list string :=
  [ "constructor"; "hasOwnProperty"; "isPrototypeOf"; "propertyIsEnumerable";
    "toLocaleString"; "toString"; "valueOf"; "__proto__";
    "__defineGetter__"; "__defineSetter__"; "__lookupGetter__";
    "__lookupSetter__" ].

Definition mem (k : string) (l : list string) : bool :=
  existsb (String.eqb k) l.

(** [v[k]] for a receiver that is neither [undefined] nor [null].  An
    object answers with its own property, then with what it inherits.
    Primitives and arrays are only ever asked for names ([id], [data],
    [status] and the like) that none of their prototypes defines. *)
Definition prop (v : value) (k : string) : value :=
  match v with
  | VObj props =>
      match assoc k props with
      | Some x => x
      | None => if mem k object_prototype then VBuiltin k else VUndefined
      end
  | _ => VUndefined
  end.

Definition nullish (v : value) : bool :=
  match v with VUndefined | VNull => true | _ => false end.

(** ** Exceptions *)

(** What a [catch] block can receive here: a [TypeError] of the engine,
    an [Error] made with [new Error(message)], or the [jqXHR] object of a
    request that failed, of which the scripts read the [status] (a
    number, 0 when no response came) and the [responseJSON]. *)
Inductive exn : Type :=
| TypeError
| Error (message : value)
| Rejection (status : number) (responseJSON : value).

Inductive result (A : Type) : Type :=
| Ok (a : A)
| Throw (e : exn).
Arguments Ok {A} a.
Arguments Throw {A} e.

Definition bind {A B : Type} (c : result A) (k : A -> result B) : result B :=
  match c with
  | Ok a => k a
  | Throw e => Throw e
  end.

Notation "x <- c ;; k" := (bind c (fun x => k))
  (at level 61, c at next level, right associativity).

(** [v.k], which raises on [undefined] and [null]. *)
Definition get (v : value) (k : string) : result value :=
  if nullish v then Throw TypeError else Ok (prop v k).

(** [v?.k] *)
Definition get_opt (v : value) (k : string) : value :=
  if nullish v then VUndefined else prop v k.

(** ** The host

    What the engine and its locale data decide: the Unicode case
    mappings, the collation behind [localeCompare], and the source text
    [String(...)] gives for a built-in. *)

Class Host : Type := {
  toLowerCase : string -> string;
  toUpperCase : string -> string;
  localeCompare : string -> string -> number;
  builtin_text : string -> string
}.

Section WithHost.
Context {host : Host}.

(** [String(v)]; an array joins its elements with commas, [undefined]
    and [null] elements contributing nothing. *)
Fixpoint ToString (v : value) : string :=
  match v with
  | VUndefined => "undefined"
  | VNull => "null"
  | VBool true => "true"
  | VBool false => "false"
  | VNum x => NumberToString x
  | VStr s => s
  | VArr items =>
      (fix join (l : list value) : string :=
         match l with
         | [] => ""
         | x :: r =>
             (if nullish x then "" else ToString x) ++
             match r with [] => "" | _ => "," ++ join r end
         end) items
  | VObj _ => "[object Object]"
  | VBuiltin name => builtin_text name
  end.

(** [Number.prototype.toFixed(f)]: the integer [n] nearest to
    [x * 10^f], the larger one on a tie, printed with a point before its
    last [f] digits; numbers that are not finite or reach [10^21] print
    as [String(x)] does. *)
Definition toFixed (f : nat) (x : number) : string :=
  match x with
  | Fin z =>
      let s := if z <? 0 then "-" else "" in
      let a := Z.abs z in
      if 10 ^ 21 * scale <=? a then s ++ NumberToString (Fin a)
      else
        let n := (2 * a * 10 ^ Z.of_nat f + scale) / (2 * scale) in
        let m := decimal n in
        let m := if (length m <=? f)%nat then zeros (f + 1 - length m) ++ m else m in
        let k := length m in
        match f with
        | O => s ++ m
        | _ => s ++ substring 0 (k - f) m ++ "." ++ substring (k - f) f m
        end
  | _ => NumberToString x
  end.

End WithHost.

(** [Number(v)], the conversion arithmetic applies to its operands.  A
    number printed by [String] reads back as itself, so an array of one
    number converts to that number. *)
Fixpoint ToNumber (v : value) : number :=
  match v with
  | VUndefined => NaN
  | VNull => zero
  | VBool b => if b then of_Z 1 else zero
  | VNum x => x
  | VStr s => StringToNumber s
  | VArr [] => zero
  | VArr [x] =>
      match x with
      | VUndefined | VNull => zero
      | VNum _ | VStr _ | VArr _ => ToNumber x
      | _ => NaN
      end
  | VArr _ => NaN
  | VObj _ => NaN
  | VBuiltin _ => NaN
  end.

(** [parseFloat(v)]: [v] is first turned into a string.  The text of a
    number parses back to it; of an array only the first element can
    matter, since a comma ends any literal. *)
Fixpoint parseFloatOf (v : value) : number :=
  match v with
  | VNum x => x
  | VStr s => parseFloat s
  | VArr (x :: _) => parseFloatOf x
  | _ => NaN
  end.

(** The sign a comparator result is read for; [NaN] counts as zero. *)
Definition sgn (x : number) : Z :=
  match x with
  | NaN => 0
  | PInf => 1
  | NInf => -1
  | Fin z => Z.sgn z
  end.

(** ** [Array.prototype.sort]

    The sort is stable and, on a consistent comparator, leaves the
    elements in non-descending order; both determine the result (see
    [stable_sorted_unique] below), so every conforming engine returns the
    same array.  Which pairs are compared, and so which call raises first
    on a comparator that can raise, is the engine's choice.  The
    procedure below inserts each element, from the last to the first, in
    front of the first element it does not exceed. *)

Section Sort.
Context {A : Type}.
Variable comparefn : A -> A -> result number.

Fixpoint insert (x : A) (l : list A) : result (list A) :=
  match l with
  | [] => Ok [x]
  | y :: r =>
      v <- comparefn x y ;;
      if 0 <? sgn v then (r' <- insert x r ;; Ok (y :: r'))
      else Ok (x :: l)
  end.

Fixpoint sort (l : list A) : result (list A) :=
  match l with
  | [] => Ok []
  | x :: r => r' <- sort r ;; insert x r'
  end.

End Sort.

(** ** A host

    The case mappings of ASCII text, on which every engine agrees, and
    the collation browsers apply to English text for [localeCompare]:
    the Unicode Collation Algorithm at its default (tertiary) strength,
    nothing ignored, over the weights its default table gives the code
    units below 256, which the root collation of CLDR keeps. *)

Definition ascii_lower (c : ascii) : ascii :=
  let n := code c in
  if (65 <=? n) && (n <=? 90) then ascii_of_N (Z.to_N (n + 32)) else c.

Definition ascii_upper (c : ascii) : ascii :=
  let n := code c in
  if (97 <=? n) && (n <=? 122) then ascii_of_N (Z.to_N (n - 32)) else c.

Fixpoint map_string (f : ascii -> ascii) (s : string) : string :=
  match s with
  | String c r => String (f c) (map_string f r)
  | EmptyString => EmptyString
  end.

(** The order of code units, which [sort()] without a comparator
    applies. *)
Definition code_unit_compare (s t : string) : number :=
  match String.compare s t with
  | Lt => of_Z (-1)
  | Eq => zero
  | Gt => of_Z 1
  end.

(** A collation element: a primary, a secondary and a tertiary weight.
    Letters differ in the primary weight, accents in the secondary one,
    case and variants in the tertiary one; a weight 0 is ignored at its
    level. *)
Definition element : Type := (Z * Z * Z)%type.

Definition primary (e : element) : Z := fst (fst e).
Definition secondary (e : element) : Z := snd (fst e).
Definition tertiary (e : element) : Z := snd e.

(** The elements of each code unit.  The control characters, which are
    not listed, have none: they are ignored altogether. *)
Definition collation_table : list (Z * list element) :=
  [
    (0x09, [(0x0201, 0x20, 0x02)]); (0x0A, [(0x0202, 0x20, 0x02)]);
    (0x0B, [(0x0203, 0x20, 0x02)]); (0x0C, [(0x0204, 0x20, 0x02)]);
    (0x0D, [(0x0205, 0x20, 0x02)]); (0x20, [(0x0209, 0x20, 0x02)]);
    (0x21, [(0x0267, 0x20, 0x02)]); (0x22, [(0x031D, 0x20, 0x02)]);
    (0x23, [(0x03AC, 0x20, 0x02)]); (0x24, [(0x1F64, 0x20, 0x02)]);
    (0x25, [(0x03AD, 0x20, 0x02)]); (0x26, [(0x03A9, 0x20, 0x02)]);
    (0x27, [(0x0316, 0x20, 0x02)]); (0x28, [(0x0328, 0x20, 0x02)]);
    (0x29, [(0x0329, 0x20, 0x02)]); (0x2A, [(0x03A1, 0x20, 0x02)]);
    (0x2B, [(0x0666, 0x20, 0x02)]); (0x2C, [(0x0223, 0x20, 0x02)]);
    (0x2D, [(0x020D, 0x20, 0x02)]); (0x2E, [(0x027E, 0x20, 0x02)]);
    (0x2F, [(0x03A6, 0x20, 0x02)]); (0x30, [(0x1F98, 0x20, 0x02)]);
    (0x31, [(0x1F99, 0x20, 0x02)]); (0x32, [(0x1F9A, 0x20, 0x02)]);
    (0x33, [(0x1F9B, 0x20, 0x02)]); (0x34, [(0x1F9C, 0x20, 0x02)]);
    (0x35, [(0x1F9D, 0x20, 0x02)]); (0x36, [(0x1F9E, 0x20, 0x02)]);
    (0x37, [(0x1F9F, 0x20, 0x02)]); (0x38, [(0x1FA0, 0x20, 0x02)]);
    (0x39, [(0x1FA1, 0x20, 0x02)]); (0x3A, [(0x0240, 0x20, 0x02)]);
    (0x3B, [(0x023A, 0x20, 0x02)]); (0x3C, [(0x066A, 0x20, 0x02)]);
    (0x3D, [(0x066B, 0x20, 0x02)]); (0x3E, [(0x066C, 0x20, 0x02)]);
    (0x3F, [(0x026D, 0x20, 0x02)]); (0x40, [(0x03A0, 0x20, 0x02)]);
    (0x41, [(0x1FA2, 0x20, 0x08)]); (0x42, [(0x1FBC, 0x20, 0x08)]);
    (0x43, [(0x1FD6, 0x20, 0x08)]); (0x44, [(0x1FEB, 0x20, 0x08)]);
    (0x45, [(0x2007, 0x20, 0x08)]); (0x46, [(0x2042, 0x20, 0x08)]);
    (0x47, [(0x2051, 0x20, 0x08)]); (0x48, [(0x2075, 0x20, 0x08)]);
    (0x49, [(0x2090, 0x20, 0x08)]); (0x4A, [(0x20AB, 0x20, 0x08)]);
    (0x4B, [(0x20C4, 0x20, 0x08)]); (0x4C, [(0x20D6, 0x20, 0x08)]);
    (0x4D, [(0x2109, 0x20, 0x08)]); (0x4E, [(0x2118, 0x20, 0x08)]);
    (0x4F, [(0x213C, 0x20, 0x08)]); (0x50, [(0x216B, 0x20, 0x08)]);
    (0x51, [(0x2180, 0x20, 0x08)]); (0x52, [(0x2193, 0x20, 0x08)]);
    (0x53, [(0x21D2, 0x20, 0x08)]); (0x54, [(0x21F7, 0x20, 0x08)]);
    (0x55, [(0x2217, 0x20, 0x08)]); (0x56, [(0x2247, 0x20, 0x08)]);
    (0x57, [(0x2259, 0x20, 0x08)]); (0x58, [(0x2264, 0x20, 0x08)]);
    (0x59, [(0x2270, 0x20, 0x08)]); (0x5A, [(0x2286, 0x20, 0x08)]);
    (0x5B, [(0x032A, 0x20, 0x02)]); (0x5C, [(0x03A7, 0x20, 0x02)]);
    (0x5D, [(0x032B, 0x20, 0x02)]); (0x5E, [(0x04B7, 0x20, 0x02)]);
    (0x5F, [(0x020B, 0x20, 0x02)]); (0x60, [(0x04B4, 0x20, 0x02)]);
    (0x61, [(0x1FA2, 0x20, 0x02)]); (0x62, [(0x1FBC, 0x20, 0x02)]);
    (0x63, [(0x1FD6, 0x20, 0x02)]); (0x64, [(0x1FEB, 0x20, 0x02)]);
    (0x65, [(0x2007, 0x20, 0x02)]); (0x66, [(0x2042, 0x20, 0x02)]);
    (0x67, [(0x2051, 0x20, 0x02)]); (0x68, [(0x2075, 0x20, 0x02)]);
    (0x69, [(0x2090, 0x20, 0x02)]); (0x6A, [(0x20AB, 0x20, 0x02)]);
    (0x6B, [(0x20C4, 0x20, 0x02)]); (0x6C, [(0x20D6, 0x20, 0x02)]);
    (0x6D, [(0x2109, 0x20, 0x02)]); (0x6E, [(0x2118, 0x20, 0x02)]);
    (0x6F, [(0x213C, 0x20, 0x02)]); (0x70, [(0x216B, 0x20, 0x02)]);
    (0x71, [(0x2180, 0x20, 0x02)]); (0x72, [(0x2193, 0x20, 0x02)]);
    (0x73, [(0x21D2, 0x20, 0x02)]); (0x74, [(0x21F7, 0x20, 0x02)]);
    (0x75, [(0x2217, 0x20, 0x02)]); (0x76, [(0x2247, 0x20, 0x02)]);
    (0x77, [(0x2259, 0x20, 0x02)]); (0x78, [(0x2264, 0x20, 0x02)]);
    (0x79, [(0x2270, 0x20, 0x02)]); (0x7A, [(0x2286, 0x20, 0x02)]);
    (0x7B, [(0x032C, 0x20, 0x02)]); (0x7C, [(0x066E, 0x20, 0x02)]);
    (0x7D, [(0x032D, 0x20, 0x02)]); (0x7E, [(0x0670, 0x20, 0x02)]);
    (0x85, [(0x0206, 0x20, 0x02)]); (0xA0, [(0x0209, 0x20, 0x1B)]);
    (0xA1, [(0x0268, 0x20, 0x02)]); (0xA2, [(0x1F63, 0x20, 0x02)]);
    (0xA3, [(0x1F65, 0x20, 0x02)]); (0xA4, [(0x1F62, 0x20, 0x02)]);
    (0xA5, [(0x1F66, 0x20, 0x02)]); (0xA6, [(0x066F, 0x20, 0x02)]);
    (0xA7, [(0x039A, 0x20, 0x02)]); (0xA8, [(0x04BB, 0x20, 0x02)]);
    (0xA9, [(0x05D2, 0x20, 0x02)]); (0xAA, [(0x1FA2, 0x20, 0x14)]);
    (0xAB, [(0x0326, 0x20, 0x02)]); (0xAC, [(0x066D, 0x20, 0x02)]);
    (0xAE, [(0x05D4, 0x20, 0x02)]); (0xAF, [(0x04B8, 0x20, 0x02)]);
    (0xB0, [(0x052A, 0x20, 0x02)]); (0xB1, [(0x0667, 0x20, 0x02)]);
    (0xB2, [(0x1F9A, 0x20, 0x14)]); (0xB3, [(0x1F9B, 0x20, 0x14)]);
    (0xB4, [(0x04B5, 0x20, 0x02)]); (0xB5, [(0x2330, 0x20, 0x04)]);
    (0xB6, [(0x039C, 0x20, 0x02)]); (0xB7, [(0x0293, 0x20, 0x02)]);
    (0xB8, [(0x04BE, 0x20, 0x02)]); (0xB9, [(0x1F99, 0x20, 0x14)]);
    (0xBA, [(0x213C, 0x20, 0x14)]); (0xBB, [(0x0327, 0x20, 0x02)]);
    (0xBC, [(0x1F99, 0x20, 0x1E); (0x0676, 0x20, 0x1E); (0x1F9C, 0x20, 0x1E)]);
    (0xBD, [(0x1F99, 0x20, 0x1E); (0x0676, 0x20, 0x1E); (0x1F9A, 0x20, 0x1E)]);
    (0xBE, [(0x1F9B, 0x20, 0x1E); (0x0676, 0x20, 0x1E); (0x1F9C, 0x20, 0x1E)]);
    (0xBF, [(0x026E, 0x20, 0x02)]);
    (0xC0, [(0x1FA2, 0x20, 0x08); (0x0000, 0x25, 0x02)]);
    (0xC1, [(0x1FA2, 0x20, 0x08); (0x0000, 0x24, 0x02)]);
    (0xC2, [(0x1FA2, 0x20, 0x08); (0x0000, 0x27, 0x02)]);
    (0xC3, [(0x1FA2, 0x20, 0x08); (0x0000, 0x2D, 0x02)]);
    (0xC4, [(0x1FA2, 0x20, 0x08); (0x0000, 0x2B, 0x02)]);
    (0xC5, [(0x1FA2, 0x20, 0x08); (0x0000, 0x29, 0x02)]);
    (0xC6, [(0x1FA2, 0x20, 0x0A); (0x0000, 0x118, 0x04); (0x2007, 0x20, 0x0A)]);
    (0xC7, [(0x1FD6, 0x20, 0x08); (0x0000, 0x30, 0x02)]);
    (0xC8, [(0x2007, 0x20, 0x08); (0x0000, 0x25, 0x02)]);
    (0xC9, [(0x2007, 0x20, 0x08); (0x0000, 0x24, 0x02)]);
    (0xCA, [(0x2007, 0x20, 0x08); (0x0000, 0x27, 0x02)]);
    (0xCB, [(0x2007, 0x20, 0x08); (0x0000, 0x2B, 0x02)]);
    (0xCC, [(0x2090, 0x20, 0x08); (0x0000, 0x25, 0x02)]);
    (0xCD, [(0x2090, 0x20, 0x08); (0x0000, 0x24, 0x02)]);
    (0xCE, [(0x2090, 0x20, 0x08); (0x0000, 0x27, 0x02)]);
    (0xCF, [(0x2090, 0x20, 0x08); (0x0000, 0x2B, 0x02)]);
    (0xD0, [(0x1FEB, 0x20, 0x0A); (0x0000, 0x118, 0x04)]);
    (0xD1, [(0x2118, 0x20, 0x08); (0x0000, 0x2D, 0x02)]);
    (0xD2, [(0x213C, 0x20, 0x08); (0x0000, 0x25, 0x02)]);
    (0xD3, [(0x213C, 0x20, 0x08); (0x0000, 0x24, 0x02)]);
    (0xD4, [(0x213C, 0x20, 0x08); (0x0000, 0x27, 0x02)]);
    (0xD5, [(0x213C, 0x20, 0x08); (0x0000, 0x2D, 0x02)]);
    (0xD6, [(0x213C, 0x20, 0x08); (0x0000, 0x2B, 0x02)]);
    (0xD7, [(0x0669, 0x20, 0x02)]);
    (0xD8, [(0x213C, 0x20, 0x08); (0x0000, 0x2F, 0x02)]);
    (0xD9, [(0x2217, 0x20, 0x08); (0x0000, 0x25, 0x02)]);
    (0xDA, [(0x2217, 0x20, 0x08); (0x0000, 0x24, 0x02)]);
    (0xDB, [(0x2217, 0x20, 0x08); (0x0000, 0x27, 0x02)]);
    (0xDC, [(0x2217, 0x20, 0x08); (0x0000, 0x2B, 0x02)]);
    (0xDD, [(0x2270, 0x20, 0x08); (0x0000, 0x24, 0x02)]);
    (0xDE, [(0x22B5, 0x20, 0x08)]);
    (0xDF, [(0x21D2, 0x20, 0x04); (0x0000, 0x118, 0x04); (0x21D2, 0x20, 0x04)]);
    (0xE0, [(0x1FA2, 0x20, 0x02); (0x0000, 0x25, 0x02)]);
    (0xE1, [(0x1FA2, 0x20, 0x02); (0x0000, 0x24, 0x02)]);
    (0xE2, [(0x1FA2, 0x20, 0x02); (0x0000, 0x27, 0x02)]);
    (0xE3, [(0x1FA2, 0x20, 0x02); (0x0000, 0x2D, 0x02)]);
    (0xE4, [(0x1FA2, 0x20, 0x02); (0x0000, 0x2B, 0x02)]);
    (0xE5, [(0x1FA2, 0x20, 0x02); (0x0000, 0x29, 0x02)]);
    (0xE6, [(0x1FA2, 0x20, 0x04); (0x0000, 0x118, 0x04); (0x2007, 0x20, 0x04)]);
    (0xE7, [(0x1FD6, 0x20, 0x02); (0x0000, 0x30, 0x02)]);
    (0xE8, [(0x2007, 0x20, 0x02); (0x0000, 0x25, 0x02)]);
    (0xE9, [(0x2007, 0x20, 0x02); (0x0000, 0x24, 0x02)]);
    (0xEA, [(0x2007, 0x20, 0x02); (0x0000, 0x27, 0x02)]);
    (0xEB, [(0x2007, 0x20, 0x02); (0x0000, 0x2B, 0x02)]);
    (0xEC, [(0x2090, 0x20, 0x02); (0x0000, 0x25, 0x02)]);
    (0xED, [(0x2090, 0x20, 0x02); (0x0000, 0x24, 0x02)]);
    (0xEE, [(0x2090, 0x20, 0x02); (0x0000, 0x27, 0x02)]);
    (0xEF, [(0x2090, 0x20, 0x02); (0x0000, 0x2B, 0x02)]);
    (0xF0, [(0x1FEB, 0x20, 0x04); (0x0000, 0x118, 0x04)]);
    (0xF1, [(0x2118, 0x20, 0x02); (0x0000, 0x2D, 0x02)]);
    (0xF2, [(0x213C, 0x20, 0x02); (0x0000, 0x25, 0x02)]);
    (0xF3, [(0x213C, 0x20, 0x02); (0x0000, 0x24, 0x02)]);
    (0xF4, [(0x213C, 0x20, 0x02); (0x0000, 0x27, 0x02)]);
    (0xF5, [(0x213C, 0x20, 0x02); (0x0000, 0x2D, 0x02)]);
    (0xF6, [(0x213C, 0x20, 0x02); (0x0000, 0x2B, 0x02)]);
    (0xF7, [(0x0668, 0x20, 0x02)]);
    (0xF8, [(0x213C, 0x20, 0x02); (0x0000, 0x2F, 0x02)]);
    (0xF9, [(0x2217, 0x20, 0x02); (0x0000, 0x25, 0x02)]);
    (0xFA, [(0x2217, 0x20, 0x02); (0x0000, 0x24, 0x02)]);
    (0xFB, [(0x2217, 0x20, 0x02); (0x0000, 0x27, 0x02)]);
    (0xFC, [(0x2217, 0x20, 0x02); (0x0000, 0x2B, 0x02)]);
    (0xFD, [(0x2270, 0x20, 0x02); (0x0000, 0x24, 0x02)]);
    (0xFE, [(0x22B5, 0x20, 0x02)]);
    (0xFF, [(0x2270, 0x20, 0x02); (0x0000, 0x2B, 0x02)]) ].

Fixpoint lookup (n : Z) (table : list (Z * list element)) : list element :=
  match table with
  | [] => []
  | (k, e) :: r => if n =? k then e else lookup n r
  end.

Definition elements (c : ascii) : list element := lookup (code c) collation_table.

(** The one contraction among these code units: [l] or [L] with a middle
    dot after it is a single letter, a variant of [l] at the secondary
    level. *)
Definition contracts (c d : ascii) : bool :=
  ((code c =? 0x6C) || (code c =? 0x4C)) && (code d =? 0xB7).

Fixpoint elements_of (s : string) : list element :=
  match s with
  | String c r =>
      match r with
      | String d r' =>
          if contracts c d then
            (elements c ++ (0, 0x118, 0x02) :: elements_of r')%list
          else (elements c ++ elements_of r)%list
      | EmptyString => elements c
      end
  | EmptyString => []
  end.

Definition level (weight : element -> Z) (l : list element) : list Z :=
  filter (fun w => negb (w =? 0)) (map weight l).

(** The sort key: the primary weights of the whole text, then the
    secondary ones, then the tertiary ones, a 0 in between. *)
Definition sort_key (s : string) : list Z :=
  let l := elements_of s in
  (level primary l ++ 0 :: level secondary l ++ 0 :: level tertiary l)%list.

Fixpoint compare_keys (k1 k2 : list Z) : comparison :=
  match k1, k2 with
  | [], [] => Eq
  | [], _ :: _ => Lt
  | _ :: _, [] => Gt
  | w1 :: r1, w2 :: r2 =>
      match w1 ?= w2 with
      | Eq => compare_keys r1 r2
      | c => c
      end
  end.

(** The result is -1, 0 or 1, as the engines return; texts with equal
    keys compare as equal even when they differ. *)
Definition collate (s t : string) : number :=
  match compare_keys (sort_key s) (sort_key t) with
  | Lt => of_Z (-1)
  | Eq => zero
  | Gt => of_Z 1
  end.

#[export] Instance ascii_host : Host := {|
  toLowerCase := map_string ascii_lower;
  toUpperCase := map_string ascii_upper;
  localeCompare := collate;
  builtin_text := fun name =>
    "function " ++ name ++ "() { [native code] }"
|}.

End JS.

Import JS.

(* ================================================================== *)
(** * The tariff calculator ([scriptd5f7.js]) *)
(* ================================================================== *)

Module Calculator.

(** What [.val()] returns for the three controls: the text of the amount
    input, and for each drop-down the value of the selected option, or
    [null] ([None]) when none is selected. *)
Record form : Type := {
  amount_field : string;
  currency_field : option string;
  transaction_type_field : option string
}.

(** The data posted to the backend (the URL and the nonce are constants of
    the page). *)
Record request : Type := {
  action : string;
  amount : string;
  currency : string;
  transactionType : value
}.

Inductive results_view : Type :=
| Hidden
| LoadingSpinner.

(** The part of the page the handlers write: the [.ecocash-error-text]
    elements as (field id, message) pairs, the [#ecocash-amount-warning]
    element, the [limit-exceeded] class of the amount input, the results
    container and the requests sent so far. *)
Record page : Type := {
  field_errors : list (string * string);
  warning_text : string;
  warning_visible : bool;
  limit_exceeded : bool;
  results : results_view;
  requests : list request
}.

Definition blank_page : page :=
  {| field_errors := []; warning_text := ""; warning_visible := false;
     limit_exceeded := false; results := Hidden; requests := [] |}.

Definition set_field_errors (e : list (string * string)) (p : page) : page :=
  {| field_errors := e; warning_text := warning_text p;
     warning_visible := warning_visible p; limit_exceeded := limit_exceeded p;
     results := results p; requests := requests p |}.

Definition set_warning (text : string) (visible : bool) (p : page) : page :=
  {| field_errors := field_errors p; warning_text := text;
     warning_visible := visible; limit_exceeded := limit_exceeded p;
     results := results p; requests := requests p |}.

Definition set_limit_exceeded (b : bool) (p : page) : page :=
  {| field_errors := field_errors p; warning_text := warning_text p;
     warning_visible := warning_visible p; limit_exceeded := b;
     results := results p; requests := requests p |}.

Definition set_results (r : results_view) (p : page) : page :=
  {| field_errors := field_errors p; warning_text := warning_text p;
     warning_visible := warning_visible p; limit_exceeded := limit_exceeded p;
     results := r; requests := requests p |}.

Definition send (r : request) (p : page) : page :=
  {| field_errors := field_errors p; warning_text := warning_text p;
     warning_visible := warning_visible p; limit_exceeded := limit_exceeded p;
     results := results p; requests := (requests p ++ [r])%list |}.

Definition clearValidationErrors (p : page) : page :=
  set_limit_exceeded false
    (set_warning (warning_text p) false (set_field_errors [] p)).

(** The message is added after the field unless the field already has
    one; each field sits in a form group of its own. *)
Definition showFieldError (fieldId message : string) (p : page) : page :=
  if existsb (fun e => (fst e =? fieldId)%string) (field_errors p) then p
  else set_field_errors (field_errors p ++ [(fieldId, message)])%list p.

(** [!v] for the value of a drop-down. *)
Definition unselected (v : option string) : bool :=
  match v with
  | None => true
  | Some s => is_empty s
  end.

(** [v === text] for the value of a drop-down. *)
Definition selected_is (v : option string) (text : string) : bool :=
  match v with
  | Some s => (s =? text)%string
  | None => false
  end.

Section WithHost.
Context {host : Host}.

Definition typeMap : value :=
  VObj [ ("sendmoney", VStr "SENDMONEY"); ("SENDMONEY", VStr "SENDMONEY") ].

(** [typeMap[type] || type.toUpperCase()] *)
Definition convertTransactionType (type : string) : value :=
  or_else (prop typeMap type) (VStr (toUpperCase type)).

(** The first click handler of [#ecocash-calculate-btn].  Past the
    validation both drop-downs hold a non-empty text, which the last
    [match] takes out of the option. *)
Definition on_calculate_click (f : form) (p : page) : page :=
  let p := clearValidationErrors p in
  let amount := trim (amount_field f) in
  let currency := currency_field f in
  let transactionType := transaction_type_field f in
  let isValid := true in
  let '(p, isValid) :=
    if is_empty amount then
      (showFieldError "ecocash-amount" "Please enter an amount" p, false)
    else if is_nan (StringToNumber amount) then
      (showFieldError "ecocash-amount" "Amount must be a number" p, false)
    else if leb (parseFloat amount) zero then
      (showFieldError "ecocash-amount" "Amount must be greater than zero" p, false)
    else (p, isValid) in
  let '(p, isValid) :=
    if unselected currency then
      (showFieldError "ecocash-currency" "Please select a currency" p, false)
    else (p, isValid) in
  let '(p, isValid) :=
    if unselected transactionType then
      (showFieldError "ecocash-transaction-type"
         "Please select a transaction type" p, false)
    else (p, isValid) in
  if negb isValid then p
  else if selected_is currency "USD" && gtb (parseFloat amount) (of_Z 500) then
    let p := showFieldError "ecocash-amount" "USD transactions cannot exceed $500" p in
    let p := set_limit_exceeded true p in
    set_warning "USD transactions cannot exceed $500" true p
  else if selected_is currency "ZWG" && gtb (parseFloat amount) (of_Z 8000) then
    let p := showFieldError "ecocash-amount" "ZWG transactions cannot exceed 8000" p in
    let p := set_limit_exceeded true p in
    set_warning "ZWG transactions cannot exceed 8000" true p
  else
    match currency, transactionType with
    | Some currency, Some transactionType =>
        let transactionType := convertTransactionType transactionType in
        let p := set_results LoadingSpinner p in
        send {| action := "ecocash_calculate"; amount := amount;
                currency := currency; transactionType := transactionType |} p
    | _, _ => p
    end.

(** The five figures of the fee breakdown, as displayed. *)
Record breakdown : Type := {
  currencySymbol : string;
  shown_amount : string;
  shown_serviceCharge : string;
  shown_taxAmount : string;
  shown_totalTariff : string;
  shown_totalAmount : string
}.

(** [showSuccess(apiResponse, currency)]; [amount_now] is what the amount
    input holds when the response arrives.  The callers pass a response
    they have just read a property of, so it is neither [undefined] nor
    [null]. *)
Definition showSuccess (apiResponse : value) (currency : string)
    (amount_now : string) : breakdown :=
  let amount := or_else (prop apiResponse "amount") (VStr amount_now) in
  let serviceCharge := or_else (prop apiResponse "serviceCharge") (VStr "0.00") in
  let taxAmount := or_else (prop apiResponse "taxAmount") (VStr "0.00") in
  let totalTariff := or_else (prop apiResponse "totalTariff") (VStr "0.00") in
  let totalAmount :=
    or_else (prop apiResponse "totalAmount")
      (VStr (toFixed 2 (add (parseFloatOf amount) (parseFloatOf totalTariff)))) in
  {| currencySymbol := if (currency =? "USD")%string then "$" else "";
     shown_amount := toFixed 2 (parseFloatOf amount);
     shown_serviceCharge := toFixed 2 (parseFloatOf serviceCharge);
     shown_taxAmount := toFixed 2 (parseFloatOf taxAmount);
     shown_totalTariff := toFixed 2 (parseFloatOf totalTariff);
     shown_totalAmount := toFixed 2 (parseFloatOf totalAmount) |}.

End WithHost.

(** The [input change] handler of the amount and currency controls. *)
Definition on_amount_or_currency_change (f : form) (p : page) : page :=
  let amount := parseFloat (amount_field f) in
  let currency := currency_field f in
  if is_nan amount then
    set_limit_exceeded false (set_warning (warning_text p) false p)
  else if selected_is currency "USD" && gtb amount (of_Z 500) then
    set_warning "USD transactions cannot exceed $500" true
      (set_limit_exceeded true p)
  else if selected_is currency "ZWG" && gtb amount (of_Z 8000) then
    set_warning "ZWG transactions cannot exceed 8000" true
      (set_limit_exceeded true p)
  else
    set_warning (warning_text p) false (set_limit_exceeded false p).

End Calculator.

Import Calculator.

(* ================================================================== *)
(** * The agent locator (class [EcocashLocator]) *)
(* ================================================================== *)

Module Locator.

(** [this.state], as far as loading, searching, filtering and sorting
    read or write it, together with what the user is shown: the toasts of
    [showMessage] as (message, type) pairs and the console warnings.
    [filteredAgents] is always a fresh array, a copy of [agents] or the
    result of a [filter], so sorting it in place never reorders
    [agents]; the agent records themselves are never written. *)
Record state : Type := {
  agents : list value;
  filteredAgents : list value;
  isLoading : bool;
  toasts : list (string * string);
  console : list string
}.

Definition initial_state : state :=
  {| agents := []; filteredAgents := []; isLoading := false;
     toasts := []; console := [] |}.

Definition set_agents (l : list value) (s : state) : state :=
  {| agents := l; filteredAgents := filteredAgents s; isLoading := isLoading s;
     toasts := toasts s; console := console s |}.

Definition set_filteredAgents (l : list value) (s : state) : state :=
  {| agents := agents s; filteredAgents := l; isLoading := isLoading s;
     toasts := toasts s; console := console s |}.

Definition set_isLoading (b : bool) (s : state) : state :=
  {| agents := agents s; filteredAgents := filteredAgents s; isLoading := b;
     toasts := toasts s; console := console s |}.

Definition add_toast (message type : string) (s : state) : state :=
  {| agents := agents s; filteredAgents := filteredAgents s;
     isLoading := isLoading s;
     toasts := (toasts s ++ [(message, type)])%list; console := console s |}.

Definition add_console (text : string) (s : state) : state :=
  {| agents := agents s; filteredAgents := filteredAgents s;
     isLoading := isLoading s; toasts := toasts s;
     console := (console s ++ [text])%list |}.

(** The values of the search box and of the three drop-downs. *)
Record controls : Type := {
  agent_search : string;
  region_filter : option string;
  area_filter : option string;
  sort_filter : option string
}.

(** ** Methods run on the state and may raise

    A method is a function from the state to an outcome and the state it
    leaves: what was assigned before an exception stays assigned. *)

Definition M (A : Type) : Type := state -> result A * state.

Definition ret {A : Type} (a : A) : M A := fun s => (Ok a, s).

Definition mbind {A B : Type} (c : M A) (k : A -> M B) : M B :=
  fun s =>
    match c s with
    | (Ok a, s') => k a s'
    | (Throw e, s') => (Throw e, s')
    end.

Definition throw {A : Type} (e : exn) : M A := fun s => (Throw e, s).

Definition lift {A : Type} (r : result A) : M A := fun s => (r, s).

Definition read : M state := fun s => (Ok s, s).

Definition modify (f : state -> state) : M unit := fun s => (Ok tt, f s).

(** [try { body } catch (error) { handler } finally { cleanup }] *)
Definition try_catch_finally (body : M unit) (handler : exn -> M unit)
    (cleanup : M unit) : M unit :=
  fun s =>
    match body s with
    | (Ok tt, s') => cleanup s'
    | (Throw e, s') =>
        match handler e s' with
        | (Ok tt, s'') => cleanup s''
        | (Throw e', s'') =>
            match cleanup s'' with
            | (Ok tt, s3) => (Throw e', s3)
            | r => r
            end
        end
    end.

Notation "x <-- c ;;; k" := (mbind c (fun x => k))
  (at level 61, c at next level, right associativity).
Notation "c ;;; k" := (mbind c (fun _ => k))
  (at level 61, right associativity).

(** [Array.prototype.filter] and [Array.prototype.some] with a callback
    that may raise. *)
Fixpoint filterM {A : Type} (f : A -> result bool) (l : list A)
    : result (list A) :=
  match l with
  | [] => Ok []
  | x :: r =>
      b <- f x ;;
      r' <- filterM f r ;;
      Ok (if b then x :: r' else r')
  end.

Fixpoint some {A : Type} (f : A -> result bool) (l : list A) : result bool :=
  match l with
  | [] => Ok false
  | x :: r => b <- f x ;; if b then Ok true else some f r
  end.

(** What [await $.ajax(...)] comes back with: the response, or the
    status and parsed body of the [jqXHR] the request was rejected
    with. *)
Inductive reply : Type :=
| Resolved (response : value)
| Rejected (status : number) (responseJSON : value).

Definition await (r : reply) : M value :=
  match r with
  | Resolved response => ret response
  | Rejected status responseJSON => throw (Rejection status responseJSON)
  end.

(** [error.status] and [error.responseJSON] in a [catch] block; only a
    [jqXHR] has them. *)
Definition status_of (error : exn) : value :=
  match error with
  | Rejection status _ => VNum status
  | _ => VUndefined
  end.

Definition responseJSON_of (error : exn) : value :=
  match error with
  | Rejection _ responseJSON => responseJSON
  | _ => VUndefined
  end.

(** The page and the map library, which lie outside the repository:
    [draw l] tells whether rendering the cards and markers of the agents
    [l] raises, and what; [fill l] does the same for filling the region
    and area drop-downs from the agents [l]. *)
Class Display : Type := {
  draw : list value -> option exn;
  fill : list value -> option exn
}.

Section WithHost.
Context {host : Host} {display : Display}.

Definition showMessage (message type : string) : M unit :=
  modify (add_toast message type).

Definition updateDisplay : M unit :=
  s <-- read ;;;
  match draw (filteredAgents s) with
  | Some e => throw e
  | None => ret tt
  end.

Definition populateFilters : M unit :=
  s <-- read ;;;
  match fill (agents s) with
  | Some e => throw e
  | None => ret tt
  end.

(** The test of the [filter] in [processAgentsData]. *)
Definition valid_new_agent (existing : list value) (agent : value) : bool :=
  truthy agent &&
  truthy (prop agent "id") &&
  truthy (prop agent "representative") &&
  truthy (prop agent "latitude") &&
  truthy (prop agent "longitude") &&
  negb (existsb (fun existingAgent =>
                   strict_eq (prop existingAgent "id") (prop agent "id"))
          existing).

Definition processAgentsData (newAgents : value) : M unit :=
  match newAgents with
  | VArr items =>
      s <-- read ;;;
      let validNewAgents := filter (valid_new_agent (agents s)) items in
      if (0 <? List.length validNewAgents)%nat then
        modify (set_agents (agents s ++ validNewAgents)%list) ;;;
        modify (fun s => set_filteredAgents (agents s) s) ;;;
        updateDisplay ;;;
        populateFilters ;;;
        s <-- read ;;;
        if (List.length (agents s) =? List.length validNewAgents)%nat then
          showMessage
            ("Found " ++ decimal (Z.of_nat (List.length (agents s))) ++ " EcoCash agents")
            "success"
        else ret tt
      else ret tt
  | _ => modify (add_console "Invalid agents data received")
  end.

(** The message the [catch] block of [loadAgents] builds from what was
    raised. *)
Definition errorMessage (error : exn) : string :=
  let errorMessage := "Failed to load agents. " in
  if strict_eq (status_of error) (VNum zero) then
    errorMessage ++ "Please check your internet connection."
  else if geb (ToNumber (status_of error)) (of_Z 500) then
    errorMessage ++ "Server error occurred."
  else
    errorMessage ++
    ToString (or_else
                (get_opt (get_opt (responseJSON_of error) "data") "message")
                (VStr "Please try again later.")).

(** [loadAgents(lat, lng, showLoading)] up to its [await]: nothing is
    done while another load is in flight; otherwise the flag is raised
    and the request is sent.  The result tells whether it was. *)
Definition loadAgents_call : M bool :=
  s <-- read ;;;
  if isLoading s then ret false
  else modify (set_isLoading true) ;;; ret true.

(** [loadAgents] from its [await] on, given what the request comes back
    with. *)
Definition loadAgents_resume (r : reply) : M unit :=
  try_catch_finally
    (response <-- await r ;;;
     success <-- lift (get response "success") ;;;
     if truthy success
        && truthy (prop response "data")
        && truthy (prop (prop response "data") "agents")
     then processAgentsData (prop (prop response "data") "agents")
     else
       throw (Error (or_else (get_opt (prop response "data") "message")
                             (VStr "Invalid response from server"))))
    (fun error => showMessage (errorMessage error) "error")
    (modify (set_isLoading false)).

(** A call of [loadAgents] whose request settles before anything else
    happens. *)
Definition loadAgents (r : reply) : M unit :=
  sent <-- loadAgents_call ;;;
  if sent then loadAgents_resume r else ret tt.

(** One test of the [some] in [searchInAgent]:
    [field && field.toLowerCase().includes(searchTerm)]. *)
Definition field_matches (searchTerm : string) (field : value) : result bool :=
  if truthy field then
    match field with
    | VStr text => Ok (includes (toLowerCase text) searchTerm)
    | _ => Throw TypeError
    end
  else Ok false.

Definition searchFields (agent : value) : list value :=
  [ prop agent "representative"; prop agent "address"; prop agent "city";
    prop agent "province"; prop agent "msisdn" ].

Definition searchInAgent (agent : value) (searchTerm : string) : result bool :=
  some (field_matches searchTerm) (searchFields agent).

Definition compare_distance (a b : value) : result number :=
  let distA := or_else (prop a "distance") (VNum (of_Z 999999)) in
  let distB := or_else (prop b "distance") (VNum (of_Z 999999)) in
  Ok (sub (ToNumber distA) (ToNumber distB)).

(** [a.representative.localeCompare(b.representative)]: the receiver must
    be a string, the argument is converted to one. *)
Definition compare_name (a b : value) : result number :=
  match prop a "representative" with
  | VStr name => Ok (localeCompare name (ToString (prop b "representative")))
  | _ => Throw TypeError
  end.

(** [sortAgents(sortBy)]; a comparator that raises leaves the array as it
    was. *)
Definition sortAgents (sortBy : option string) : M unit :=
  s <-- read ;;;
  let comparefn :=
    if selected_is sortBy "distance" then compare_distance else compare_name in
  sorted <-- lift (sort comparefn (filteredAgents s)) ;;;
  modify (set_filteredAgents sorted).

Definition searchTerm_of (c : controls) : string :=
  trim (toLowerCase (agent_search c)).

(** The callback of the [filter] in [applyCurrentFilters]. *)
Definition keeps (c : controls) (agent : value) : result bool :=
  let searchTerm := searchTerm_of c in
  let selectedRegion := region_filter c in
  let selectedArea := area_filter c in
  matchesSearch <-
    (if is_empty searchTerm then Ok true else searchInAgent agent searchTerm) ;;
  let matchesRegion :=
    unselected selectedRegion ||
    match selectedRegion with
    | Some region => strict_eq (prop agent "province") (VStr region)
    | None => false
    end in
  let matchesArea :=
    unselected selectedArea ||
    match selectedArea with
    | Some area => strict_eq (prop agent "city") (VStr area)
    | None => false
    end in
  Ok (matchesSearch && matchesRegion && matchesArea).

Definition applyCurrentFilters (c : controls) : M unit :=
  let sortBy := sort_filter c in
  s <-- read ;;;
  kept <-- lift (filterM (keeps c) (agents s)) ;;;
  modify (set_filteredAgents kept) ;;;
  sortAgents sortBy.

Definition performSearch (c : controls) : M unit :=
  let searchTerm := searchTerm_of c in
  s <-- read ;;;
  (if is_empty searchTerm then modify (set_filteredAgents (agents s))
   else
     kept <-- lift (filterM (fun agent => searchInAgent agent searchTerm)
                            (agents s)) ;;;
     modify (set_filteredAgents kept)) ;;;
  applyCurrentFilters c ;;;
  updateDisplay.

Definition applyFilters (c : controls) : M unit :=
  applyCurrentFilters c ;;;
  updateDisplay.

Definition clearFilters : M unit :=
  s <-- read ;;;
  modify (set_filteredAgents (agents s)) ;;;
  updateDisplay ;;;
  showMessage "Filters cleared" "info".

(** What can happen to the locator once it is set up: [loadAgents] is
    called, the request in flight settles, [processAgentsData] is called,
    the user searches, changes a filter or clears them. *)
Inductive event : Type :=
| LoadCalled
| LoadSettled (r : reply)
| ProcessAgents (newAgents : value)
| Search (c : controls)
| ApplyFilters (c : controls)
| ClearFilters.

Definition handle (e : event) : M unit :=
  match e with
  | LoadCalled => loadAgents_call ;;; ret tt
  | LoadSettled r => loadAgents_resume r
  | ProcessAgents newAgents => processAgentsData newAgents
  | Search c => performSearch c
  | ApplyFilters c => applyFilters c
  | ClearFilters => clearFilters
  end.

(** The state after a sequence of events; an exception that escapes a
    handler ends that handler only. *)
Fixpoint run (events : list event) (s : state) : state :=
  match events with
  | [] => s
  | e :: rest => run rest (snd (handle e s))
  end.

End WithHost.

(** A page on which rendering never raises. *)
Definition quiet_display : Display :=
  {| draw := fun _ => None; fill := fun _ => None |}.

End Locator.

Import Locator.

(* ================================================================== *)
(** * Vocabulary of the specification *)
(* ================================================================== *)

Module Spec.

(** The per-currency ceilings and their messages. *)
Definition ceilings : list (string * Z * string) :=
  [ ("USD", 500, "USD transactions cannot exceed $500");
    ("ZWG", 8000, "ZWG transactions cannot exceed 8000") ].

(** The exact value of a plain decimal numeral, digits with at most one
    point among them: the pair [(m, k)] stands for [m / 10^k]. *)
Definition decimal_value (s : string) : option (Z * Z) :=
  let '(i, ni, r1) := scan_digits 10 s 0 0 in
  match r1 with
  | EmptyString => if ni =? 0 then None else Some (i, 0)
  | String c r2 =>
      if (c =? ".")%char then
        match scan_digits 10 r2 i 0 with
        | (m, nf, EmptyString) => if (ni =? 0) && (nf =? 0) then None else Some (m, nf)
        | _ => None
        end
      else None
  end.

(** The amount typed is above the limit, taken as the decimal it is. *)
Definition exceeds (amount : string) (limit : Z) : bool :=
  match decimal_value amount with
  | Some (m, k) => limit * 10 ^ k <? m
  | None => false
  end.

(** The request a valid form leads to. *)
Definition request_for {host : Host} (amount currency type : string) : request :=
  {| action := "ecocash_calculate"; amount := amount; currency := currency;
     transactionType := convertTransactionType type |}.

(** The shape [toFixed(2)] gives a finite number: an optional minus
    sign, digits, a point and exactly two digits. *)

Definition is_digit (c : ascii) : bool :=
  let n := code c in (48 <=? n) && (n <=? 57).

Fixpoint all_digits (s : string) : bool :=
  match s with
  | String c r => is_digit c && all_digits r
  | EmptyString => true
  end.

Fixpoint fixed2 (s : string) : bool :=
  match s with
  | String c r =>
      is_digit c &&
      (fixed2 r ||
       match r with
       | String p (String a (String b EmptyString)) =>
           (p =? ".")%char && is_digit a && is_digit b
       | _ => false
       end)
  | EmptyString => false
  end.

Definition two_decimals (s : string) : bool :=
  match s with
  | String c r => if (c =? "-")%char then fixed2 r else fixed2 s
  | EmptyString => false
  end.

(** Finite and below [10^21] in magnitude. *)
Definition plain (x : number) : bool :=
  match x with
  | Fin z => Z.abs z <? 10 ^ 21 * scale
  | _ => false
  end.

(** The stable insertion sort for an order given by a test: [after x y]
    says that [x] has to come after [y]. *)

Section SortBy.
Context {A : Type}.
Variable after : A -> A -> bool.

Fixpoint insert_by (x : A) (l : list A) : list A :=
  match l with
  | [] => [x]
  | y :: r => if after x y then y :: insert_by x r else x :: l
  end.

Fixpoint sort_by (l : list A) : list A :=
  match l with
  | [] => []
  | x :: r => insert_by x (sort_by r)
  end.
End SortBy.

(** How a comparator's result is read: positive puts the first argument
    after the second; two elements are tied when neither comes after the
    other. *)

Definition comes_after {A : Type} (c : A -> A -> number) (x y : A) : bool :=
  0 <? sgn (c x y).
Definition tied {A : Type} (c : A -> A -> number) (x y : A) : bool :=
  negb (comes_after c x y) && negb (comes_after c y x).

(** The locator's vocabulary. *)

(** The four fields every stored agent must have. *)
Definition has_required_fields (agent : value) : bool :=
  truthy agent &&
  truthy (prop agent "id") &&
  truthy (prop agent "representative") &&
  truthy (prop agent "latitude") &&
  truthy (prop agent "longitude").

Definition has_id (agent : value) : bool := truthy (prop agent "id").

(** [earlier.id === later.id] *)
Definition same_id (earlier later : value) : bool :=
  strict_eq (prop earlier "id") (prop later "id").

(** No entry has the id of an entry before it. *)
Fixpoint distinct_ids (l : list value) : bool :=
  match l with
  | [] => true
  | a :: r => negb (existsb (same_id a) r) && distinct_ids r
  end.

(** The list of agents a response carries, when the event is a load. *)
Definition payload (e : event) : option value :=
  match e with
  | ProcessAgents newAgents => Some newAgents
  | LoadSettled (Resolved response) => Some (prop (prop response "data") "agents")
  | _ => None
  end.

(** The entries of one response that have an id have different ids. *)
Definition batch_ids_distinct (e : event) : Prop :=
  forall items, payload e = Some (VArr items) ->
                distinct_ids (filter has_id items) = true.

(** The accumulated list after a response is merged into it. *)
Definition merged (existing : list value) (newAgents : value) : list value :=
  match newAgents with
  | VArr items => (existing ++ filter (valid_new_agent existing) items)%list
  | _ => existing
  end.

(** The test [loadAgents] applies to a response before it processes it;
    reading a property of [undefined] or [null] raises. *)
Definition well_formed (response : value) : bool :=
  negb (nullish response) &&
  truthy (prop response "success") &&
  truthy (prop response "data") &&
  truthy (prop (prop response "data") "agents").




(** A present search field is a string. *)
Definition text_or_absent (field : value) : bool :=
  match field with
  | VStr _ => true
  | _ => negb (truthy field)
  end.

Definition searchable (agent : value) : bool :=
  forallb text_or_absent (searchFields agent).

Section WithHost.
Context {host : Host}.

(** A field is present and its lower-cased text contains the term. *)
Definition field_contains (term : string) (field : value) : bool :=
  match field with
  | VStr text => negb (is_empty text) && includes (toLowerCase text) term
  | _ => false
  end.

Definition matches (term : string) (agent : value) : bool :=
  existsb (field_contains term) (searchFields agent).

(** The order [localeCompare] puts on the names. *)
Definition name_order (a b : value) : number :=
  localeCompare (ToString (prop a "representative"))
                (ToString (prop b "representative")).

(** What makes [localeCompare] a consistent comparator. *)
Definition consistent_collation : Prop :=
  (forall s t, comes_after localeCompare s t = true ->
               comes_after localeCompare t s = false)
  /\ (forall s t u, comes_after localeCompare s t = false ->
                    comes_after localeCompare t u = false ->
                    comes_after localeCompare s u = false).

End WithHost.

(** The distance an agent is sorted by: its own when it has one,
    999999 otherwise. *)
Definition distance_key (agent : value) : number :=
  ToNumber (or_else (prop agent "distance") (VNum (of_Z 999999))).

Definition distance_order (a b : value) : number :=
  sub (distance_key a) (distance_key b).

Definition unknown_distance (agent : value) : bool :=
  negb (truthy (prop agent "distance")).

(** No agent without a distance stands before one that has a distance. *)
Fixpoint unknown_last (l : list value) : bool :=
  match l with
  | [] => true
  | a :: r =>
      (if unknown_distance a then forallb unknown_distance r else true)
      && unknown_last r
  end.

Definition has_name (agent : value) : bool :=
  match prop agent "representative" with VStr _ => true | _ => false end.

(** [!selected || field === selected] *)
Definition option_matches (selected : option string) (field : value) : bool :=
  unselected selected ||
  match selected with
  | Some text => strict_eq field (VStr text)
  | None => false
  end.

Section WithHost.
Context {host : Host}.
(** What [applyCurrentFilters] keeps. *)
Definition kept_by (c : controls) (agent : value) : bool :=
  (is_empty (searchTerm_of c) || matches (searchTerm_of c) agent)
  && option_matches (region_filter c) (prop agent "province")
  && option_matches (area_filter c) (prop agent "city").

(** The comparator [sortAgents] picks. *)
Definition order_of (sortBy : option string) : value -> value -> number :=
  if selected_is sortBy "distance" then distance_order else name_order.
End WithHost.

(** Some agents and responses. *)

Definition agent (id : Z) (name : string) (distance : value) : value :=
  VObj [ ("id", VNum (of_Z id)); ("representative", VStr name);
         ("address", VStr "12 Samora Machel Ave"); ("city", VStr "Harare");
         ("latitude", VNum (of_Z (-17))); ("longitude", VNum (of_Z 31));
         ("distance", distance) ].

(** The locator showing the agents [l], all of them. *)
Definition showing (l : list value) : state :=
  set_filteredAgents l (set_agents l initial_state).

Definition bob : value := agent 1 "Bob" VNull.
Definition alice : value := agent 2 "alice" (VNum (of_Z 1500000)).
Definition carl : value := agent 3 "Carl" (VNum (of_Z 20)).
Definition zed : value := agent 4 "Zed" (VNum zero).

(** An agent whose phone number came as a JSON number, and agents whose
    names did. *)
Definition tari : value :=
  VObj [ ("id", VNum (of_Z 5)); ("representative", VStr "Tari");
         ("address", VStr "3 Fife Street"); ("city", VStr "Bulawayo");
         ("province", VStr "Bulawayo"); ("msisdn", VNum (of_Z 772000111));
         ("latitude", VNum (of_Z (-20))); ("longitude", VNum (of_Z 28)) ].

Definition numbered (id name : Z) : value :=
  VObj [ ("id", VNum (of_Z id)); ("representative", VNum (of_Z name));
         ("latitude", VNum (of_Z (-20))); ("longitude", VNum (of_Z 28)) ].

Definition search_har : controls :=
  {| agent_search := " HAR "; region_filter := None; area_filter := Some "";
     sort_filter := Some "name" |}.

Definition search_bob : controls :=
  {| agent_search := " BOB "; region_filter := None; area_filter := None;
     sort_filter := Some "name" |}.

Definition search_blank : controls :=
  {| agent_search := "   "; region_filter := None; area_filter := None;
     sort_filter := Some "name" |}.

Definition response_with (agents : value) : value :=
  VObj [ ("success", VBool true); ("data", VObj [ ("agents", agents) ]) ].

(** Some forms and responses. *)

Definition form_450_usd : form :=
  {| amount_field := " 450.50 "; currency_field := Some "USD";
     transaction_type_field := Some "sendmoney" |}.

Definition form_50_zwg : form :=
  {| amount_field := "50"; currency_field := Some "ZWG";
     transaction_type_field := Some "sendmoney" |}.

(** One hundred-quadrillionth above the ceiling. *)
Definition form_just_over_usd : form :=
  {| amount_field := "500.00000000000000001"; currency_field := Some "USD";
     transaction_type_field := Some "sendmoney" |}.

Definition form_empty : form :=
  {| amount_field := "   "; currency_field := None;
     transaction_type_field := Some "" |}.

Definition bare_success : value := VObj [ ("success", VBool true) ].

End Spec.

Import Spec.

(* ================================================================== *)
(** * More of the language and of the platform *)
(* ================================================================== *)

Module Builtins.

(** [Math.round(x)]: the integer nearest to [x], the larger one on a
    tie.  The result is a binary64 value: below [2^52] an integer has at
    most 53 bits, and from [2^52] on [x] is an integer already. *)
Definition Math_round (x : number) : number :=
  match x with
  | Fin a => Fin ((2 * a + scale) / (2 * scale) * scale)
  | _ => x
  end.

(** [x / n] for an integer literal [n > 0]: the quotient, rounded. *)
Definition divide_by (n : Z) (x : number) : number :=
  match x with
  | Fin a => round_ratio a n
  | _ => x
  end.

(** [s.split(sep)] for a separator of one code unit: the pieces between
    the separators, at least one. *)
Fixpoint split (sep : ascii) (s : string) : list string :=
  match s with
  | EmptyString => [EmptyString]
  | String c r =>
      if (c =? sep)%char then EmptyString :: split sep r
      else
        match split sep r with
        | word :: words => String c word :: words
        | [] => [String c EmptyString]
        end
  end.

(** [s[0]]: the first code unit as a string, [undefined] when there is
    none. *)
Definition first_unit (s : string) : value :=
  match s with
  | String c _ => VStr (String c EmptyString)
  | EmptyString => VUndefined
  end.

(** What [innerHTML] gives back for an element whose [textContent] was
    set to [s]: the text with [&], [<], [>] and the no-break space
    replaced by their character references. *)
Definition escape_unit (c : ascii) : string :=
  if (c =? "&")%char then "&amp;"
  else if (c =? "<")%char then "&lt;"
  else if (c =? ">")%char then "&gt;"
  else if code c =? 160 then "&nbsp;"
  else String c EmptyString.

Fixpoint serialize_text (s : string) : string :=
  match s with
  | String c r => escape_unit c ++ serialize_text r
  | EmptyString => EmptyString
  end.

(** The quotation mark. *)
Definition quotation_mark : ascii := ascii_of_N 34.

(** The character a reference stands for, for the references
    [serialize_text] writes and [&quot;]. *)
Definition reference (name : string) : option ascii :=
  if (name =? "amp")%string then Some "&"%char
  else if (name =? "lt")%string then Some "<"%char
  else if (name =? "gt")%string then Some ">"%char
  else if (name =? "quot")%string then Some quotation_mark
  else if (name =? "nbsp")%string then Some (ascii_of_N 160)
  else None.

(** The carriage return. *)
Definition carriage_return : ascii := ascii_of_N 13.

(** An HTML parser first normalises the newlines of its input: a CR
    with the LF after it, and any other CR, becomes one LF. *)
Fixpoint normalize_newlines (s : string) : string :=
  match s with
  | String c r =>
      if code c =? 13 then
        match r with
        | String d r' =>
            if code d =? 10 then String d (normalize_newlines r')
            else String (ascii_of_N 10) (normalize_newlines r)
        | EmptyString => String (ascii_of_N 10) EmptyString
        end
      else String c (normalize_newlines r)
  | EmptyString => EmptyString
  end.

(** The value an HTML parser then gives an attribute written between
    quotation marks, read from the text after the opening mark: the text
    up to the next mark, each character reference replaced by its
    character.  [pending] holds what has been read of a reference,
    [None] outside one.  There is no answer when the text ends before
    the closing mark, when it holds an ampersand that does not start one
    of the references above, which are the only ones covered here, or
    when it holds the code unit 0, which the parser replaces by U+FFFD,
    a code unit that a [string] does not carry. *)
Fixpoint attribute_value (s : string) (pending : option string) : option string :=
  match s with
  | EmptyString => None
  | String c r =>
      match pending with
      | None =>
          if (c =? quotation_mark)%char then Some EmptyString
          else if (c =? "&")%char then attribute_value r (Some EmptyString)
          else if code c =? 0 then None
          else option_map (String c) (attribute_value r None)
      | Some name =>
          if (c =? ";")%char then
            match reference name with
            | Some d => option_map (String d) (attribute_value r None)
            | None => None
            end
          else attribute_value r (Some (name ++ String c EmptyString))
      end
  end.

(** The equality of [Set]: strict equality, except that [NaN] equals
    itself. *)
Definition SameValueZero (v w : value) : bool :=
  strict_eq v w ||
  match v, w with
  | VNum NaN, VNum NaN => true
  | _, _ => false
  end.

(** [[...new Set(l)]]: the values of [l] in the order of their first
    occurrence. *)
Fixpoint add_all (seen l : list value) : list value :=
  match l with
  | [] => seen
  | x :: r =>
      if existsb (SameValueZero x) seen then add_all seen r
      else add_all (seen ++ [x]) r
  end.

Definition Set_of (l : list value) : list value := add_all [] l.

Section WithHost.
Context {host : Host}.

(** The comparison [sort()] applies when it is given no comparator:
    by the code units of the two texts. *)
Definition default_compare (x y : value) : number :=
  code_unit_compare (ToString x) (ToString y).

End WithHost.

End Builtins.

Import Builtins.

(* ================================================================== *)
(** * The calculator's other handlers *)
(* ================================================================== *)

Module CalculatorHandlers.



Section WithHost.
Context {host : Host}.

(** [JSON.parse], which belongs to the engine: the value a text denotes,
    or nothing when it raises a [SyntaxError]. *)
Variable JSON_parse : string -> option value.



End WithHost.

(** The [blur] handler of the amount input that reformats it. *)
Definition on_amount_blur (f : form) : form :=
  let amount := parseFloat (amount_field f) in
  if negb (is_nan amount) && gtb amount zero then
    {| amount_field := toFixed 2 amount;
       currency_field := currency_field f;
       transaction_type_field := transaction_type_field f |}
  else f.

End CalculatorHandlers.

Import CalculatorHandlers.

(* ================================================================== *)
(** * The locator's views *)
(* ================================================================== *)

Module LocatorViews.

Definition formatDistance (distance : value) : string :=
  if ltb (ToNumber distance) (of_Z 1000) then
    NumberToString (Math_round (ToNumber distance)) ++ "m"
  else toFixed 1 (divide_by 1000 (ToNumber distance)) ++ "km".

(** The [distance] constant of [createAgentCard] and
    [createPopupContent]. *)
Definition distance_label (agent : value) : string :=
  if truthy (prop agent "distance") then formatDistance (prop agent "distance")
  else "".

(** [escapeHtml(text)] *)
Definition escapeHtml (text : value) : string :=
  match text with
  | VStr s => serialize_text s
  | _ => ""
  end.

(** What [getInitials] returns: the money-bag sign, which lies outside
    the code units a [string] carries, or a text. *)
Inductive initials : Type :=
| MoneyBag
| Letters (text : string).

Section WithHost.
Context {host : Host}.

(** [getInitials(name)]; [trim] is a method of strings only. *)
Definition getInitials (name : value) : result initials :=
  if negb (truthy name) then Ok MoneyBag
  else
    match name with
    | VStr text =>
        let words := split " " (trim text) in
        match words with
        | [word] => Ok (Letters (toUpperCase (substring 0 2 word)))
        | word0 :: word1 :: _ =>
            Ok (Letters
                  (toUpperCase
                     (ToString (first_unit word0) ++
                      (if negb (is_empty word1) then ToString (first_unit word1)
                       else ""))))
        | [] => Throw TypeError
        end
    | _ => Throw TypeError
    end.

(** The [regions] and [areas] of [populateFilters]: the truthy values of
    a field over the accumulated agents, each once, sorted with
    [sort()]. *)
Definition options_of (field : string) (agents : list value) : list value :=
  sort_by (comes_after default_compare)
    (Set_of (filter truthy (map (fun agent => prop agent field) agents))).

End WithHost.

(** The markup [populateFilters] appends for the option of a region or
    an area:
    [<option value="${escapeHtml(region)}">${escapeHtml(region)}</option>]. *)
Definition option_markup (region : value) : string :=
  "<option value="
  ++ String quotation_mark
       (escapeHtml region
        ++ String quotation_mark (">" ++ escapeHtml region ++ "</option>")).

(** The value of the option once the markup is parsed, which is what
    [.val()] returns on the drop-down when the option is chosen: that of
    the [value] attribute, read after the 15 code units up to its
    opening quotation mark. *)
Definition option_value (region : value) : option string :=
  attribute_value (drop 15 (normalize_newlines (option_markup region))) None.

(** The test of [renderMapMarkers]:
    [agent.latitude && agent.longitude]. *)
Definition has_position (agent : value) : result bool :=
  latitude <- get agent "latitude" ;;
  if truthy latitude then
    longitude <- get agent "longitude" ;; Ok (truthy longitude)
  else Ok false.

(** The map library, which lies outside the repository.
    [marker_fault agent] tells whether [L.divIcon], [L.marker],
    [bindPopup] or [on] raises for the marker of [agent], and what (the
    library refuses coordinates it cannot read as numbers);
    [layer_fault agent] does the same for adding that marker to the
    group of markers, and [fit_fault l] for fitting the map to the
    markers of the agents [l]. *)
Class MapLibrary : Type := {
  marker_fault : value -> option exn;
  layer_fault : value -> option exn;
  fit_fault : list value -> option exn
}.

(** A marker: the agent it stands for and the text of its icon. *)
Record marker : Type := {
  agentData : value;
  icon : initials
}.

Section WithMap.
Context {host : Host} {library : MapLibrary}.

(** [createCustomIcon(false, agent)]: the icon shows the initials. *)
Definition createCustomIcon (agent : value) : result initials :=
  if truthy agent then getInitials (prop agent "representative")
  else Ok MoneyBag.

(** [createMarker(agent)]: the icon is made first, as an argument of
    [L.marker]. *)
Definition createMarker (agent : value) : result marker :=
  initials <- createCustomIcon agent ;;
  match marker_fault agent with
  | Some e => Throw e
  | None => Ok {| agentData := agent; icon := initials |}
  end.

(** The [forEach] of [renderMapMarkers]: the outcome, and
    [this.state.markers] as it is left. *)
Fixpoint add_markers (l : list value) (markers : list marker)
    : result unit * list marker :=
  match l with
  | [] => (Ok tt, markers)
  | agent :: r =>
      match has_position agent with
      | Throw e => (Throw e, markers)
      | Ok false => add_markers r markers
      | Ok true =>
          match createMarker agent with
          | Throw e => (Throw e, markers)
          | Ok m =>
              let markers := (markers ++ [m])%list in
              match layer_fault agent with
              | Some e => (Throw e, markers)
              | None => add_markers r markers
              end
          end
      end
  end.

(** [renderMapMarkers()]: the markers are made anew; the result tells
    whether the map was then fitted to them. *)
Definition renderMapMarkers (filteredAgents : list value)
    : result bool * list marker :=
  match add_markers filteredAgents [] with
  | (Ok tt, markers) =>
      if (0 <? List.length markers)%nat && (List.length markers <? 100)%nat then
        match fit_fault (map agentData markers) with
        | Some e => (Throw e, markers)
        | None => (Ok true, markers)
        end
      else (Ok false, markers)
  | (Throw e, markers) => (Throw e, markers)
  end.

End WithMap.

(** A map library that takes every marker. *)
Definition willing_map : MapLibrary :=
  {| marker_fault := fun _ => None; layer_fault := fun _ => None;
     fit_fault := fun _ => None |}.

End LocatorViews.

Import LocatorViews.

(* ================================================================== *)
(** * [debounce] *)
(* ================================================================== *)

Module Debounce.
Section WithArgs.
Context {A : Type}.

(** The timers that are set and have neither fired nor been cleared,
    oldest first: the id [setTimeout] returned and what is to run. *)
Definition timers : Type := list (nat * A).

(** [clearTimeout(id)]; [undefined] and the id of a timer that is gone
    clear nothing. *)
Definition clearTimeout (id : option nat) (t : timers) : timers :=
  match id with
  | Some i => filter (fun timer => negb (fst timer =? i)%nat) t
  | None => t
  end.

(** What [debounce(func, wait)] closes over, with the timers of the
    page: the variable [timeout], the pending timers, each holding the
    arguments its [later] will pass, the id the next timer gets, and the
    arguments [func] has been called with so far. *)
Record debounced : Type := {
  timeout : option nat;
  pending : timers;
  next_id : nat;
  invoked : list A
}.

Definition fresh : debounced :=
  {| timeout := None; pending := []; next_id := 0; invoked := [] |}.

(** [executedFunction(...args)] *)
Definition executedFunction (args : A) (d : debounced) : debounced :=
  let t := clearTimeout (timeout d) (pending d) in
  {| timeout := Some (next_id d);
     pending := (t ++ [(next_id d, args)])%list;
     next_id := S (next_id d);
     invoked := invoked d |}.

(** The wait of the oldest pending timer is over: its [later] runs.
    All the timers have the same wait, so they come due in the order
    they were set. *)
Definition elapse (d : debounced) : debounced :=
  match pending d with
  | (id, args) :: rest =>
      {| timeout := timeout d;
         pending := clearTimeout (timeout d) rest;
         next_id := next_id d;
         invoked := (invoked d ++ [args])%list |}
  | [] => d
  end.

Inductive step : Type :=
| Call (args : A)
| Elapse.

Definition apply_step (e : step) (d : debounced) : debounced :=
  match e with
  | Call args => executedFunction args d
  | Elapse => elapse d
  end.

Fixpoint run_steps (steps : list step) (d : debounced) : debounced :=
  match steps with
  | [] => d
  | e :: rest => run_steps rest (apply_step e d)
  end.

(** At most one timer is pending, and it is the one [timeout] names. *)
Definition single (d : debounced) : Prop :=
  pending d = []
  \/ exists id args, pending d = [(id, args)] /\ timeout d = Some id.

End WithArgs.
Arguments timers : clear implicits.
Arguments debounced : clear implicits.
Arguments step : clear implicits.
End Debounce.
Import Debounce.

(* ================================================================== *)
(** * Vocabulary of the further properties *)
(* ================================================================== *)

Module Vocabulary.

(** ** Requests in flight *)

Section WithHost.
Context {host : Host} {display : Display}.

(** The event sends a request: it is a call of [loadAgents] that goes
    past the guard. *)
Definition sends (e : event) (s : state) : bool :=
  match e with
  | LoadCalled =>
      match fst (loadAgents_call s) with
      | Ok sent => sent
      | Throw _ => false
      end
  | _ => false
  end.

(** The requests awaiting their reply once [e] has happened, [n] of
    them being awaited before. *)
Definition awaited (e : event) (s : state) (n : nat) : nat :=
  match e with
  | LoadSettled _ => Nat.pred n
  | _ => if sends e s then S n else n
  end.

Fixpoint in_flight (events : list event) (s : state) (n : nat) : nat :=
  match events with
  | [] => n
  | e :: rest => in_flight rest (snd (handle e s)) (awaited e s n)
  end.

(** A reply arrives only for a request that awaits one. *)
Fixpoint feasible (events : list event) (s : state) (n : nat) : bool :=
  match events with
  | [] => true
  | e :: rest =>
      match e with LoadSettled _ => (0 <? n)%nat | _ => true end
      && feasible rest (snd (handle e s)) (awaited e s n)
  end.

End WithHost.

(** ** Option values and markers *)

(** The text does not hold the code unit 0. *)
Fixpoint nul_free (s : string) : bool :=
  match s with
  | String c r => negb (code c =? 0) && nul_free r
  | EmptyString => true
  end.

(** The part of a text before its first quotation mark. *)
Fixpoint before_quote (s : string) : string :=
  match s with
  | String c r =>
      if (c =? quotation_mark)%char then EmptyString
      else String c (before_quote r)
  | EmptyString => EmptyString
  end.

(** What is read back of a text written between quotation marks, its
    [&], [<], [>] and no-break spaces escaped: the part before its first
    quotation mark, newlines normalised, and nothing when that part
    holds the code unit 0. *)
Definition as_read (s : string) : option string :=
  if nul_free (before_quote s) then Some (normalize_newlines (before_quote s))
  else None.

(** The map is fitted to between 1 and 99 markers. *)
Definition fitted (n : nat) : bool := (0 <? n)%nat && (n <? 100)%nat.

(** ** What is listed *)

(** The listed agents are, up to their order, some of the stored ones. *)
Definition selection (s : state) : Prop :=
  exists keep, Permutation (filteredAgents s) (filter keep (agents s)).

(** What [filter] keeps when its callback does not raise. *)
Definition verdict {A : Type} (f : A -> result bool) (x : A) : bool :=
  match f x with
  | Ok b => b
  | Throw _ => false
  end.

(** ** Texts *)

Abbreviation units := list_ascii_of_string.

(** [w] is empty or starts with white space. *)
Definition stops (w : string) : Prop :=
  match w with
  | String c _ => is_whitespace c = true
  | EmptyString => True
  end.

Fixpoint all_whitespace (w : string) : bool :=
  match w with
  | String c r => is_whitespace c && all_whitespace r
  | EmptyString => true
  end.

(** A scan result, with [w] after what is left. *)
Definition followed_by (w : string) (r : option (number * string))
    : option (number * string) :=
  match r with
  | Some (x, rest) => Some (x, rest ++ w)
  | None => None
  end.

(** ** Printing and reading *)

(** The text [toFixed(f)] lays out for the integer [n] of hundredths,
    tenths, ... it has rounded to. *)
Definition fixed_text (f : nat) (n : Z) : string :=
  let m := decimal n in
  let m := if (length m <=? f)%nat then zeros (f + 1 - length m) ++ m else m in
  let k := length m in
  match f with
  | O => m
  | _ => substring 0 (k - f) m ++ "." ++ substring (k - f) f m
  end.

(** The search of [shortest_digits] for an integer [r], on integers. *)
Fixpoint shortest_int (fuel : nat) (k n r : Z) : option (Z * Z) :=
  match fuel with
  | O => None
  | S fuel' =>
      let e := n - k in
      let lo := r / 10 ^ e in
      let hi := lo + 1 in
      if (0 <=? e) && (hi * 10 ^ e <? 2 ^ 53) then
        if lo * 10 ^ e =? r then Some (lo, k)
        else if hi * 10 ^ e =? r then Some (hi, k)
        else shortest_int fuel' (k + 1) n r
      else None
  end.

(** [positive_to_string] for an integer, on integers. *)
Definition print_integer (r : Z) : option string :=
  let n0 := Z.of_nat (length (decimal r)) in
  match shortest_int 17 1 n0 r with
  | Some (c, k0) =>
      let all := decimal c in
      let n := n0 + (Z.of_nat (length all) - k0) in
      let d := strip_zeros all in
      let k := Z.of_nat (length d) in
      Some
        (if (k <=? n) && (n <=? 21) then d ++ zeros (Z.to_nat (n - k))
         else if (0 <? n) && (n <=? 21) then
           substring 0 (Z.to_nat n) d ++ "." ++ substring (Z.to_nat n) (Z.to_nat (k - n)) d
         else if (-6 <? n) && (n <=? 0) then "0." ++ zeros (Z.to_nat (- n)) ++ d
         else
           let e := n - 1 in
           let exponent := (if e <? 0 then "-" else "+") ++ decimal (Z.abs e) in
           match d with
           | String c0 EmptyString => String c0 ("e" ++ exponent)
           | String c0 r => String c0 ("." ++ r ++ "e" ++ exponent)
           | EmptyString => EmptyString
           end)
  | None => None
  end.

(** The number a run of digits denotes, continuing [acc]. *)
Fixpoint digits_value (s : string) (acc : Z) : Z :=
  match s with
  | String c r => digits_value r (acc * 10 + (code c - 48))
  | EmptyString => acc
  end.

(** [rest] is empty or starts with something that is not a digit. *)
Definition ends_digits (rest : string) : Prop :=
  match rest with
  | String c _ => digit_value 10 c = None
  | EmptyString => True
  end.

(** The text is made of digits and points. *)
Fixpoint digits_or_points (s : string) : bool :=
  match s with
  | String c r => (is_digit c || (c =? ".")%char) && digits_or_points r
  | EmptyString => true
  end.

(** ** Some more agents, controls and forms *)

Definition agent_of (id : Z) (name province : string) (msisdn : value) : value :=
  VObj [ ("id", VNum (of_Z id)); ("representative", VStr name);
         ("address", VStr "4 Main Street"); ("city", VStr "Gweru");
         ("province", VStr province); ("msisdn", msisdn);
         ("latitude", VNum (of_Z (-19))); ("longitude", VNum (of_Z 29)) ].

Definition dube : value := agent_of 11 "T Dube" "Midlands" (VStr "0771234567").
Definition moyo : value := agent_of 12 "S Moyo" "Midlands" (VNum (of_Z 771234568)).
Definition ncube : value := agent_of 13 "R Ncube" "Harare" (VStr "0771234569").

Definition region_midlands : controls :=
  {| agent_search := ""; region_filter := Some "Midlands"; area_filter := None;
     sort_filter := Some "name" |}.

Definition search_smith : controls :=
  {| agent_search := "Smith"; region_filter := None; area_filter := None;
     sort_filter := Some "name" |}.

(** The controls as [clearFilters] leaves them. *)
Definition cleared_controls : controls :=
  {| agent_search := ""; region_filter := Some ""; area_filter := Some "";
     sort_filter := Some "name" |}.

Definition search_for (text : string) : controls :=
  {| agent_search := text; region_filter := None; area_filter := None;
     sort_filter := Some "name" |}.

Definition form_with (amount : string) : form :=
  {| amount_field := amount; currency_field := Some "USD";
     transaction_type_field := Some "sendmoney" |}.

(** The units of a finite number. *)
Definition units_of (x : number) : Z :=
  match x with
  | Fin z => z
  | _ => 0
  end.

(** Some more responses. *)

Definition refused : value :=
  VObj [ ("success", VBool false);
         ("data", VObj [ ("message", VStr "Service under maintenance") ]) ].

Definition tariff_only : value :=
  VObj [ ("success", VBool true); ("totalTariff", VStr "1.50") ].

End Vocabulary.

Import Vocabulary.

(* ================================================================== *)
(** * Facts about the language layer *)
(* ================================================================== *)

Module JSFacts.

Arguments of_Z : simpl never.
Arguments of_decimal : simpl never.
Arguments round_ratio : simpl never.
Arguments parseFloat : simpl never.
Arguments StringToNumber : simpl never.
Arguments trim : simpl never.

Lemma gtb_not_leb x y : gtb x y = true -> leb x y = false.
Proof.
  unfold gtb, leb. intros H. rewrite H. now rewrite andb_false_r.
Qed.

Lemma leb_not_gtb x y : leb x y = true -> gtb x y = false.
Proof.
  unfold gtb, leb. intros H.
  apply andb_true_iff in H as [_ H]. now apply negb_true_iff in H.
Qed.

Lemma ltb_not_nan x y : ltb x y = true -> is_nan x = false /\ is_nan y = false.
Proof. destruct x, y; simpl; intros H; try discriminate; auto. Qed.

Lemma not_gtb_leb x y :
  is_nan x = false -> is_nan y = false -> gtb x y = false -> leb x y = true.
Proof. unfold gtb, leb. intros -> -> ->. reflexivity. Qed.

Lemma round_magnitude_not_nan n d : is_nan (round_magnitude n d) = false.
Proof.
  unfold round_magnitude.
  destruct (overflow_threshold <=? _); reflexivity.
Qed.

Lemma round_ratio_not_nan n d : is_nan (round_ratio n d) = false.
Proof.
  unfold round_ratio. pose proof (round_magnitude_not_nan n d) as H1.
  pose proof (round_magnitude_not_nan (- n) d) as H2.
  destruct (n <? 0); [| exact H1].
  destruct (round_magnitude (- n) d); simpl in *; congruence.
Qed.

Lemma of_decimal_not_nan m e : is_nan (of_decimal m e) = false.
Proof.
  unfold of_decimal. destruct (0 <=? e); apply round_ratio_not_nan.
Qed.

(** *** Trimming *)

Lemma trimStart_head s :
  match trimStart s with
  | String c _ => is_whitespace c = false
  | EmptyString => True
  end.
Proof.
  induction s as [| c r IH]; simpl; [exact I |].
  destruct (is_whitespace c) eqn:E; [exact IH | exact E].
Qed.

Lemma trimEnd_keeps_head c r :
  is_whitespace c = false -> exists r', trimEnd (String c r) = String c r'.
Proof.
  intros E. simpl. destruct (trimEnd r); rewrite ?E; eauto.
Qed.

Lemma trimStart_trim s : trimStart (trim s) = trim s.
Proof.
  unfold trim. pose proof (trimStart_head s) as H.
  destruct (trimStart s) as [| c r]; [reflexivity |].
  destruct (trimEnd_keeps_head c r H) as [r' ->]. simpl. now rewrite H.
Qed.

Lemma trimEnd_idem s : trimEnd (trimEnd s) = trimEnd s.
Proof.
  induction s as [| c r IH]; [reflexivity |]. cbn [trimEnd].
  destruct (trimEnd r) as [| c' r'] eqn:E.
  - destruct (is_whitespace c) eqn:W; cbn; rewrite ?W; reflexivity.
  - remember (String c' r') as u eqn:U. cbn [trimEnd]. rewrite IH.
    subst u. reflexivity.
Qed.

Lemma trim_idem s : trim (trim s) = trim s.
Proof.
  unfold trim at 1. rewrite trimStart_trim. unfold trim. apply trimEnd_idem.
Qed.

(** *** The two conversions of a string agree on being a number *)

Lemma scan_digits_zero_prefix c r :
  digit_value 10 c = None ->
  scan_digits 10 (String "0" (String c r)) 0 0 = (0, 1, String c r).
Proof. intros H. cbn. rewrite H. reflexivity. Qed.

Lemma radix_prefix_parseFloat t radix digits :
  radix_prefix t = Some (radix, digits) -> is_nan (parseFloat t) = false.
Proof.
  unfold radix_prefix. destruct t as [| c0 [| c1 r]]; try discriminate.
  destruct (c0 =? "0")%char eqn:E0; [| discriminate].
  apply Ascii.eqb_eq in E0. subst c0. intros H.
  assert (Hc : exists c, In c ["x"; "X"; "o"; "O"; "b"; "B"]%char /\ c1 = c).
  { destruct (c1 =? "x")%char eqn:E1;
      [apply Ascii.eqb_eq in E1; exists "x"%char; simpl; tauto |].
    destruct (c1 =? "X")%char eqn:E2;
      [apply Ascii.eqb_eq in E2; exists "X"%char; simpl; tauto |].
    destruct (c1 =? "o")%char eqn:E3;
      [apply Ascii.eqb_eq in E3; exists "o"%char; simpl; tauto |].
    destruct (c1 =? "O")%char eqn:E4;
      [apply Ascii.eqb_eq in E4; exists "O"%char; simpl; tauto |].
    destruct (c1 =? "b")%char eqn:E5;
      [apply Ascii.eqb_eq in E5; exists "b"%char; simpl; tauto |].
    destruct (c1 =? "B")%char eqn:E6;
      [apply Ascii.eqb_eq in E6; exists "B"%char; simpl; tauto |].
    discriminate. }
  destruct Hc as (c & Hin & ->).
  assert (Hd : digit_value 10 c = None).
  { simpl in Hin. decompose [or] Hin; subst; try reflexivity; contradiction. }
  assert (Hp : (c =? ".")%char = false).
  { simpl in Hin. decompose [or] Hin; subst; try reflexivity; contradiction. }
  assert (He : scan_exponent (String c r) = (0, String c r)).
  { simpl in Hin. decompose [or] Hin; subst; try reflexivity; contradiction. }
  unfold parseFloat.
  change (trimStart (String "0" (String c r))) with (String "0" (String c r)).
  unfold scan_decimal.
  change (scan_sign (String "0" (String c r)))
    with (false, String "0" (String c r)).
  cbv beta iota. unfold scan_unsigned.
  change (prefix "Infinity" (String "0" (String c r))) with false.
  cbv beta iota. rewrite (scan_digits_zero_prefix c r Hd).
  cbv beta iota. rewrite Hp, He. cbn. apply of_decimal_not_nan.
Qed.

Lemma StringToNumber_parseFloat (s : string) :
  is_empty (trim s) = false ->
  is_nan (StringToNumber (trim s)) = false ->
  is_nan (parseFloat (trim s)) = false.
Proof.
  intros Hne. unfold StringToNumber. rewrite trim_idem, Hne.
  destruct (radix_prefix (trim s)) as [[radix digits] |] eqn:R.
  - intros _. exact (radix_prefix_parseFloat _ _ _ R).
  - unfold parseFloat. rewrite trimStart_trim.
    destruct (scan_decimal (trim s)) as [[x rest] |]; [| discriminate].
    destruct rest; [auto | discriminate].
Qed.

(** *** Signs and order *)

Lemma round_half_even_lower a b : a / b <= round_half_even a b.
Proof.
  unfold round_half_even.
  destruct (2 * (a mod b) <? b); [lia |].
  destruct (b <? 2 * (a mod b)); [lia |].
  destruct (Z.even (a / b)); lia.
Qed.

Lemma sgn_round_magnitude z : 0 < z -> sgn (round_magnitude z 1) = 1.
Proof.
  intros Hz. unfold round_magnitude. rewrite Z.div_1_r, Z.mul_1_l.
  set (k := Z.max 0 (Z.log2 z - 52)).
  assert (Hk : 0 <= k) by lia.
  assert (Hp : 0 < 2 ^ k) by (apply Z.pow_pos_nonneg; lia).
  assert (Hle : 2 ^ k <= z).
  { destruct (Z.log2_spec z Hz) as [L _].
    pose proof (Z.log2_nonneg z).
    etransitivity; [| exact L]. apply Z.pow_le_mono_r; lia. }
  assert (Hq : 1 <= z / 2 ^ k).
  { apply Z.div_le_lower_bound; lia. }
  pose proof (round_half_even_lower z (2 ^ k)) as Hr.
  assert (Hpos : 0 < round_half_even z (2 ^ k) * 2 ^ k) by (apply Z.mul_pos_pos; lia).
  destruct (overflow_threshold <=? _); [reflexivity |].
  simpl. destruct (round_half_even z (2 ^ k) * 2 ^ k); try lia; reflexivity.
Qed.

Lemma sgn_negate x : sgn (negate x) = - sgn x.
Proof. destruct x; simpl; try reflexivity. apply Z.sgn_opp. Qed.

Lemma sgn_round_ratio z : sgn (round_ratio z 1) = Z.sgn z.
Proof.
  unfold round_ratio. destruct (z <? 0) eqn:E.
  - apply Z.ltb_lt in E. rewrite sgn_negate, sgn_round_magnitude by lia.
    destruct z; simpl; lia.
  - apply Z.ltb_ge in E. destruct (Z.eq_dec z 0) as [-> | N].
    + reflexivity.
    + rewrite sgn_round_magnitude by lia. destruct z; simpl; lia.
Qed.

Lemma sub_sign x y :
  is_nan x = false -> is_nan y = false -> (0 <? sgn (sub x y)) = ltb y x.
Proof.
  destruct x as [| | | a], y as [| | | b]; try discriminate; intros _ _;
    try reflexivity.
  unfold sub. cbn [negate add ltb]. rewrite sgn_round_ratio.
  destruct (Z.ltb_spec b a); destruct (Z.ltb_spec 0 (Z.sgn (a + - b))); lia.
Qed.

Lemma ltb_asym x y : ltb x y = true -> ltb y x = false.
Proof.
  destruct x, y; simpl; try reflexivity; try discriminate.
  intros H. apply Z.ltb_lt in H. apply Z.ltb_ge. lia.
Qed.

Lemma ltb_cotrans x y z :
  is_nan x = false -> is_nan y = false -> is_nan z = false ->
  ltb y x = false -> ltb z y = false -> ltb z x = false.
Proof.
  destruct x, y, z; simpl; try reflexivity; try discriminate; intros _ _ _ H1 H2.
  apply Z.ltb_ge in H1, H2. apply Z.ltb_ge. lia.
Qed.

(** *** The shape of [toFixed(2)] *)

Lemma digit_char_is_digit d : 0 <= d < 10 -> is_digit (digit_char d) = true.
Proof.
  intros H.
  assert (C : d = 0 \/ d = 1 \/ d = 2 \/ d = 3 \/ d = 4 \/ d = 5 \/ d = 6
              \/ d = 7 \/ d = 8 \/ d = 9) by lia.
  decompose [or] C; subst; reflexivity.
Qed.

Lemma decimal_digits_all fuel : forall n acc,
  all_digits acc = true -> all_digits (decimal_digits fuel n acc) = true.
Proof.
  induction fuel as [| fuel IH]; intros n acc H; simpl; [exact H |].
  assert (D : all_digits (String (digit_char (n mod 10)) acc) = true).
  { simpl. rewrite H, digit_char_is_digit; [reflexivity |].
    apply Z.mod_pos_bound. lia. }
  destruct (n <? 10); [exact D | now apply IH].
Qed.

Lemma decimal_digits_length fuel : forall n acc,
  (length acc <= length (decimal_digits fuel n acc))%nat.
Proof.
  induction fuel as [| fuel IH]; intros n acc; simpl; [lia |].
  destruct (n <? 10); simpl; [lia |].
  etransitivity; [| apply IH]. simpl. lia.
Qed.

Lemma decimal_nonempty n : (1 <= length (decimal n))%nat.
Proof.
  unfold decimal. simpl. destruct (n <? 10); simpl; [lia |].
  etransitivity; [| apply decimal_digits_length]. simpl. lia.
Qed.

Lemma decimal_all_digits n : all_digits (decimal n) = true.
Proof. unfold decimal. now apply decimal_digits_all. Qed.

Lemma all_digits_app a b :
  all_digits a = true -> all_digits b = true -> all_digits (a ++ b) = true.
Proof.
  induction a as [| c a IH]; simpl; intros Ha Hb; [exact Hb |].
  apply andb_true_iff in Ha as [-> Ha]. simpl. now apply IH.
Qed.

Lemma length_app (a b : string) : length (a ++ b) = (length a + length b)%nat.
Proof. induction a as [| c a IH]; simpl; [reflexivity | now rewrite IH]. Qed.

Lemma zeros_all_digits n : all_digits (zeros n) = true.
Proof. induction n; simpl; auto. Qed.

Lemma zeros_length n : length (zeros n) = n.
Proof. induction n; simpl; auto. Qed.

Lemma fixed2_split m :
  all_digits m = true -> (3 <= length m)%nat ->
  fixed2 (substring 0 (length m - 2) m ++ "." ++ substring (length m - 2) 2 m) = true.
Proof.
  induction m as [| c m IH]; intros Hd Hl; [simpl in Hl; lia |].
  cbn [all_digits] in Hd. apply andb_true_iff in Hd as [Hc Hd].
  cbn [length] in Hl |- *.
  destruct (Nat.eq_dec (length m) 2) as [E | E].
  - destruct m as [| a [| b [| x m]]]; simpl in E; try discriminate.
    simpl in Hd. apply andb_true_iff in Hd as [Ha Hd].
    apply andb_true_iff in Hd as [Hb _]. cbn.
    rewrite Hc, Ha, Hb. reflexivity.
  - assert (L : (3 <= length m)%nat) by lia.
    replace (S (length m) - 2)%nat with (S (length m - 2)) by lia.
    specialize (IH Hd L). cbn [append] in IH.
    cbn [substring append fixed2]. rewrite Hc. cbn [andb].
    rewrite IH. reflexivity.
Qed.

Lemma fixed2_two_decimals s : fixed2 s = true -> two_decimals s = true.
Proof.
  destruct s as [| c r]; [discriminate |]. intros H. unfold two_decimals.
  destruct (c =? "-")%char eqn:E; [| exact H].
  apply Ascii.eqb_eq in E. subst c. discriminate.
Qed.

Lemma toFixed2_plain x : plain x = true -> two_decimals (toFixed 2 x) = true.
Proof.
  destruct x as [| | | z]; try discriminate. unfold plain. intros H.
  unfold toFixed. rewrite Z.leb_antisym, H. cbn [negb].
  set (n := (2 * Z.abs z * 10 ^ Z.of_nat 2 + scale) / (2 * scale)).
  set (m := if (length (decimal n) <=? 2)%nat
            then zeros (2 + 1 - length (decimal n)) ++ decimal n else decimal n).
  assert (Hd : all_digits m = true).
  { subst m. destruct (length (decimal n) <=? 2)%nat;
      [apply all_digits_app; [apply zeros_all_digits |] |]; apply decimal_all_digits. }
  assert (Hl : (3 <= length m)%nat).
  { subst m. destruct (length (decimal n) <=? 2)%nat eqn:E.
    - apply Nat.leb_le in E. rewrite length_app, zeros_length.
      pose proof (decimal_nonempty n). lia.
    - apply Nat.leb_gt in E. lia. }
  pose proof (fixed2_split m Hd Hl) as F.
  destruct (z <? 0).
  - exact F.
  - apply fixed2_two_decimals. exact F.
Qed.
(** *** The digits of [decimal] *)

Lemma digit_value_digit_char d :
  0 <= d < 10 -> digit_value 10 (digit_char d) = Some d.
Proof.
  intros H.
  assert (C : d = 0 \/ d = 1 \/ d = 2 \/ d = 3 \/ d = 4 \/ d = 5 \/ d = 6
              \/ d = 7 \/ d = 8 \/ d = 9) by lia.
  decompose [or] C; subst; reflexivity.
Qed.

Lemma decimal_digits_step fuel n acc :
  decimal_digits (S fuel) n acc
  = if n <? 10 then String (digit_char (n mod 10)) acc
    else decimal_digits fuel (n / 10) (String (digit_char (n mod 10)) acc).
Proof. reflexivity. Qed.

Lemma scan_digits_decimal_digits fuel : forall n acc a c,
  0 <= n < 10 ^ Z.of_nat (S fuel) ->
  exists k, 0 < k /\
    scan_digits 10 (decimal_digits (S fuel) n acc) a c
    = scan_digits 10 acc (a * 10 ^ k + n) (c + k).
Proof.
  induction fuel as [| fuel IH]; intros n acc a c Hn.
  - exists 1. split; [lia |]. cbn [decimal_digits].
    assert (n < 10) by (change (10 ^ Z.of_nat 1) with 10 in Hn; lia).
    assert (E : n mod 10 = n) by (apply Z.mod_small; lia).
    destruct (n <? 10); cbn [scan_digits]; rewrite E, digit_value_digit_char by lia;
      f_equal; lia.
  - rewrite decimal_digits_step. destruct (Z.ltb_spec n 10) as [L | L].
    + exists 1. split; [lia |]. cbn [scan_digits].
      assert (E : n mod 10 = n) by (apply Z.mod_small; lia).
      rewrite E, digit_value_digit_char by lia. f_equal; lia.
    + assert (Hq : 0 <= n / 10 < 10 ^ Z.of_nat (S fuel)).
      { split; [apply Z.div_pos; lia |].
        apply Z.div_lt_upper_bound; [lia |].
        replace (Z.of_nat (S (S fuel))) with (Z.of_nat (S fuel) + 1) in Hn by lia.
        rewrite Z.pow_add_r, Z.pow_1_r in Hn by lia. lia. }
      destruct (IH (n / 10) (String (digit_char (n mod 10)) acc) a c Hq)
        as (k & Hk & E).
      exists (k + 1). split; [lia |]. rewrite E. cbn [scan_digits].
      rewrite digit_value_digit_char by (apply Z.mod_pos_bound; lia).
      f_equal; [| lia].
      rewrite Z.pow_add_r, Z.pow_1_r by lia.
      pose proof (Z.div_mod n 10). lia.
Qed.

(** The digits [decimal] prints are those of the number. *)
Lemma decimal_reads_back n :
  0 <= n -> exists k, scan_digits 10 (decimal n) 0 0 = (n, k, EmptyString).
Proof.
  intros Hn. unfold decimal.
  destruct (scan_digits_decimal_digits (Z.to_nat (Z.log2 n)) n EmptyString 0 0)
    as (k & _ & E).
  - split; [exact Hn |].
    rewrite Nat2Z.inj_succ, Z2Nat.id by apply Z.log2_nonneg.
    destruct (Z.eq_dec n 0) as [-> | N]; [reflexivity |].
    destruct (Z.log2_spec n) as [_ U]; [lia |].
    eapply Z.lt_le_trans; [exact U |].
    apply Z.pow_le_mono_l. pose proof (Z.log2_nonneg n). lia.
  - exists (0 + k). rewrite E. reflexivity.
Qed.

(** *** Sorting *)

Section SortFacts.
Context {A : Type}.
Variable comparefn : A -> A -> result number.
Variable c : A -> A -> number.
Variable P : A -> Prop.

Local Abbreviation after := (comes_after c).

Hypothesis after_asym : forall x y, P x -> P y -> after x y = true -> after y x = false.
Hypothesis not_after_trans :
  forall x y z, P x -> P y -> P z ->
    after x y = false -> after y z = false -> after x z = false.

Lemma insert_by_perm x l : Permutation (insert_by after x l) (x :: l).
Proof.
  induction l as [| y r IH]; simpl; [reflexivity |].
  destruct (after x y); [| reflexivity].
  rewrite IH. apply perm_swap.
Qed.

Lemma sort_by_perm l : Permutation (sort_by after l) l.
Proof.
  induction l as [| x r IH]; simpl; [reflexivity |].
  rewrite insert_by_perm. now constructor.
Qed.

Lemma sort_by_in l x : In x (sort_by after l) <-> In x l.
Proof.
  split; apply Permutation_in; [| symmetry]; apply sort_by_perm.
Qed.

Lemma sort_by_Forall (Q : A -> Prop) l : Forall Q l -> Forall Q (sort_by after l).
Proof.
  intros H. eapply Permutation_Forall; [symmetry; apply sort_by_perm | exact H].
Qed.

Lemma insert_pure x l :
  (forall y, In y l -> comparefn x y = Ok (c x y)) ->
  insert comparefn x l = Ok (insert_by after x l).
Proof.
  induction l as [| y r IH]; intros H; simpl; [reflexivity |].
  rewrite (H y) by (left; reflexivity). cbn [bind]. unfold comes_after.
  destruct (0 <? sgn (c x y)); [| reflexivity].
  rewrite IH by (intros; apply H; now right). reflexivity.
Qed.

Lemma sort_pure l :
  (forall x y, In x l -> In y l -> comparefn x y = Ok (c x y)) ->
  sort comparefn l = Ok (sort_by after l).
Proof.
  induction l as [| x r IH]; intros H; simpl; [reflexivity |].
  rewrite IH by (intros; apply H; now right). cbn [bind].
  apply insert_pure. intros y Hy. apply H; [now left |].
  right. now apply sort_by_in.
Qed.

Lemma insert_by_sorted x l :
  P x -> Forall P l ->
  StronglySorted (fun a b => after a b = false) l ->
  StronglySorted (fun a b => after a b = false) (insert_by after x l).
Proof.
  intros Px. induction l as [| y r IH]; intros HP HS; simpl.
  - repeat constructor.
  - inversion HP as [| ? ? Py Pr]; subst. inversion HS as [| ? ? Sr Fy]; subst.
    destruct (after x y) eqn:E.
    + constructor; [now apply IH |].
      eapply Permutation_Forall; [symmetry; apply insert_by_perm |].
      constructor; [now apply after_asym | exact Fy].
    + constructor; [exact HS |]. constructor; [exact E |].
      rewrite Forall_forall in *. intros z Hz.
      apply (not_after_trans x y z); auto.
Qed.

Lemma sort_by_sorted l :
  Forall P l -> StronglySorted (fun a b => after a b = false) (sort_by after l).
Proof.
  induction l as [| x r IH]; intros HP; simpl; [constructor |].
  inversion HP; subst. apply insert_by_sorted; auto. now apply sort_by_Forall.
Qed.

Lemma insert_by_stable z x l :
  P z -> P x -> Forall P l ->
  filter (tied c z) (insert_by after x l) = filter (tied c z) (x :: l).
Proof.
  intros Pz Px. induction l as [| y r IH]; intros HP; [reflexivity |].
  inversion HP as [| ? ? Py Pr]; subst. cbn [insert_by].
  destruct (after x y) eqn:E; [| reflexivity].
  cbn [filter]. rewrite (IH Pr). cbn [filter].
  destruct (tied c z y) eqn:Ty; destruct (tied c z x) eqn:Tx; try reflexivity.
  exfalso. unfold tied in Ty, Tx.
  apply andb_true_iff in Ty as [Ty1 Ty2], Tx as [Tx1 Tx2].
  apply negb_true_iff in Ty1, Ty2, Tx1, Tx2.
  pose proof (not_after_trans x z y Px Pz Py Tx2 Ty1). congruence.
Qed.

Lemma sort_by_stable z l :
  P z -> Forall P l ->
  filter (tied c z) (sort_by after l) = filter (tied c z) l.
Proof.
  intros Pz. induction l as [| x r IH]; intros HP; [reflexivity |].
  inversion HP; subst. cbn [sort_by].
  rewrite insert_by_stable; auto using sort_by_Forall.
  cbn [filter]. now rewrite IH.
Qed.

Lemma after_irrefl x : P x -> after x x = false.
Proof.
  intros Px. destruct (after x x) eqn:E; [| reflexivity].
  rewrite <- E at 1. now apply after_asym.
Qed.

Lemma head_not_after x r y :
  P x -> StronglySorted (fun a b => after a b = false) (x :: r) ->
  In y (x :: r) -> after x y = false.
Proof.
  intros Px HS [<- | Hy]; [now apply after_irrefl |].
  inversion HS as [| ? ? _ HF]; subst. rewrite Forall_forall in HF. now apply HF.
Qed.

(** A sorted, stable rearrangement is unique: whatever procedure an
    engine follows, it returns the list [sort_by] returns. *)
Lemma stable_sorted_unique : forall l1 l2,
  Forall P l1 ->
  Permutation l1 l2 ->
  StronglySorted (fun a b => after a b = false) l1 ->
  StronglySorted (fun a b => after a b = false) l2 ->
  (forall z, P z -> filter (tied c z) l1 = filter (tied c z) l2) ->
  l1 = l2.
Proof.
  induction l1 as [| x r1 IH]; intros l2 HP Hperm S1 S2 Hst.
  - apply Permutation_nil in Hperm. now subst.
  - destruct l2 as [| y r2];
      [apply Permutation_sym, Permutation_nil in Hperm; discriminate |].
    inversion HP as [| ? ? Px Pr1]; subst.
    assert (Py : P y).
    { rewrite Forall_forall in HP. apply HP.
      eapply Permutation_in; [apply Permutation_sym; exact Hperm | now left]. }
    assert (Hxy : after x y = false).
    { apply (head_not_after x r1 y Px S1).
      eapply Permutation_in; [apply Permutation_sym; exact Hperm | now left]. }
    assert (Hyx : after y x = false).
    { apply (head_not_after y r2 x Py S2).
      eapply Permutation_in; [exact Hperm | now left]. }
    assert (E : x = y).
    { assert (Txx : tied c x x = true)
        by (unfold tied; now rewrite (after_irrefl x Px)).
      assert (Txy : tied c x y = true) by (unfold tied; now rewrite Hxy, Hyx).
      pose proof (Hst x Px) as H. cbn [filter] in H. rewrite Txx, Txy in H.
      now inversion H. }
    subst y. f_equal. apply IH.
    + exact Pr1.
    + eapply Permutation_cons_inv; exact Hperm.
    + now inversion S1.
    + now inversion S2.
    + intros z Pz. specialize (Hst z Pz). cbn [filter] in Hst.
      destruct (tied c z x); [now inversion Hst | exact Hst].
Qed.

Lemma sort_by_unique l l' :
  Forall P l ->
  Permutation l' l ->
  StronglySorted (fun a b => after a b = false) l' ->
  (forall z, P z -> filter (tied c z) l' = filter (tied c z) l) ->
  l' = sort_by after l.
Proof.
  intros HP Hperm HS Hst. apply stable_sorted_unique.
  - eapply Permutation_Forall; [apply Permutation_sym; exact Hperm | exact HP].
  - rewrite Hperm. symmetry. apply sort_by_perm.
  - exact HS.
  - now apply sort_by_sorted.
  - intros z Pz. rewrite (Hst z Pz). symmetry.
    now apply sort_by_stable.
Qed.
End SortFacts.

End JSFacts.

Import JSFacts.

(* ================================================================== *)
(** * Properties of the calculator *)
(* ================================================================== *)

Module CalculatorSpec.

Section WithHost.
Context {host : Host}.

Lemma is_empty_false_of_neq (s : string) : s <> "" -> is_empty s = false.
Proof. destruct s; [congruence | reflexivity]. Qed.

(** C1 (as amended).  For USD and ZWG, a transaction type selected and
    an amount that passes basic validation, the submit-time check sends
    the request when the number [parseFloat] reads from the trimmed
    amount, the binary64 value nearest to what was typed, is at or below
    the ceiling (500, 8000) and, when that number is above, sends
    nothing and shows the ceiling message on the field and in the
    warning; 600 USD is rejected with "USD transactions cannot exceed
    $500".  The input/change handler of the amount and currency controls
    compares the number read from the amount with the same ceiling,
    whatever else the form holds: it flags the amount exactly when the
    currency is one of the two and the number is above its ceiling, and
    then shows the same message. *)
Theorem limit_check_at_submit_and_on_input
    (f : form) (p : page) (cur : string) (lim : Z) (msg ty : string) :
  In (cur, lim, msg) ceilings ->
  currency_field f = Some cur ->
  (transaction_type_field f = Some ty -> ty <> "" ->
   is_empty (trim (amount_field f)) = false ->
   is_nan (StringToNumber (trim (amount_field f))) = false ->
   gtb (parseFloat (trim (amount_field f))) zero = true ->
   (leb (parseFloat (trim (amount_field f))) (of_Z lim) = true ->
      requests (on_calculate_click f p)
        = (requests p ++ [request_for (trim (amount_field f)) cur ty])%list
      /\ field_errors (on_calculate_click f p) = []
      /\ limit_exceeded (on_calculate_click f p) = false)
   /\ (gtb (parseFloat (trim (amount_field f))) (of_Z lim) = true ->
      requests (on_calculate_click f p) = requests p
      /\ field_errors (on_calculate_click f p) = [("ecocash-amount", msg)]
      /\ warning_text (on_calculate_click f p) = msg
      /\ warning_visible (on_calculate_click f p) = true
      /\ limit_exceeded (on_calculate_click f p) = true))
  /\ (ty <> "" ->
      let p' := on_calculate_click
                  {| amount_field := "600"; currency_field := Some "USD";
                     transaction_type_field := Some ty |} p in
      requests p' = requests p
      /\ field_errors p' = [("ecocash-amount", "USD transactions cannot exceed $500")])
  /\ (let p' := on_amount_or_currency_change f p in
      limit_exceeded p' = gtb (parseFloat (amount_field f)) (of_Z lim)
      /\ warning_visible p' = gtb (parseFloat (amount_field f)) (of_Z lim)
      /\ (gtb (parseFloat (amount_field f)) (of_Z lim) = true -> warning_text p' = msg))
  /\ (forall g : form,
        limit_exceeded (on_amount_or_currency_change g p) = true <->
        exists cur' lim' msg',
          In (cur', lim', msg') ceilings
          /\ currency_field g = Some cur'
          /\ gtb (parseFloat (amount_field g)) (of_Z lim') = true).
Proof.
  intros Hin Hcur.
  assert (Hcases : (cur = "USD" /\ lim = 500 /\ msg = "USD transactions cannot exceed $500")
                \/ (cur = "ZWG" /\ lim = 8000 /\ msg = "ZWG transactions cannot exceed 8000")).
  { simpl in Hin. destruct Hin as [H | [H | []]]; inversion H; auto. }
  split; [| split; [| split]].
  - intros Hty Hne Hempty Hnum Hpos.
    pose proof (gtb_not_leb _ _ Hpos) as Hle0.
    pose proof (is_empty_false_of_neq ty Hne) as Hty0.
    split.
    + intros Hle. apply leb_not_gtb in Hle.
      unfold on_calculate_click. rewrite Hempty, Hnum, Hle0, Hcur, Hty.
      destruct Hcases as [(-> & -> & ->) | (-> & -> & ->)]; cbn; rewrite Hty0; cbn;
        rewrite Hle; cbn; auto.
    + intros Hgt.
      unfold on_calculate_click. rewrite Hempty, Hnum, Hle0, Hcur, Hty.
      destruct Hcases as [(-> & -> & ->) | (-> & -> & ->)]; cbn; rewrite Hty0; cbn;
        rewrite Hgt; cbn; auto.
  - intros Hne. pose proof (is_empty_false_of_neq ty Hne) as Hty0.
    assert (E1 : trim "600" = "600") by reflexivity.
    assert (E2 : is_nan (StringToNumber "600") = false) by (vm_compute; reflexivity).
    assert (E3 : leb (parseFloat "600") zero = false) by (vm_compute; reflexivity).
    assert (E4 : gtb (parseFloat "600") (of_Z 500) = true) by (vm_compute; reflexivity).
    cbv zeta.
    unfold on_calculate_click. cbn [amount_field currency_field transaction_type_field].
    rewrite E1, E2, E3. cbn. rewrite Hty0. cbn. rewrite E4. cbn. auto.
  - unfold on_amount_or_currency_change. rewrite Hcur.
    destruct (gtb (parseFloat (amount_field f)) (of_Z lim)) eqn:G.
    + destruct (ltb_not_nan _ _ G) as [_ N]. rewrite N.
      destruct Hcases as [(-> & -> & ->) | (-> & -> & ->)]; cbn; rewrite G; cbn; auto.
    + destruct (is_nan (parseFloat (amount_field f))); cbn;
        [repeat split; congruence |].
      destruct Hcases as [(-> & -> & ->) | (-> & -> & ->)]; cbn; rewrite G; cbn;
        repeat split; congruence.
  - intros g.
    assert (Sel : forall v k, selected_is v k = true -> v = Some k).
    { intros [x |] k Hs; [| discriminate Hs].
      apply String.eqb_eq in Hs. now subst. }
    unfold on_amount_or_currency_change. split.
    + destruct (is_nan (parseFloat (amount_field g))) eqn:N;
        [intros Hf; discriminate Hf |].
      destruct (selected_is (currency_field g) "USD"
                && gtb (parseFloat (amount_field g)) (of_Z 500)) eqn:A.
      { intros _. apply andb_true_iff in A as [A1 A2].
        exists "USD", 500, "USD transactions cannot exceed $500".
        split; [now left | split; [now apply Sel | exact A2]]. }
      destruct (selected_is (currency_field g) "ZWG"
                && gtb (parseFloat (amount_field g)) (of_Z 8000)) eqn:B.
      { intros _. apply andb_true_iff in B as [B1 B2].
        exists "ZWG", 8000, "ZWG transactions cannot exceed 8000".
        split; [right; now left | split; [now apply Sel | exact B2]]. }
      intros Hf. discriminate Hf.
    + intros (cur' & lim' & msg' & Hin' & Hc & G).
      destruct (ltb_not_nan _ _ G) as [_ N]. rewrite N, Hc.
      destruct Hin' as [H | [H | []]]; inversion H; subst lim' cur' msg'.
      * change (selected_is (Some "USD") "USD") with true. rewrite G. reflexivity.
      * change (selected_is (Some "ZWG") "USD") with false.
        change (selected_is (Some "ZWG") "ZWG") with true. rewrite G. reflexivity.
Qed.

(** C7.  A request goes out only when the amount is non-empty, converts to
    a number and parses to more than zero, and a currency and a
    transaction type are selected; when one of these fails nothing is
    sent and the field concerned shows its message. *)
Theorem request_only_after_validation (f : form) (p : page) :
  let amount := trim (amount_field f) in
  let p' := on_calculate_click f p in
  (requests p' <> requests p ->
     is_empty amount = false
     /\ is_nan (StringToNumber amount) = false
     /\ gtb (parseFloat amount) zero = true
     /\ unselected (currency_field f) = false
     /\ unselected (transaction_type_field f) = false)
  /\ (is_empty amount = true ->
      requests p' = requests p
      /\ In ("ecocash-amount", "Please enter an amount") (field_errors p'))
  /\ (is_empty amount = false -> is_nan (StringToNumber amount) = true ->
      requests p' = requests p
      /\ In ("ecocash-amount", "Amount must be a number") (field_errors p'))
  /\ (is_empty amount = false -> is_nan (StringToNumber amount) = false ->
      gtb (parseFloat amount) zero = false ->
      requests p' = requests p
      /\ In ("ecocash-amount", "Amount must be greater than zero") (field_errors p'))
  /\ (unselected (currency_field f) = true ->
      requests p' = requests p
      /\ In ("ecocash-currency", "Please select a currency") (field_errors p'))
  /\ (unselected (transaction_type_field f) = true ->
      requests p' = requests p
      /\ In ("ecocash-transaction-type", "Please select a transaction type")
            (field_errors p')).
Proof.
  cbv zeta.
  assert (Hpos : is_empty (trim (amount_field f)) = false ->
                 is_nan (StringToNumber (trim (amount_field f))) = false ->
                 leb (parseFloat (trim (amount_field f))) zero
                 = negb (gtb (parseFloat (trim (amount_field f))) zero)).
  { intros H1 H2. pose proof (StringToNumber_parseFloat _ H1 H2) as H3.
    destruct (gtb (parseFloat (trim (amount_field f))) zero) eqn:G.
    - now apply gtb_not_leb.
    - now apply not_gtb_leb. }
  unfold on_calculate_click.
  destruct (is_empty (trim (amount_field f))) eqn:E1;
    [| destruct (is_nan (StringToNumber (trim (amount_field f)))) eqn:E2;
       [| rewrite (Hpos eq_refl eq_refl);
          destruct (gtb (parseFloat (trim (amount_field f))) zero) eqn:E3 ]];
    destruct (unselected (currency_field f)) eqn:E4;
    destruct (unselected (transaction_type_field f)) eqn:E5;
    cbn;
    repeat match goal with
           | |- context [if ?b then _ else _] => destruct b
           | |- context [match ?o with Some _ => _ | None => _ end] => destruct o
           end;
    cbn; repeat split; intros; try congruence; try discriminate; auto;
    try (exfalso; congruence); cbn; tauto.
Qed.

(** C6 (as amended).  [convertTransactionType] returns ["SENDMONEY"] for
    the two types of its map, the inherited member for a type that names
    a member of [Object.prototype], and the upper-cased type for every
    other one; a request sent for the type ["sendmoney"] carries the code
    ["SENDMONEY"]. *)
Theorem convertTransactionType_cases (type : string) (f : form) (p : page) :
  (type = "sendmoney" \/ type = "SENDMONEY" ->
     convertTransactionType type = VStr "SENDMONEY")
  /\ (mem type object_prototype = true ->
      convertTransactionType type = VBuiltin type)
  /\ (type <> "sendmoney" -> type <> "SENDMONEY" ->
      mem type object_prototype = false ->
      convertTransactionType type = VStr (toUpperCase type))
  /\ (transaction_type_field f = Some "sendmoney" ->
      forall r, In r (requests (on_calculate_click f p)) ->
                In r (requests p) \/ transactionType r = VStr "SENDMONEY")
  /\ map transactionType (requests (on_calculate_click form_50_zwg blank_page))
     = [VStr "SENDMONEY"].
Proof.
  split; [| split; [| split; [| split]]].
  - intros [-> | ->]; reflexivity.
  - intros H. unfold convertTransactionType, prop, typeMap. cbn [assoc].
    destruct (type =? "sendmoney")%string eqn:E1;
      [apply String.eqb_eq in E1; subst; discriminate |].
    destruct (type =? "SENDMONEY")%string eqn:E2;
      [apply String.eqb_eq in E2; subst; discriminate |].
    rewrite H. reflexivity.
  - intros N1 N2 H. unfold convertTransactionType, prop, typeMap. cbn [assoc].
    apply String.eqb_neq in N1, N2. rewrite N1, N2, H. reflexivity.
  - intros Hty r. unfold on_calculate_click. rewrite Hty.
    repeat match goal with
           | |- context [if ?b then _ else _] => destruct b
           | |- context [match ?o with Some _ => _ | None => _ end] => destruct o
           end; cbn; auto;
      rewrite in_app_iff; intros [H | [<- | []]]; auto.
  - vm_compute. reflexivity.
Qed.

(** C10 (as amended).  A field the response leaves out (or leaves falsy)
    is replaced by its default: "0.00" for the service charge, the tax
    and the total tariff, the text of the amount input for the amount,
    and the sum of the parsed amount and tariff, printed with two
    decimals, for the total.  Each of the five figures is
    [parseFloat(x).toFixed(2)]; that text has exactly two decimals when
    the parsed number is finite and below [10^21], and is "NaN" when the
    text does not parse. *)
Theorem showSuccess_defaults_and_rendering
    (apiResponse : value) (currency amount_now : string) :
  let b := showSuccess apiResponse currency amount_now in
  let amount := or_else (prop apiResponse "amount") (VStr amount_now) in
  let serviceCharge := or_else (prop apiResponse "serviceCharge") (VStr "0.00") in
  let taxAmount := or_else (prop apiResponse "taxAmount") (VStr "0.00") in
  let totalTariff := or_else (prop apiResponse "totalTariff") (VStr "0.00") in
  let sum := add (parseFloatOf amount) (parseFloatOf totalTariff) in
  let totalAmount := or_else (prop apiResponse "totalAmount") (VStr (toFixed 2 sum)) in
  (truthy (prop apiResponse "serviceCharge") = false -> shown_serviceCharge b = "0.00")
  /\ (truthy (prop apiResponse "taxAmount") = false -> shown_taxAmount b = "0.00")
  /\ (truthy (prop apiResponse "totalTariff") = false -> shown_totalTariff b = "0.00")
  /\ (truthy (prop apiResponse "amount") = false ->
      shown_amount b = toFixed 2 (parseFloat amount_now))
  /\ (truthy (prop apiResponse "totalAmount") = false ->
      shown_totalAmount b = toFixed 2 (parseFloat (toFixed 2 sum)))
  /\ (shown_amount b = toFixed 2 (parseFloatOf amount)
      /\ shown_serviceCharge b = toFixed 2 (parseFloatOf serviceCharge)
      /\ shown_taxAmount b = toFixed 2 (parseFloatOf taxAmount)
      /\ shown_totalTariff b = toFixed 2 (parseFloatOf totalTariff)
      /\ shown_totalAmount b = toFixed 2 (parseFloatOf totalAmount))
  /\ (forall x, plain x = true -> two_decimals (toFixed 2 x) = true)
  /\ toFixed 2 NaN = "NaN".
Proof.
  cbv zeta.
  assert (Z : toFixed 2 (parseFloat "0.00") = "0.00") by (vm_compute; reflexivity).
  unfold showSuccess. cbn [shown_amount shown_serviceCharge shown_taxAmount
                           shown_totalTariff shown_totalAmount].
  repeat match goal with |- _ /\ _ => split end; try reflexivity.
  - intros H. unfold or_else. rewrite H. exact Z.
  - intros H. unfold or_else. rewrite H. exact Z.
  - intros H. unfold or_else. rewrite H. exact Z.
  - intros H. unfold or_else. rewrite H. reflexivity.
  - intros H. unfold or_else at 1. rewrite H. reflexivity.
  - apply toFixed2_plain.
Qed.

End WithHost.
End CalculatorSpec.

(* ================================================================== *)
(** * Facts about the locator's methods *)
(* ================================================================== *)

Module LocatorFacts.

Lemma filterM_incl {A : Type} (f : A -> result bool) l l' :
  filterM f l = Ok l' -> incl l' l.
Proof.
  revert l'. induction l as [| x r IH]; simpl; intros l' H.
  - inversion H. apply incl_refl.
  - destruct (f x) as [b |]; [| discriminate]. cbn [bind] in H.
    destruct (filterM f r) as [r' |]; [| discriminate]. cbn [bind] in H.
    inversion H; subst. specialize (IH r' eq_refl).
    destruct b; [apply incl_cons; [now left | now apply incl_tl] | now apply incl_tl].
Qed.

Lemma filterM_pure {A : Type} (f : A -> result bool) (g : A -> bool) l :
  (forall x, In x l -> f x = Ok (g x)) -> filterM f l = Ok (filter g l).
Proof.
  induction l as [| x r IH]; intros H; simpl; [reflexivity |].
  rewrite (H x) by now left. cbn [bind].
  rewrite IH by (intros; apply H; now right). cbn [bind].
  destruct (g x); reflexivity.
Qed.

Lemma insert_perm {A : Type} (cmp : A -> A -> result number) x l l' :
  insert cmp x l = Ok l' -> Permutation l' (x :: l).
Proof.
  revert l'. induction l as [| y r IH]; simpl; intros l' H.
  - inversion H. reflexivity.
  - destruct (cmp x y) as [v |]; [| discriminate]. cbn [bind] in H.
    destruct (0 <? sgn v).
    + destruct (insert cmp x r) as [r' |]; [| discriminate]. cbn [bind] in H.
      inversion H; subst. rewrite (IH r' eq_refl). apply perm_swap.
    + inversion H. reflexivity.
Qed.

Lemma sort_perm {A : Type} (cmp : A -> A -> result number) l l' :
  sort cmp l = Ok l' -> Permutation l' l.
Proof.
  revert l'. induction l as [| x r IH]; simpl; intros l' H.
  - inversion H. reflexivity.
  - destruct (sort cmp r) as [r' |]; [| discriminate]. cbn [bind] in H.
    rewrite (insert_perm _ _ _ _ H). constructor. now apply IH.
Qed.

Section WithHost.
Context {host : Host} {display : Display}.

(** *** What each method does to the two lists *)

Lemma processAgentsData_agents v s :
  agents (snd (processAgentsData v s)) = merged (agents s) v.
Proof.
  destruct v; try reflexivity.
  unfold processAgentsData, merged, mbind, read, modify, updateDisplay,
    populateFilters, throw, ret, showMessage. cbn.
  destruct (filter (valid_new_agent (agents s)) items) as [| a l] eqn:F; cbn.
  - now rewrite app_nil_r.
  - destruct (draw _); cbn; [reflexivity |].
    destruct (fill _); cbn; [reflexivity |].
    destruct (_ =? _)%nat; reflexivity.
Qed.

Lemma processAgentsData_filtered v s :
  let s' := snd (processAgentsData v s) in
  filteredAgents s' = agents s'
  \/ (filteredAgents s' = filteredAgents s /\ agents s' = agents s).
Proof.
  destruct v; try (right; split; reflexivity).
  unfold processAgentsData, mbind, read, modify, updateDisplay,
    populateFilters, throw, ret, showMessage. cbn.
  destruct (filter (valid_new_agent (agents s)) items) as [| a l] eqn:F; cbn.
  - right. split; reflexivity.
  - left. destruct (draw _); cbn; [reflexivity |].
    destruct (fill _); cbn; [reflexivity |].
    destruct (_ =? _)%nat; reflexivity.
Qed.

Lemma processAgentsData_isLoading v s :
  isLoading (snd (processAgentsData v s)) = isLoading s.
Proof.
  destruct v; try reflexivity.
  unfold processAgentsData, mbind, read, modify, updateDisplay,
    populateFilters, throw, ret, showMessage. cbn.
  destruct (filter (valid_new_agent (agents s)) items) as [| a l] eqn:F; cbn;
    [reflexivity |].
  destruct (draw _); cbn; [reflexivity |].
  destruct (fill _); cbn; [reflexivity |].
  destruct (_ =? _)%nat; reflexivity.
Qed.

(** [loadAgents] unfolded: it returns normally whatever happens. *)
Lemma loadAgents_resume_cases r s :
  loadAgents_resume r s =
  let failed e s' :=
    (Ok tt, set_isLoading false (add_toast (errorMessage e) "error" s')) in
  match r with
  | Rejected status responseJSON => failed (Rejection status responseJSON) s
  | Resolved response =>
      if nullish response then failed TypeError s
      else if truthy (prop response "success")
              && truthy (prop response "data")
              && truthy (prop (prop response "data") "agents")
      then
        match processAgentsData (prop (prop response "data") "agents") s with
        | (Ok _, s') => (Ok tt, set_isLoading false s')
        | (Throw e, s') => failed e s'
        end
      else
        failed (Error (or_else (get_opt (prop response "data") "message")
                               (VStr "Invalid response from server"))) s
  end.
Proof.
  unfold loadAgents_resume, try_catch_finally.
  destruct r as [response | status responseJSON]; cbn [await].
  - unfold mbind at 1, ret at 1, mbind at 1, lift, get.
    destruct (nullish response); [reflexivity |].
    destruct (truthy (prop response "success")
              && truthy (prop response "data")
              && truthy (prop (prop response "data") "agents")).
    + destruct (processAgentsData _ _) as [[[] | e] s']; reflexivity.
    + reflexivity.
  - reflexivity.
Qed.

Lemma loadAgents_cases r s :
  loadAgents r s =
  if isLoading s then (Ok tt, s) else loadAgents_resume r (set_isLoading true s).
Proof.
  unfold loadAgents, loadAgents_call, mbind, read, modify, ret.
  destruct (isLoading s); reflexivity.
Qed.

Lemma called_then_settled r s :
  isLoading s = false -> run [LoadCalled; LoadSettled r] s = snd (loadAgents r s).
Proof.
  intros L. rewrite loadAgents_cases, L. cbn [run handle].
  unfold loadAgents_call, mbind, read, modify, ret. rewrite L. reflexivity.
Qed.

Lemma sortAgents_cases sortBy s :
  sortAgents sortBy s =
  match sort (if selected_is sortBy "distance" then compare_distance else compare_name)
             (filteredAgents s) with
  | Ok sorted => (Ok tt, set_filteredAgents sorted s)
  | Throw e => (Throw e, s)
  end.
Proof.
  unfold sortAgents, mbind, read, lift, modify.
  destruct (sort _ _); reflexivity.
Qed.

Lemma applyCurrentFilters_cases c s :
  applyCurrentFilters c s =
  match filterM (keeps c) (agents s) with
  | Ok kept => sortAgents (sort_filter c) (set_filteredAgents kept s)
  | Throw e => (Throw e, s)
  end.
Proof.
  unfold applyCurrentFilters, mbind at 1, read, mbind at 1, lift.
  destruct (filterM (keeps c) (agents s)); reflexivity.
Qed.

Lemma updateDisplay_state s : snd (updateDisplay s) = s.
Proof.
  unfold updateDisplay, mbind, read, throw, ret. destruct (draw _); reflexivity.
Qed.

Lemma mbind_updateDisplay_state (c : M unit) s :
  snd ((c ;;; updateDisplay) s) = snd (c s).
Proof.
  unfold mbind. destruct (c s) as [[[] | e] s']; [apply updateDisplay_state | reflexivity].
Qed.

Lemma sortAgents_lists sortBy s :
  let s' := snd (sortAgents sortBy s) in
  agents s' = agents s /\ Permutation (filteredAgents s') (filteredAgents s).
Proof.
  rewrite sortAgents_cases. destruct (sort _ _) eqn:E; cbn; split; auto.
  eapply sort_perm; eauto.
Qed.

Lemma applyCurrentFilters_lists c s :
  let s' := snd (applyCurrentFilters c s) in
  agents s' = agents s
  /\ (incl (filteredAgents s') (agents s) \/ filteredAgents s' = filteredAgents s).
Proof.
  rewrite applyCurrentFilters_cases.
  destruct (filterM (keeps c) (agents s)) as [kept |] eqn:F; cbn; [| auto].
  destruct (sortAgents_lists (sort_filter c) (set_filteredAgents kept s)) as [H1 H2].
  split; [exact H1 |]. left. intros x Hx.
  apply (filterM_incl _ _ _ F). eapply Permutation_in; [exact H2 | exact Hx].
Qed.

Lemma performSearch_cases c s :
  performSearch c s =
  match (if is_empty (searchTerm_of c) then Ok (agents s)
         else filterM (fun agent => searchInAgent agent (searchTerm_of c)) (agents s)) with
  | Ok kept => (applyCurrentFilters c ;;; updateDisplay) (set_filteredAgents kept s)
  | Throw e => (Throw e, s)
  end.
Proof.
  unfold performSearch, mbind at 1, read, mbind at 1.
  destruct (is_empty (searchTerm_of c)); [reflexivity |].
  unfold mbind at 1, lift. destruct (filterM _ _); reflexivity.
Qed.

Lemma performSearch_lists c s :
  let s' := snd (performSearch c s) in
  agents s' = agents s
  /\ (incl (filteredAgents s') (agents s) \/ filteredAgents s' = filteredAgents s).
Proof.
  rewrite performSearch_cases.
  destruct (if is_empty (searchTerm_of c) then _ else _) as [kept |] eqn:F; [| cbn; auto].
  assert (K : incl kept (agents s)).
  { destruct (is_empty (searchTerm_of c)).
    - inversion F. apply incl_refl.
    - eapply filterM_incl; eauto. }
  cbv zeta. rewrite mbind_updateDisplay_state.
  destruct (applyCurrentFilters_lists c (set_filteredAgents kept s)) as [H1 [H2 | H2]];
    cbn in *; split; auto.
  left. now rewrite H2.
Qed.

Lemma applyFilters_lists c s :
  let s' := snd (applyFilters c s) in
  agents s' = agents s
  /\ (incl (filteredAgents s') (agents s) \/ filteredAgents s' = filteredAgents s).
Proof.
  unfold applyFilters. cbv zeta. rewrite mbind_updateDisplay_state.
  apply applyCurrentFilters_lists.
Qed.

Lemma clearFilters_lists s :
  let s' := snd (clearFilters s) in
  agents s' = agents s /\ filteredAgents s' = agents s.
Proof.
  unfold clearFilters, mbind, read, modify, updateDisplay, throw, ret, showMessage.
  cbn. destruct (draw _); cbn; auto.
Qed.

Lemma loadAgents_resume_lists r s :
  let s' := snd (loadAgents_resume r s) in
  (agents s' = agents s /\ filteredAgents s' = filteredAgents s)
  \/ (exists v, payload (LoadSettled r) = Some v
                /\ agents s' = merged (agents s) v
                /\ filteredAgents s' = agents s').
Proof.
  rewrite loadAgents_resume_cases.
  cbv zeta. destruct r as [response | status responseJSON]; [| cbn; auto].
  destruct (nullish response); [cbn; auto |].
  destruct (_ && _); [| cbn; auto].
  pose proof (processAgentsData_agents (prop (prop response "data") "agents") s) as HA.
  pose proof (processAgentsData_filtered (prop (prop response "data") "agents") s) as HF.
  destruct (processAgentsData _ _) as [[[] | e] s']; cbn in *;
    (destruct HF as [HF | [HF1 HF2]];
     [right; eexists; split; [reflexivity | split; auto] | left; auto]).
Qed.

Lemma loadAgents_call_lists s :
  let s' := snd ((loadAgents_call ;;; ret tt) s) in
  agents s' = agents s /\ filteredAgents s' = filteredAgents s.
Proof.
  unfold loadAgents_call, mbind, read, modify, ret.
  destruct (isLoading s); cbn; auto.
Qed.

(** Every handler leaves the accumulated list alone or merges the
    response of the event into it, and keeps the filtered agents among
    the accumulated ones. *)
Lemma handle_agents e s :
  agents (snd (handle e s)) = agents s
  \/ exists v, payload e = Some v /\ agents (snd (handle e s)) = merged (agents s) v.
Proof.
  destruct e as [| r | v | c | c |]; cbn [handle].
  - left. apply loadAgents_call_lists.
  - destruct (loadAgents_resume_lists r s) as [[H _] | (v & H1 & H2 & _)]; eauto.
  - right. exists v. split; [reflexivity | apply processAgentsData_agents].
  - left. apply performSearch_lists.
  - left. apply applyFilters_lists.
  - left. apply clearFilters_lists.
Qed.

Lemma merged_incl existing v : incl existing (merged existing v).
Proof.
  destruct v; try apply incl_refl. cbn. apply incl_appl, incl_refl.
Qed.

Lemma handle_filtered e s :
  incl (filteredAgents s) (agents s) ->
  incl (filteredAgents (snd (handle e s))) (agents (snd (handle e s))).
Proof.
  intros H. destruct e as [| r | v | c | c |]; cbn [handle].
  - destruct (loadAgents_call_lists s) as [H1 H2]. now rewrite H1, H2.
  - destruct (loadAgents_resume_lists r s) as [[H1 H2] | (v & _ & _ & H2)].
    + now rewrite H1, H2.
    + rewrite H2. apply incl_refl.
  - destruct (processAgentsData_filtered v s) as [H1 | [H1 H2]].
    + rewrite H1. apply incl_refl.
    + now rewrite H1, H2.
  - destruct (performSearch_lists c s) as [H1 [H2 | H2]]; rewrite H1; auto.
    now rewrite H2.
  - destruct (applyFilters_lists c s) as [H1 [H2 | H2]]; rewrite H1; auto.
    now rewrite H2.
  - destruct (clearFilters_lists s) as [H1 H2]. rewrite H1, H2. apply incl_refl.
Qed.

(** *** Validity and distinctness of what a merge adds *)

Lemma valid_new_agent_required existing a :
  valid_new_agent existing a = true -> has_required_fields a = true.
Proof.
  unfold valid_new_agent, has_required_fields. intros H.
  apply andb_true_iff in H as [H _]. exact H.
Qed.

Lemma valid_new_agent_fresh existing a :
  valid_new_agent existing a = true ->
  existsb (fun e => same_id e a) existing = false.
Proof.
  unfold valid_new_agent. intros H.
  apply andb_true_iff in H as [_ H]. now apply negb_true_iff in H.
Qed.

Lemma has_required_has_id a : has_required_fields a = true -> has_id a = true.
Proof.
  unfold has_required_fields, has_id. intros H.
  repeat (apply andb_true_iff in H as [H ?]). assumption.
Qed.

Lemma merged_required existing v :
  Forall (fun a => has_required_fields a = true) existing ->
  Forall (fun a => has_required_fields a = true) (merged existing v).
Proof.
  intros H. destruct v; try exact H. cbn. apply Forall_app. split; [exact H |].
  apply Forall_forall. intros a Ha. apply filter_In in Ha as [_ Ha].
  eapply valid_new_agent_required; eauto.
Qed.

Lemma existsb_same_id_filter f a l :
  existsb (same_id a) l = false -> existsb (same_id a) (filter f l) = false.
Proof.
  induction l as [| b r IH]; simpl; [auto |]. intros H.
  apply orb_false_iff in H as [H1 H2].
  destruct (f b); simpl; [rewrite H1 |]; auto.
Qed.

Lemma distinct_ids_filter f l :
  distinct_ids l = true -> distinct_ids (filter f l) = true.
Proof.
  induction l as [| a r IH]; simpl; [auto |]. intros H.
  apply andb_true_iff in H as [H1 H2]. apply negb_true_iff in H1.
  destruct (f a); simpl; [| auto].
  rewrite existsb_same_id_filter, IH; auto.
Qed.

Lemma distinct_ids_app l m :
  distinct_ids l = true -> distinct_ids m = true ->
  (forall a b, In a l -> In b m -> same_id a b = false) ->
  distinct_ids (l ++ m) = true.
Proof.
  induction l as [| x r IH]; simpl; intros Hl Hm H; [exact Hm |].
  apply andb_true_iff in Hl as [H1 H2]. apply negb_true_iff in H1.
  rewrite IH; auto. rewrite andb_true_r. apply negb_true_iff.
  rewrite existsb_app, H1. simpl.
  destruct (existsb (same_id x) m) eqn:E; [| reflexivity].
  apply existsb_exists in E as (b & Hb & E). rewrite H in E; auto.
Qed.

Lemma filter_filter_implies {A : Type} (f g : A -> bool) l :
  (forall x, f x = true -> g x = true) -> filter f (filter g l) = filter f l.
Proof.
  intros H. induction l as [| x r IH]; simpl; [reflexivity |].
  destruct (g x) eqn:G; simpl.
  - destruct (f x); now rewrite IH.
  - destruct (f x) eqn:F; [apply H in F; congruence | exact IH].
Qed.

Lemma merged_distinct existing v :
  distinct_ids existing = true ->
  (forall items, v = VArr items -> distinct_ids (filter has_id items) = true) ->
  distinct_ids (merged existing v) = true.
Proof.
  intros He Hv. destruct v; try exact He. cbn.
  specialize (Hv items eq_refl). apply distinct_ids_app; auto.
  - rewrite <- (filter_filter_implies (valid_new_agent existing) has_id).
    + now apply distinct_ids_filter.
    + intros x Hx. apply has_required_has_id. eapply valid_new_agent_required; eauto.
  - intros a b Ha Hb. apply filter_In in Hb as [_ Hb].
    apply valid_new_agent_fresh in Hb.
    destruct (same_id a b) eqn:E; [| reflexivity].
    assert (X : existsb (fun e => same_id e b) existing = true)
      by (apply existsb_exists; eauto).
    congruence.
Qed.


(** A fault raised while the newly merged agents are rendered is caught
    and reported like a failed load, after the lists have been
    updated. *)
Lemma rendering_fault_after_merge response items e s :
  well_formed response = true ->
  prop (prop response "data") "agents" = VArr items ->
  filter (valid_new_agent (agents s)) items <> [] ->
  draw (agents s ++ filter (valid_new_agent (agents s)) items)%list = Some e ->
  let s' := snd (loadAgents_resume (Resolved response) s) in
  fst (loadAgents_resume (Resolved response) s) = Ok tt
  /\ agents s' = (agents s ++ filter (valid_new_agent (agents s)) items)%list
  /\ filteredAgents s' = agents s'
  /\ toasts s' = (toasts s ++ [(errorMessage e, "error")])%list.
Proof.
  unfold well_formed. intros W Hp Hne Hd. cbv zeta.
  rewrite loadAgents_resume_cases. cbv zeta.
  destruct (nullish response); [discriminate |]. cbn [negb andb] in W.
  rewrite W, Hp.
  unfold processAgentsData, mbind, read, modify, updateDisplay, throw. cbn.
  destruct (filter (valid_new_agent (agents s)) items) as [| a l] eqn:F;
    [congruence |].
  cbn. rewrite Hd. cbn. auto.
Qed.


(** *** Searching and sorting as pure functions *)

Lemma some_pure {A : Type} (f : A -> result bool) (g : A -> bool) l :
  (forall x, In x l -> f x = Ok (g x)) -> some f l = Ok (existsb g l).
Proof.
  induction l as [| x r IH]; intros H; simpl; [reflexivity |].
  rewrite (H x) by now left. cbn [bind].
  destruct (g x); [reflexivity |]. apply IH. intros; apply H; now right.
Qed.

Lemma field_matches_pure term field :
  text_or_absent field = true ->
  field_matches term field = Ok (field_contains term field).
Proof.
  unfold field_matches, field_contains.
  destruct field; cbn; try (intros H; apply negb_true_iff in H; rewrite ?H; reflexivity);
    try reflexivity; try discriminate.
  intros _. destruct (is_empty s); reflexivity.
Qed.

Lemma searchInAgent_pure agent term :
  searchable agent = true -> searchInAgent agent term = Ok (matches term agent).
Proof.
  unfold searchable, searchInAgent, matches. intros H.
  apply some_pure. intros field Hf. apply field_matches_pure.
  rewrite forallb_forall in H. now apply H.
Qed.

(** The three ways a search of one agent can end. *)
Lemma some_outcomes term fields :
  (some (field_matches term) fields = Ok true
   /\ existsb (field_contains term) fields = true)
  \/ (some (field_matches term) fields = Ok false
      /\ existsb (field_contains term) fields = false
      /\ forallb text_or_absent fields = true)
  \/ (some (field_matches term) fields = Throw TypeError
      /\ forallb text_or_absent fields = false).
Proof.
  induction fields as [| field r IH]; cbn [some existsb forallb]; [auto |].
  destruct (text_or_absent field) eqn:F.
  - rewrite (field_matches_pure term field F). cbn [bind andb].
    destruct (field_contains term field); cbn [orb]; [auto | exact IH].
  - right. right. split; [| reflexivity].
    assert (Tr : truthy field = true).
    { unfold text_or_absent in F. destruct field; try discriminate;
        now apply negb_false_iff in F. }
    unfold field_matches. rewrite Tr.
    destruct field; try reflexivity. discriminate F.
Qed.

Lemma search_outcomes agent term :
  (searchInAgent agent term = Ok true /\ matches term agent = true)
  \/ (searchInAgent agent term = Ok false
      /\ matches term agent = false /\ searchable agent = true)
  \/ (searchInAgent agent term = Throw TypeError /\ searchable agent = false).
Proof. apply some_outcomes. Qed.

(** Nothing to search for and nothing selected: the filter keeps all. *)
Lemma blank_filter_keeps_all c l :
  searchTerm_of c = "" ->
  unselected (region_filter c) = true ->
  unselected (area_filter c) = true ->
  filterM (keeps c) l = Ok l.
Proof.
  intros Hterm Hregion Harea.
  rewrite (filterM_pure (keeps c) (fun _ => true)).
  - f_equal. induction l as [| a r IH]; cbn; [reflexivity | now rewrite IH].
  - intros x _. unfold keeps. cbv zeta. rewrite Hterm, Hregion, Harea. reflexivity.
Qed.

(** With no two names that are texts, sorting by name raises at its
    first comparison. *)
Lemma sort_without_names : forall l,
  Forall (fun a => has_name a = false) l ->
  (2 <= List.length l)%nat ->
  sort compare_name l = Throw TypeError.
Proof.
  assert (C : forall a b, has_name a = false -> compare_name a b = Throw TypeError).
  { intros a b H. unfold compare_name. unfold has_name in H.
    destruct (prop a "representative"); try reflexivity. discriminate. }
  induction l as [| x r IH]; intros H L; [cbn in L; lia |].
  inversion H as [| ? ? Hx Hr]; subst.
  destruct r as [| y r']; [cbn in L; lia |].
  destruct r' as [| z r''].
  - cbn. now rewrite C.
  - cbn [sort] in *. rewrite IH; [reflexivity | exact Hr | cbn; lia].
Qed.

Lemma keeps_pure c agent :
  searchable agent = true -> keeps c agent = Ok (kept_by c agent).
Proof.
  intros H. unfold keeps, kept_by, option_matches. cbv zeta.
  destruct (is_empty (searchTerm_of c)); [reflexivity |].
  rewrite (searchInAgent_pure _ _ H). reflexivity.
Qed.

Lemma compare_name_pure a b :
  has_name a = true -> compare_name a b = Ok (name_order a b).
Proof.
  unfold has_name, compare_name, name_order.
  destruct (prop a "representative"); try discriminate. reflexivity.
Qed.

Lemma sortAgents_pure sortBy s :
  (selected_is sortBy "distance" = false ->
   Forall (fun a => has_name a = true) (filteredAgents s)) ->
  sortAgents sortBy s
  = (Ok tt, set_filteredAgents
              (sort_by (comes_after (order_of sortBy)) (filteredAgents s)) s).
Proof.
  intros H. rewrite sortAgents_cases. unfold order_of.
  destruct (selected_is sortBy "distance").
  - rewrite (sort_pure compare_distance distance_order); [reflexivity |].
    reflexivity.
  - rewrite (sort_pure compare_name name_order); [reflexivity |].
    intros x y Hx _. apply compare_name_pure.
    specialize (H eq_refl). rewrite Forall_forall in H. now apply H.
Qed.

Lemma applyCurrentFilters_pure c s :
  Forall (fun a => searchable a = true /\ has_name a = true) (agents s) ->
  snd (applyCurrentFilters c s)
  = set_filteredAgents
      (sort_by (comes_after (order_of (sort_filter c)))
               (filter (kept_by c) (agents s))) s.
Proof.
  intros H. rewrite Forall_forall in H. rewrite applyCurrentFilters_cases.
  rewrite (filterM_pure (keeps c) (kept_by c))
    by (intros x Hx; apply keeps_pure; now apply H).
  rewrite sortAgents_pure; [reflexivity |].
  intros _. apply Forall_forall. intros x Hx. cbn in Hx.
  apply filter_In in Hx as [Hx _]. now apply H.
Qed.

Lemma performSearch_pure c s :
  Forall (fun a => searchable a = true /\ has_name a = true) (agents s) ->
  snd (performSearch c s)
  = set_filteredAgents
      (sort_by (comes_after (order_of (sort_filter c)))
               (filter (kept_by c) (agents s))) s.
Proof.
  intros H. rewrite performSearch_cases.
  assert (E : exists kept,
             (if is_empty (searchTerm_of c) then Ok (agents s)
              else filterM (fun agent => searchInAgent agent (searchTerm_of c))
                           (agents s)) = Ok kept).
  { destruct (is_empty (searchTerm_of c)); [eauto |].
    eexists. apply (filterM_pure _ (matches (searchTerm_of c))).
    intros x Hx. apply searchInAgent_pure. rewrite Forall_forall in H. now apply H. }
  destruct E as [kept ->]. rewrite mbind_updateDisplay_state.
  rewrite applyCurrentFilters_pure by exact H. reflexivity.
Qed.

Lemma matches_iff term agent :
  matches term agent = true <->
  exists field text,
    In field (searchFields agent) /\ field = VStr text /\ text <> ""
    /\ includes (toLowerCase text) term = true.
Proof.
  unfold matches. rewrite existsb_exists. split.
  - intros (field & Hin & H). destruct field; try discriminate.
    cbn in H. apply andb_true_iff in H as [H1 H2].
    exists (VStr s), s. repeat split; auto. intros ->. discriminate.
  - intros (field & text & Hin & -> & Hne & H). exists (VStr text). split; [exact Hin |].
    cbn. rewrite H. destruct text; [congruence | reflexivity].
Qed.


Lemma comes_after_distance a b :
  is_nan (distance_key a) = false -> is_nan (distance_key b) = false ->
  comes_after distance_order a b = ltb (distance_key b) (distance_key a).
Proof. intros Ha Hb. unfold comes_after, distance_order. now apply sub_sign. Qed.

Lemma unknown_distance_key u :
  unknown_distance u = true -> distance_key u = of_Z 999999.
Proof.
  unfold unknown_distance, distance_key, or_else. intros H.
  apply negb_true_iff in H. now rewrite H.
Qed.

Lemma StronglySorted_weaken {A : Type} (R R' : A -> A -> Prop) (P : A -> Prop) l :
  (forall a b, P a -> P b -> R a b -> R' a b) ->
  Forall P l -> StronglySorted R l -> StronglySorted R' l.
Proof.
  intros H HP HS. induction HS as [| a l HS IH HF]; [constructor |].
  inversion HP as [| ? ? Pa Pl]; subst. constructor; [now apply IH |].
  rewrite Forall_forall in *. intros b Hb. apply H; auto.
Qed.

Lemma StronglySorted_after {A : Type} (R : A -> A -> Prop) l1 x l2 :
  StronglySorted R (l1 ++ x :: l2) -> Forall (R x) l2.
Proof.
  induction l1 as [| y l1 IH]; cbn; intros H; inversion H; subst; auto.
Qed.

End WithHost.

(** *** The order of code units is a consistent comparator. *)

Lemma ascii_compare_trans a b c :
  Ascii.compare a b <> Gt -> Ascii.compare b c <> Gt -> Ascii.compare a c <> Gt.
Proof.
  unfold Ascii.compare. rewrite !N.compare_le_iff. apply N.le_trans.
Qed.

Lemma string_compare_trans : forall s t u,
  String.compare s t <> Gt -> String.compare t u <> Gt -> String.compare s u <> Gt.
Proof.
  induction s as [| a s IH]; intros [| b t] [| c u]; cbn; try congruence.
  destruct (Ascii.compare a b) eqn:E1; try congruence.
  - apply Ascii.compare_eq_iff in E1. subst b.
    destruct (Ascii.compare a c) eqn:E2; try congruence. apply IH.
  - destruct (Ascii.compare b c) eqn:E2; try congruence.
    + apply Ascii.compare_eq_iff in E2. subst c. rewrite E1. congruence.
    + intros _ _. assert (X : Ascii.compare a c <> Gt)
        by (apply (ascii_compare_trans a b c); congruence).
      destruct (Ascii.compare a c) eqn:E3; try congruence.
      apply Ascii.compare_eq_iff in E3. subst c.
      rewrite Ascii.compare_antisym, E1 in E2. discriminate.
Qed.

Lemma comes_after_code_units s t :
  comes_after code_unit_compare s t
  = match String.compare s t with Gt => true | _ => false end.
Proof.
  unfold comes_after, code_unit_compare.
  destruct (String.compare s t); vm_compute; reflexivity.
Qed.

Lemma compare_keys_antisym : forall k1 k2,
  compare_keys k1 k2 = CompOpp (compare_keys k2 k1).
Proof.
  induction k1 as [| w1 r1 IH]; intros [| w2 r2]; cbn; try reflexivity.
  rewrite (Z.compare_antisym w1 w2).
  destruct (w1 ?= w2); cbn; [apply IH | reflexivity | reflexivity].
Qed.

Lemma compare_keys_trans : forall k1 k2 k3,
  compare_keys k1 k2 <> Gt -> compare_keys k2 k3 <> Gt -> compare_keys k1 k3 <> Gt.
Proof.
  induction k1 as [| w1 r1 IH]; intros [| w2 r2] [| w3 r3]; cbn; try congruence.
  destruct (w1 ?= w2) eqn:E1; try congruence.
  - apply Z.compare_eq_iff in E1. subst w2.
    destruct (w1 ?= w3); try congruence. apply IH.
  - destruct (w2 ?= w3) eqn:E2; try congruence.
    + apply Z.compare_eq_iff in E2. subst w3. rewrite E1. congruence.
    + intros _ _. rewrite Z.compare_lt_iff in E1, E2.
      replace (w1 ?= w3) with Lt; [congruence |].
      symmetry. apply Z.compare_lt_iff. lia.
Qed.

Lemma comes_after_collate s t :
  comes_after collate s t
  = match compare_keys (sort_key s) (sort_key t) with Gt => true | _ => false end.
Proof.
  unfold comes_after, collate.
  destruct (compare_keys (sort_key s) (sort_key t)); vm_compute; reflexivity.
Qed.

Lemma ascii_collation_consistent : @consistent_collation ascii_host.
Proof.
  split; cbn [localeCompare ascii_host].
  - intros s t. rewrite !comes_after_collate,
      (compare_keys_antisym (sort_key t) (sort_key s)).
    destruct (compare_keys (sort_key s) (sort_key t)); cbn; congruence.
  - intros s t u. rewrite !comes_after_collate.
    pose proof (compare_keys_trans (sort_key s) (sort_key t) (sort_key u)) as H.
    destruct (compare_keys (sort_key s) (sort_key t)),
             (compare_keys (sort_key t) (sort_key u)),
             (compare_keys (sort_key s) (sort_key u));
      try congruence; intros; exfalso; apply H; congruence.
Qed.

End LocatorFacts.

Import LocatorFacts.

(* ================================================================== *)
(** * Properties of the locator *)
(* ================================================================== *)

Module LocatorSpec.
Section WithHost.
Context {host : Host} {display : Display}.

Lemma run_distinct events : forall s,
  distinct_ids (agents s) = true ->
  Forall batch_ids_distinct events ->
  distinct_ids (agents (run events s)) = true.
Proof.
  induction events as [| e rest IH]; intros s Hs Hb; [exact Hs |].
  inversion Hb as [| ? ? He Hrest]; subst. cbn [run]. apply IH; [| exact Hrest].
  destruct (handle_agents e s) as [-> | (v & Hp & ->)]; [exact Hs |].
  apply merged_distinct; [exact Hs |]. intros items ->. now apply He.
Qed.

Lemma run_required events : forall s,
  Forall (fun a => has_required_fields a = true) (agents s) ->
  incl (filteredAgents s) (agents s) ->
  Forall (fun a => has_required_fields a = true) (agents (run events s))
  /\ incl (filteredAgents (run events s)) (agents (run events s)).
Proof.
  induction events as [| e rest IH]; intros s Hs Hf; [auto |].
  cbn [run]. apply IH; [| now apply handle_filtered].
  destruct (handle_agents e s) as [-> | (v & _ & ->)]; [exact Hs |].
  now apply merged_required.
Qed.

(** C2 (as amended).  An incoming entry whose id is strictly equal to the
    id of an agent already in the accumulated list is never added; so,
    as long as no single response carries two entries with the same id,
    the accumulated list holds no two entries with equal id, whatever
    the sequence of loads and other events. *)
Theorem ids_distinct_across_loads (events : list event) (s : state)
    (newAgents : value) :
  Forall batch_ids_distinct events ->
  distinct_ids (agents (run events initial_state)) = true
  /\ (exists added,
        agents (snd (processAgentsData newAgents s)) = (agents s ++ added)%list
        /\ forall a, In a added ->
                     existsb (fun existingAgent => same_id existingAgent a)
                             (agents s) = false).
Proof.
  intros Hb. split.
  - now apply run_distinct.
  - rewrite processAgentsData_agents. destruct newAgents;
      try (exists []; split; [now rewrite app_nil_r | intros ? []]).
    cbn. eexists. split; [reflexivity |].
    intros a Ha. apply filter_In in Ha as [_ Ha].
    now apply valid_new_agent_fresh.
Qed.

(** C9.  After any sequence of loads, searches and filter changes from
    the initial state, every agent in the accumulated list and in the
    filtered list has a truthy id, representative, latitude and
    longitude: [processAgentsData] appends exactly the incoming entries
    that pass its test, and an entry that is [null], or lacks one of the
    four fields, or has the number 0 as a coordinate, does not pass. *)
Theorem stored_agents_have_required_fields
    (events : list event) (s : state) (items : list value) :
  let final := run events initial_state in
  Forall (fun a => has_required_fields a = true) (agents final)
  /\ Forall (fun a => has_required_fields a = true) (filteredAgents final)
  /\ agents (snd (processAgentsData (VArr items) s))
     = (agents s ++ filter (valid_new_agent (agents s)) items)%list
  /\ (forall entry, has_required_fields entry = false ->
                    valid_new_agent (agents s) entry = false)
  /\ (forall entry,
        entry = VNull
        \/ prop entry "id" = VUndefined
        \/ prop entry "representative" = VUndefined
        \/ prop entry "latitude" = VUndefined
        \/ prop entry "longitude" = VUndefined
        \/ prop entry "latitude" = VNum zero
        \/ prop entry "longitude" = VNum zero ->
        has_required_fields entry = false).
Proof.
  cbv zeta.
  destruct (run_required events initial_state) as [H1 H2];
    [constructor | apply incl_refl |].
  repeat match goal with |- _ /\ _ => split end.
  - exact H1.
  - rewrite Forall_forall in *. auto.
  - apply processAgentsData_agents.
  - intros entry H. unfold valid_new_agent. fold (has_required_fields entry).
    now rewrite H.
  - intros entry H. unfold has_required_fields.
    decompose [or] H; clear H; subst;
      repeat match goal with E : prop _ _ = _ |- _ => rewrite E; clear E end;
      cbn; rewrite ?andb_false_r; reflexivity.
Qed.


(** C3 (as amended).  Sorting by distance orders the filtered agents by
    their distance in ascending order, an agent whose distance is absent,
    empty or 0 counting as 999999 away, and keeps tied agents in their
    previous order; so an agent without a distance comes after every
    agent whose distance is below 999999, and no agent placed after it
    is nearer than that. *)
Theorem distance_sort_ascending_unknown_as_999999 (s : state) :
  Forall (fun a => is_nan (distance_key a) = false) (filteredAgents s) ->
  let sorted := sort_by (comes_after distance_order) (filteredAgents s) in
  sortAgents (Some "distance") s = (Ok tt, set_filteredAgents sorted s)
  /\ Permutation sorted (filteredAgents s)
  /\ StronglySorted (fun a b => leb (distance_key a) (distance_key b) = true) sorted
  /\ (forall z, In z (filteredAgents s) ->
        filter (tied distance_order z) sorted
        = filter (tied distance_order z) (filteredAgents s))
  /\ (forall u, unknown_distance u = true -> distance_key u = of_Z 999999)
  /\ (forall l1 u l2 k,
        sorted = (l1 ++ u :: l2)%list -> In k l2 -> unknown_distance u = true ->
        ltb (distance_key k) (of_Z 999999) = false).
Proof.
  intros HP. cbv zeta.
  set (P := fun a => is_nan (distance_key a) = false) in *.
  assert (Hasym : forall x y, P x -> P y ->
            comes_after distance_order x y = true ->
            comes_after distance_order y x = false).
  { intros x y Px Py. rewrite !comes_after_distance by assumption. apply ltb_asym. }
  assert (Htrans : forall x y z, P x -> P y -> P z ->
            comes_after distance_order x y = false ->
            comes_after distance_order y z = false ->
            comes_after distance_order x z = false).
  { intros x y z Px Py Pz. rewrite !comes_after_distance by assumption.
    intros H1 H2. apply (ltb_cotrans _ (distance_key y)); assumption. }
  assert (HS : StronglySorted
                 (fun a b => leb (distance_key a) (distance_key b) = true)
                 (sort_by (comes_after distance_order) (filteredAgents s))).
  { apply (StronglySorted_weaken
             (fun a b => comes_after distance_order a b = false) _ P).
    - intros a b Pa Pb. rewrite comes_after_distance by assumption.
      intros H. unfold leb. unfold P in Pa, Pb. now rewrite Pa, Pb, H.
    - now apply sort_by_Forall.
    - now apply (sort_by_sorted distance_order P Hasym Htrans). }
  repeat match goal with |- _ /\ _ => split end.
  - apply sortAgents_pure. discriminate.
  - apply sort_by_perm.
  - exact HS.
  - intros z Hz. apply (sort_by_stable distance_order P); auto.
    rewrite Forall_forall in HP. now apply HP.
  - apply unknown_distance_key.
  - intros l1 u l2 k E Hk Hu. rewrite E in HS.
    apply StronglySorted_after in HS. rewrite Forall_forall in HS.
    specialize (HS k Hk). rewrite (unknown_distance_key u Hu) in HS.
    unfold leb in HS. apply andb_true_iff in HS as [_ HS].
    now apply negb_true_iff in HS.
Qed.

(** C5 (as amended).  When the name of every listed agent is a text,
    sorting by name (the default) orders the filtered agents by
    [localeCompare] on their names and is stable: the result is a
    rearrangement of the list in which no agent comes before one whose
    name it follows, and the agents whose names compare equal to a given
    one appear in the order they had before.  When no listed name is a
    text and there are two agents or more, the first comparison raises a
    [TypeError] and the list is left as it was. *)
Theorem name_sort_is_stable (sortBy : option string) (s : state) :
  consistent_collation ->
  selected_is sortBy "distance" = false ->
  (Forall (fun a => has_name a = true) (filteredAgents s) ->
   let sorted := sort_by (comes_after name_order) (filteredAgents s) in
   sortAgents sortBy s = (Ok tt, set_filteredAgents sorted s)
   /\ Permutation sorted (filteredAgents s)
   /\ StronglySorted (fun a b => comes_after name_order a b = false) sorted
   /\ (forall z, filter (tied name_order z) sorted
                 = filter (tied name_order z) (filteredAgents s)))
  /\ (Forall (fun a => has_name a = false) (filteredAgents s) ->
      (2 <= List.length (filteredAgents s))%nat ->
      sortAgents sortBy s = (Throw TypeError, s)).
Proof.
  intros [Hasym Htrans] Hsort. split.
  - intros Hnames. cbv zeta.
    assert (A : forall x y, True -> True ->
              comes_after name_order x y = true -> comes_after name_order y x = false).
    { intros x y _ _. apply Hasym. }
    assert (T : forall x y z, True -> True -> True ->
              comes_after name_order x y = false ->
              comes_after name_order y z = false ->
              comes_after name_order x z = false).
    { intros x y z _ _ _. apply Htrans. }
    assert (All : Forall (fun _ : value => True) (filteredAgents s))
      by (apply Forall_forall; auto).
    repeat match goal with |- _ /\ _ => split end.
    + rewrite sortAgents_pure by auto. unfold order_of. now rewrite Hsort.
    + apply sort_by_perm.
    + now apply (sort_by_sorted name_order (fun _ => True) A T).
    + intros z. now apply (sort_by_stable name_order (fun _ => True) T).
  - intros Hnone Htwo. rewrite sortAgents_cases, Hsort.
    now rewrite sort_without_names.
Qed.

(** C4 (as amended).  For an agent whose representative, address, city,
    province and msisdn are texts when present, [searchInAgent] keeps
    the agent exactly when one of the five is present and, lower-cased,
    contains the term.  [performSearch] lower-cases and trims what was
    typed and, with no region or area selected and all the stored
    agents such, keeps the stored agents that [searchInAgent] keeps;
    when nothing is left of the term it keeps them all, whatever they
    hold.  On an agent with a field that is present and not a text,
    [searchInAgent] either finds the term in a text field or raises a
    [TypeError]. *)
Theorem search_matches_five_fields (c : controls) (s : state) (term : string)
    (agent : value) :
  let s' := snd (performSearch c s) in
  (searchable agent = true -> searchInAgent agent term = Ok (matches term agent))
  /\ (matches term agent = true <->
      exists field text,
        In field [ prop agent "representative"; prop agent "address";
                   prop agent "city"; prop agent "province"; prop agent "msisdn" ]
        /\ field = VStr text /\ text <> ""
        /\ includes (toLowerCase text) term = true)
  /\ searchTerm_of c = trim (toLowerCase (agent_search c))
  /\ (Forall (fun a => searchable a = true) (agents s) ->
      unselected (region_filter c) = true ->
      unselected (area_filter c) = true ->
      forall a, In a (filteredAgents s') <->
                In a (agents s)
                /\ (searchTerm_of c = "" \/ matches (searchTerm_of c) a = true))
  /\ (searchTerm_of c = "" ->
      unselected (region_filter c) = true ->
      unselected (area_filter c) = true ->
      Permutation (filteredAgents s') (agents s))
  /\ (searchable agent = false ->
      (searchInAgent agent term = Ok true /\ matches term agent = true)
      \/ searchInAgent agent term = Throw TypeError).
Proof.
  cbv zeta.
  repeat match goal with |- _ /\ _ => split end.
  - now apply searchInAgent_pure.
  - apply matches_iff.
  - reflexivity.
  - intros Hall Hregion Harea.
    assert (K : forall a, kept_by c a
                          = is_empty (searchTerm_of c) || matches (searchTerm_of c) a).
    { intros a. unfold kept_by, option_matches. rewrite Hregion, Harea. cbn.
      now rewrite !andb_true_r. }
    assert (P : Permutation (filteredAgents (snd (performSearch c s)))
                            (filter (kept_by c) (agents s))).
    { rewrite Forall_forall in Hall.
      rewrite performSearch_cases.
      assert (E : (if is_empty (searchTerm_of c) then Ok (agents s)
                   else filterM (fun agent => searchInAgent agent (searchTerm_of c))
                                (agents s))
                  = Ok (if is_empty (searchTerm_of c) then agents s
                        else filter (matches (searchTerm_of c)) (agents s))).
      { destruct (is_empty (searchTerm_of c)); [reflexivity |].
        apply filterM_pure. intros x Hx. now apply searchInAgent_pure, Hall. }
      rewrite E, mbind_updateDisplay_state, applyCurrentFilters_cases.
      cbn [agents set_filteredAgents].
      rewrite (filterM_pure (keeps c) (kept_by c))
        by (intros x Hx; now apply keeps_pure, Hall).
      match goal with
      | |- context [sortAgents ?b ?st] =>
          destruct (sortAgents_lists b st) as [_ Q]
      end.
      exact Q. }
    intros a. split.
    + intros H. apply (Permutation_in _ P) in H.
      apply filter_In in H as [H1 H]. rewrite K in H. split; [exact H1 |].
      apply orb_true_iff in H as [H | H]; [left | now right].
      destruct (searchTerm_of c); [reflexivity | discriminate].
    + intros [H1 H]. apply (Permutation_in _ (Permutation_sym P)).
      apply filter_In. split; [exact H1 |]. rewrite K.
      destruct H as [H2 | H2]; rewrite H2; [reflexivity | apply orb_true_r].
  - intros E Hregion Harea.
    rewrite performSearch_cases, E. cbn [is_empty].
    rewrite mbind_updateDisplay_state, applyCurrentFilters_cases.
    cbn [agents set_filteredAgents].
    rewrite (blank_filter_keeps_all c (agents s) E Hregion Harea).
    destruct (sortAgents_lists (sort_filter c)
                (set_filteredAgents (agents s) (set_filteredAgents (agents s) s)))
      as [_ P].
    exact P.
  - intros N. destruct (search_outcomes agent term) as [H | [(_ & _ & H) | [H _]]];
      [now left | congruence | now right].
Qed.

End WithHost.
End LocatorSpec.

(* ================================================================== *)
(** * Further facts about the language layer *)
(* ================================================================== *)

Module BuiltinsFacts.

Lemma scale_pos : 0 < scale.
Proof. unfold scale. apply Z.pow_pos_nonneg; lia. Qed.

Lemma ltb_scaled (a b : Z) : (a * scale <? b * scale) = (a <? b).
Proof.
  pose proof scale_pos.
  destruct (Z.ltb_spec a b); destruct (Z.ltb_spec (a * scale) (b * scale)); nia.
Qed.

Lemma eqb_scaled (a b : Z) : (a * scale =? b * scale) = (a =? b).
Proof.
  pose proof scale_pos.
  destruct (Z.eqb_spec a b); destruct (Z.eqb_spec (a * scale) (b * scale)); nia.
Qed.

Lemma round_half_even_exact q b : 0 < b -> round_half_even (q * b) b = q.
Proof.
  intros H. unfold round_half_even. rewrite Z.div_mul, Z.mod_mul by lia.
  replace (2 * 0 <? b) with true; [reflexivity |].
  symmetry. apply Z.ltb_lt. lia.
Qed.

(** An integer below [2^53] is a binary64 value. *)
Lemma of_Z_exact m : 0 <= m < 2 ^ 53 -> of_Z m = Fin (m * scale).
Proof.
  intros [H0 H1]. unfold of_Z, round_ratio.
  pose proof scale_pos as HS.
  assert (E : (m * scale <? 0) = false) by (apply Z.ltb_ge; nia).
  rewrite E. unfold round_magnitude. rewrite Z.div_1_r, Z.mul_1_l.
  destruct (Z.eq_dec m 0) as [-> | N].
  - reflexivity.
  - assert (L : Z.log2 (m * scale) = 1074 + Z.log2 m).
    { unfold scale. apply Z.log2_mul_pow2; lia. }
    assert (Lm : 0 <= Z.log2 m < 53).
    { split; [apply Z.log2_nonneg |]. apply Z.log2_lt_pow2; lia. }
    rewrite L.
    replace (Z.max 0 (1074 + Z.log2 m - 52)) with (1022 + Z.log2 m) by lia.
    set (k := 1022 + Z.log2 m).
    assert (Hk : 0 <= k <= 1074) by (unfold k; lia).
    assert (D : m * scale = (m * 2 ^ (1074 - k)) * 2 ^ k).
    { unfold scale. rewrite <- Z.mul_assoc, <- Z.pow_add_r by lia.
      f_equal. f_equal. lia. }
    assert (P : 0 < 2 ^ k) by (apply Z.pow_pos_nonneg; lia).
    assert (R : round_half_even (m * scale) (2 ^ k) = m * 2 ^ (1074 - k)).
    { rewrite D. apply round_half_even_exact. lia. }
    rewrite R, <- D.
    assert (O : (overflow_threshold <=? m * scale) = false).
    { apply Z.leb_gt. unfold overflow_threshold, scale.
      replace 2098 with (1024 + 1074) by lia. rewrite Z.pow_add_r by lia.
      apply Z.mul_lt_mono_pos_r; [apply Z.pow_pos_nonneg; lia |].
      eapply Z.lt_trans; [exact H1 |]. apply Z.pow_lt_mono_r; lia. }
    rewrite O. reflexivity.
Qed.

(** *** Printing a small integer *)

Lemma shortest_digits_int fuel : forall k n r res,
  0 <= r ->
  shortest_int fuel k n r = Some res ->
  shortest_digits fuel k n (r * scale) = res.
Proof.
  pose proof scale_pos as HS.
  induction fuel as [| fuel IH]; intros k n r res Hr H; [discriminate |].
  cbn [shortest_int] in H. cbn [shortest_digits]. cbv zeta in H |- *.
  destruct (0 <=? n - k) eqn:E; [| discriminate]. cbn [andb] in H.
  apply Z.leb_le in E.
  destruct ((r / 10 ^ (n - k) + 1) * 10 ^ (n - k) <? 2 ^ 53) eqn:B; [| discriminate].
  apply Z.ltb_lt in B.
  assert (P : 0 < 10 ^ (n - k)) by (apply Z.pow_pos_nonneg; lia).
  assert (Q : (r * scale) / (scale * 10 ^ (n - k)) = r / 10 ^ (n - k)).
  { rewrite (Z.mul_comm r scale). apply Z.div_mul_cancel_l; lia. }
  rewrite Q.
  set (lo := r / 10 ^ (n - k)) in *.
  assert (Hlo : 0 <= lo) by (apply Z.div_pos; lia).
  assert (Rlo : reads_back lo (n - k) (r * scale) = (lo * 10 ^ (n - k) =? r)).
  { unfold reads_back, of_decimal.
    replace (0 <=? n - k) with true by (symmetry; apply Z.leb_le; lia).
    change (round_ratio (lo * 10 ^ (n - k) * scale) 1) with (of_Z (lo * 10 ^ (n - k))).
    rewrite of_Z_exact by nia. cbn [num_eqb]. apply eqb_scaled. }
  assert (Rhi : reads_back (lo + 1) (n - k) (r * scale) = ((lo + 1) * 10 ^ (n - k) =? r)).
  { unfold reads_back, of_decimal.
    replace (0 <=? n - k) with true by (symmetry; apply Z.leb_le; lia).
    change (round_ratio ((lo + 1) * 10 ^ (n - k) * scale) 1)
      with (of_Z ((lo + 1) * 10 ^ (n - k))).
    rewrite of_Z_exact by nia. cbn [num_eqb]. apply eqb_scaled. }
  rewrite Rlo, Rhi.
  destruct (Z.eqb_spec (lo * 10 ^ (n - k)) r) as [E1 | E1].
  - destruct (Z.eqb_spec ((lo + 1) * 10 ^ (n - k)) r) as [E2 | E2]; [nia |].
    now inversion H.
  - destruct (Z.eqb_spec ((lo + 1) * 10 ^ (n - k)) r) as [E2 | E2].
    + now inversion H.
    + now apply IH.
Qed.

Lemma print_integer_sound r text :
  1 <= r -> print_integer r = Some text -> NumberToString (Fin (r * scale)) = text.
Proof.
  intros Hr H. pose proof scale_pos as HS.
  unfold NumberToString.
  replace (r * scale =? 0) with false by (symmetry; apply Z.eqb_neq; nia).
  replace (r * scale <? 0) with false by (symmetry; apply Z.ltb_ge; nia).
  unfold print_integer in H. cbv zeta in H.
  destruct (shortest_int 17 1 _ r) as [[c k0] |] eqn:S; [| discriminate].
  apply shortest_digits_int in S; [| lia].
  unfold positive_to_string, decimal_exponent.
  replace (scale <=? r * scale) with true by (symmetry; apply Z.leb_le; nia).
  rewrite Z.div_mul by lia. rewrite S. cbv zeta. now inversion H.
Qed.

Lemma integers_to_1000 :
  forallb (fun r => match print_integer r with
                    | Some text => (text =? decimal r)%string
                    | None => false
                    end)
          (map Z.of_nat (seq 1 1000)) = true.
Proof. vm_compute. reflexivity. Qed.

Lemma NumberToString_small r :
  0 <= r <= 1000 -> NumberToString (Fin (r * scale)) = decimal r.
Proof.
  intros H. destruct (Z.eq_dec r 0) as [-> | N]; [reflexivity |].
  pose proof integers_to_1000 as T. rewrite forallb_forall in T.
  specialize (T r). 
  assert (I : In r (map Z.of_nat (seq 1 1000))).
  { apply in_map_iff. exists (Z.to_nat r). split; [lia |]. apply in_seq. lia. }
  specialize (T I). destruct (print_integer r) as [text |] eqn:P; [| discriminate].
  apply String.eqb_eq in T. subst text. apply print_integer_sound; [lia | exact P].
Qed.

End BuiltinsFacts.

Import BuiltinsFacts.

Module PrintFacts.

Lemma round_half_even_upper a b : 0 <= a -> 0 < b -> round_half_even a b <= a / b + 1.
Proof.
  intros Ha Hb. unfold round_half_even.
  destruct (2 * (a mod b) <? b); [lia |].
  destruct (b <? 2 * (a mod b)); [lia |].
  destruct (Z.even (a / b)); lia.
Qed.

(** The rounded quotient is at most twice the quotient: rounding adds
    less than one unit in the last place. *)
Lemma round_magnitude_bound n d :
  0 <= n -> 0 < d -> 1 <= n / d -> 2 * (n / d) < overflow_threshold ->
  exists z, round_magnitude n d = Fin z /\ 0 <= z <= 2 * (n / d).
Proof.
  intros Hn Hd Ht Ho. unfold round_magnitude.
  set (t := n / d) in *.
  set (k := Z.max 0 (Z.log2 t - 52)).
  assert (Hk : 0 <= k) by (unfold k; lia).
  assert (P : 0 < 2 ^ k) by (apply Z.pow_pos_nonneg; lia).
  assert (Hle : 2 ^ k <= t).
  { destruct (Z.log2_spec t) as [L _]; [lia |].
    pose proof (Z.log2_nonneg t).
    etransitivity; [| exact L]. apply Z.pow_le_mono_r; unfold k; lia. }
  assert (Q : n / (d * 2 ^ k) = t / 2 ^ k).
  { unfold t. rewrite Z.div_div by lia. reflexivity. }
  pose proof (round_half_even_upper n (d * 2 ^ k) Hn ltac:(nia)) as U.
  pose proof (round_half_even_lower n (d * 2 ^ k)) as L.
  rewrite Q in U, L.
  assert (F : t / 2 ^ k * 2 ^ k <= t).
  { pose proof (Z.mul_div_le t (2 ^ k) P). lia. }
  assert (G : 0 <= t / 2 ^ k) by (apply Z.div_pos; lia).
  set (z := round_half_even n (d * 2 ^ k) * 2 ^ k).
  assert (B : 0 <= z <= 2 * t) by (unfold z; nia).
  exists z. split; [| exact B].
  replace (overflow_threshold <=? z) with false; [reflexivity |].
  symmetry. apply Z.leb_gt. lia.
Qed.

(** *** The layout of [toFixed] *)

Lemma all_digits_substring : forall m a b,
  all_digits m = true -> all_digits (substring a b m) = true.
Proof.
  induction m as [| c m IH]; intros a b H.
  - destruct a, b; reflexivity.
  - cbn [all_digits] in H. apply andb_true_iff in H as [Hc Hm].
    destruct a as [| a]; [destruct b as [| b] |]; cbn [substring all_digits].
    + reflexivity.
    + rewrite Hc. now apply IH.
    + now apply IH.
Qed.

Lemma length_substring : forall m a b,
  (a + b <= length m)%nat -> length (substring a b m) = b.
Proof.
  induction m as [| c m IH]; intros a b H; cbn [length] in H.
  - destruct a, b; try reflexivity; lia.
  - destruct a as [| a]; [destruct b as [| b] |]; cbn [substring length].
    + reflexivity.
    + rewrite IH; [reflexivity | lia].
    + apply IH. lia.
Qed.

(** A finite number below [10^21] is printed by [toFixed(f)], [f > 0],
    as an optional minus sign, at least one digit, a point and [f]
    digits. *)
Lemma toFixed_layout (f : nat) (z : Z) :
  (0 < f)%nat -> Z.abs z < 10 ^ 21 * scale ->
  exists whole fraction,
    toFixed f (Fin z) = (if z <? 0 then "-" else "") ++ whole ++ "." ++ fraction
    /\ all_digits whole = true /\ (1 <= length whole)%nat
    /\ all_digits fraction = true /\ length fraction = f.
Proof.
  intros Hf H. unfold toFixed.
  replace (10 ^ 21 * scale <=? Z.abs z) with false
    by (symmetry; apply Z.leb_gt; exact H).
  set (n := (2 * Z.abs z * 10 ^ Z.of_nat f + scale) / (2 * scale)).
  set (m := if (length (decimal n) <=? f)%nat
            then zeros (f + 1 - length (decimal n)) ++ decimal n else decimal n).
  assert (Hd : all_digits m = true).
  { subst m. destruct (length (decimal n) <=? f)%nat;
      [apply all_digits_app; [apply zeros_all_digits |] |]; apply decimal_all_digits. }
  assert (Hl : (f + 1 <= length m)%nat).
  { subst m. destruct (length (decimal n) <=? f)%nat eqn:E.
    - apply Nat.leb_le in E. rewrite length_app, zeros_length.
      pose proof (decimal_nonempty n). lia.
    - apply Nat.leb_gt in E. lia. }
  destruct f as [| f']; [lia |].
  exists (substring 0 (length m - S f') m), (substring (length m - S f') (S f') m).
  split; [reflexivity |].
  repeat split.
  - now apply all_digits_substring.
  - rewrite length_substring; lia.
  - now apply all_digits_substring.
  - apply length_substring. lia.
Qed.

End PrintFacts.
Import PrintFacts.


Module TextFacts.

Lemma units_app a b : units (a ++ b) = (units a ++ units b)%list.
Proof. induction a as [| c a IH]; cbn; [reflexivity | now rewrite IH]. Qed.

Lemma trimStart_units s c : In c (units (trimStart s)) -> In c (units s).
Proof.
  induction s as [| x r IH]; cbn; [auto |].
  destruct (is_whitespace x); [right; now apply IH | auto].
Qed.

Lemma trimEnd_units s c : In c (units (trimEnd s)) -> In c (units s).
Proof.
  revert c. induction s as [| x r IH]; intros c; cbn [trimEnd]; [auto |].
  destruct (trimEnd r) as [| y r'] eqn:E.
  - destruct (is_whitespace x); cbn; [contradiction | tauto].
  - cbn [list_ascii_of_string]. intros [H | H]; [now left | right].
    apply IH. exact H.
Qed.

Lemma trim_units s c : In c (units (trim s)) -> In c (units s).
Proof. unfold trim. intros H. now apply trimStart_units, trimEnd_units. Qed.

Lemma space_is_whitespace : is_whitespace " " = true.
Proof. reflexivity. Qed.

(** *** [split] *)

Lemma split_nonempty sep s : exists word words, split sep s = word :: words.
Proof.
  induction s as [| c r (w & ws & E)]; cbn; [eauto |].
  destruct (c =? sep)%char; [eauto |]. rewrite E. eauto.
Qed.

Lemma split_single sep s word : split sep s = [word] -> s = word.
Proof.
  revert word. induction s as [| c r IH]; intros word; cbn.
  - now inversion 1.
  - destruct (c =? sep)%char.
    + destruct (split_nonempty sep r) as (w & ws & E). rewrite E. discriminate.
    + destruct (split sep r) as [| w ws] eqn:E.
      * destruct (split_nonempty sep r) as (w & ws & E'). congruence.
      * intros H. inversion H; subst. f_equal. now apply IH.
Qed.

Lemma split_head sep s word words :
  split sep s = word :: words ->
  (forall c, In c (units word) -> c <> sep /\ In c (units s))
  /\ match s with
     | String c _ => c <> sep -> exists r, word = String c r
     | EmptyString => word = EmptyString
     end.
Proof.
  revert word words. induction s as [| c r IH]; intros word words; cbn.
  - intros H. inversion H; subst. split; [intros ? [] | reflexivity].
  - destruct (c =? sep)%char eqn:C.
    + intros H. inversion H; subst. split; [intros ? [] | ].
      apply Ascii.eqb_eq in C. congruence.
    + apply Ascii.eqb_neq in C.
      destruct (split sep r) as [| w ws] eqn:E.
      * intros H. inversion H; subst. split; [| eauto].
        intros x [<- | []]. split; [exact C | now left].
      * intros H. injection H as <- <-. destruct (IH w ws eq_refl) as [I _].
        split; [| eauto].
        intros x [<- | Hx]; [split; [exact C | now left] |].
        destruct (I x Hx). split; [assumption | now right].
Qed.

Lemma split_second sep s word0 word1 words :
  split sep s = word0 :: word1 :: words ->
  forall c, In c (units word1) -> c <> sep /\ In c (units s).
Proof.
  revert word0 word1 words. induction s as [| c r IH]; intros word0 word1 words; cbn.
  - discriminate.
  - destruct (c =? sep)%char.
    + intros H. inversion H as [[E0 E1]]. 
      destruct (split_head sep r word1 words E1) as [I _].
      intros x Hx. destruct (I x Hx). split; [assumption | now right].
    + destruct (split sep r) as [| w ws] eqn:E; [discriminate |].
      intros H. injection H as <- ->.
      intros x Hx. destruct (IH w word1 words eq_refl x Hx).
      split; [assumption | now right].
Qed.

(** A word, then the separator: the word is the first piece. *)
Lemma split_word sep word rest :
  (forall c, In c (units word) -> c <> sep) ->
  split sep (word ++ String sep rest) = word :: split sep rest.
Proof.
  induction word as [| c w IH]; intros H; cbn.
  - now rewrite Ascii.eqb_refl.
  - assert (C : (c =? sep)%char = false)
      by (apply Ascii.eqb_neq, H; now left).
    rewrite C, IH; [reflexivity |]. intros x Hx. apply H. now right.
Qed.

Lemma first_unit_units s text c :
  first_unit s = VStr text -> In c (units text) -> In c (units s).
Proof.
  destruct s as [| x r]; cbn; [discriminate |].
  intros H. inversion H; subst. cbn. tauto.
Qed.

Lemma substring_two s :
  (length (substring 0 2 s) <= 2)%nat
  /\ (forall c, In c (units (substring 0 2 s)) -> In c (units s))
  /\ match s with
     | String c _ => exists t', substring 0 2 s = String c t'
     | EmptyString => substring 0 2 s = ""
     end.
Proof.
  destruct s as [| c0 [| c1 [| c2 r]]]; cbn; (split; [lia |]); (split; [| eauto]);
    tauto.
Qed.

(** *** [serialize_text] *)

Lemma escape_unit_units c x :
  In x (units (escape_unit c)) -> x <> "<"%char /\ x <> ">"%char.
Proof.
  unfold escape_unit.
  destruct (c =? "&")%char; [cbn; intuition (subst; discriminate) |].
  destruct (c =? "<")%char eqn:L; [cbn; intuition (subst; discriminate) |].
  destruct (c =? ">")%char eqn:G; [cbn; intuition (subst; discriminate) |].
  apply Ascii.eqb_neq in L, G.
  destruct (code c =? 160); [cbn; intuition (subst; discriminate) |].
  cbn. intros [<- | []]. auto.
Qed.

Lemma serialize_text_units s x :
  In x (units (serialize_text s)) -> x <> "<"%char /\ x <> ">"%char.
Proof.
  induction s as [| c r IH]; cbn; [contradiction |].
  rewrite units_app, in_app_iff. intros [H | H]; [eapply escape_unit_units; eauto | auto].
Qed.

Lemma serialize_text_plain s :
  (forall c, In c (units s) ->
     c <> "&"%char /\ c <> "<"%char /\ c <> ">"%char /\ code c <> 160) ->
  serialize_text s = s.
Proof.
  induction s as [| c r IH]; intros H; cbn; [reflexivity |].
  destruct (H c) as (A & L & G & N); [now left |].
  unfold escape_unit.
  apply Ascii.eqb_neq in A, L, G. apply Z.eqb_neq in N. rewrite A, L, G, N.
  cbn. f_equal. apply IH. intros x Hx. apply H. now right.
Qed.

Lemma serialize_text_keeps s x :
  x <> "&"%char -> x <> "<"%char -> x <> ">"%char -> code x <> 160 ->
  In x (units s) -> In x (units (serialize_text s)).
Proof.
  intros A L G N. induction s as [| c r IH]; cbn; [auto |].
  rewrite units_app, in_app_iff. intros [<- | H]; [left | auto].
  unfold escape_unit.
  apply Ascii.eqb_neq in A, L, G. apply Z.eqb_neq in N. rewrite A, L, G, N.
  now left.
Qed.

End TextFacts.
Import TextFacts.


Module ScanFacts.

(** *** White space after a literal is not read *)

Lemma all_whitespace_stops w : all_whitespace w = true -> stops w.
Proof.
  destruct w as [| c r]; cbn; [auto |]. intros H.
  now apply andb_true_iff in H as [H _].
Qed.

Lemma trimEnd_split s :
  exists w, s = trimEnd s ++ w /\ all_whitespace w = true.
Proof.
  induction s as [| c r (w & E & W)]; [exists ""; auto |].
  cbn [trimEnd]. destruct (trimEnd r) as [| c' r'] eqn:T.
  - cbn in E. subst w. destruct (is_whitespace c) eqn:C.
    + exists (String c r). split; [reflexivity |]. cbn. now rewrite C, W.
    + exists r. split; [reflexivity | exact W].
  - exists w. split; [| exact W]. cbn in E |- *. f_equal. exact E.
Qed.

Lemma whitespace_code c :
  is_whitespace c = true ->
  code c = 9 \/ code c = 10 \/ code c = 11 \/ code c = 12 \/ code c = 13
  \/ code c = 32 \/ code c = 160.
Proof. unfold is_whitespace. cbv zeta. lia. Qed.

Lemma whitespace_neq c d :
  is_whitespace c = true -> is_whitespace d = false -> (c =? d)%char = false.
Proof.
  intros C D. apply Ascii.eqb_neq. intros ->. congruence.
Qed.

Lemma whitespace_not_digit radix c :
  is_whitespace c = true -> digit_value radix c = None.
Proof.
  intros H. apply whitespace_code in H. unfold digit_value. cbv zeta.
  replace ((48 <=? code c) && (code c <=? 57)) with false by lia.
  replace ((97 <=? code c) && (code c <=? 102)) with false by lia.
  replace ((65 <=? code c) && (code c <=? 70)) with false by lia.
  now rewrite Z.ltb_irrefl.
Qed.

Lemma scan_digits_stops radix w : forall u acc n,
  stops w ->
  scan_digits radix (u ++ w) acc n
  = let '(v, m, rest) := scan_digits radix u acc n in (v, m, rest ++ w).
Proof.
  intros u. induction u as [| c r IH]; intros acc n W.
  - cbn. destruct w as [| c r]; [reflexivity |]. cbn.
    now rewrite (whitespace_not_digit radix c W).
  - cbn. destruct (digit_value radix c); [now apply IH | reflexivity].
Qed.

Lemma prefix_stops p : forall u w,
  (forall c, In c (units p) -> is_whitespace c = false) ->
  stops w -> prefix p (u ++ w) = prefix p u.
Proof.
  induction p as [| a p IH]; intros u w P W; [destruct u, w; reflexivity |].
  destruct u as [| b u].
  - destruct w as [| c r]; [reflexivity |]. cbn.
    destruct (ascii_dec a c) as [-> | N]; [| reflexivity].
    cbn in W. rewrite P in W; [discriminate | now left].
  - cbn. destruct (ascii_dec a b); [| reflexivity].
    apply IH; [| exact W]. intros c Hc. apply P. now right.
Qed.

Lemma drop_prefix p : forall u w,
  prefix p u = true -> drop (length p) (u ++ w) = drop (length p) u ++ w.
Proof.
  induction p as [| a p IH]; intros u w H; [destruct u; reflexivity |].
  destruct u as [| b u]; [discriminate |]. cbn in H |- *.
  destruct (ascii_dec a b); [now apply IH | discriminate].
Qed.

Lemma scan_sign_stops u w :
  stops w ->
  scan_sign (u ++ w) = let '(neg, r) := scan_sign u in (neg, r ++ w).
Proof.
  intros W. destruct u as [| c r]; cbn.
  - destruct w as [| c r]; [reflexivity |]. cbn.
    rewrite !(whitespace_neq c) by (exact W || reflexivity). reflexivity.
  - destruct (c =? "-")%char; [reflexivity |].
    destruct (c =? "+")%char; reflexivity.
Qed.

Lemma scan_exponent_stops u w :
  stops w ->
  scan_exponent (u ++ w) = let '(e, r) := scan_exponent u in (e, r ++ w).
Proof.
  intros W. destruct u as [| c r].
  - destruct w as [| c r]; [reflexivity |]. cbn.
    rewrite !(whitespace_neq c) by (exact W || reflexivity). reflexivity.
  - cbn [append scan_exponent].
    destruct ((c =? "e")%char || (c =? "E")%char); [| reflexivity].
    rewrite (scan_sign_stops r w W).
    destruct (scan_sign r) as [neg r1].
    rewrite (scan_digits_stops 10 w r1 0 0 W).
    destruct (scan_digits 10 r1 0 0) as [[v n] r2].
    destruct (n =? 0); reflexivity.
Qed.

Lemma scan_unsigned_stops u w :
  stops w -> scan_unsigned (u ++ w) = followed_by w (scan_unsigned u).
Proof.
  intros W. unfold scan_unsigned.
  rewrite (prefix_stops "Infinity" u w); [| | exact W].
  2:{ intros c H. cbn in H. decompose [or] H; subst; try reflexivity; contradiction. }
  destruct (prefix "Infinity" u) eqn:P.
  - change 8%nat with (length "Infinity"). now rewrite (drop_prefix _ _ w P).
  - rewrite (scan_digits_stops 10 w u 0 0 W).
    destruct (scan_digits 10 u 0 0) as [[i ni] r1].
    assert (Whole :
      (if ni =? 0 then None
       else let '(e, r4) := scan_exponent (r1 ++ w) in Some (of_decimal i e, r4))
      = followed_by w
          (if ni =? 0 then None
           else let '(e, r4) := scan_exponent r1 in Some (of_decimal i e, r4))).
    { destruct (ni =? 0); [reflexivity |].
      rewrite (scan_exponent_stops r1 w W).
      destruct (scan_exponent r1) as [e r4]. reflexivity. }
    destruct r1 as [| c r2].
    + cbn [append]. destruct w as [| c r2]; [exact Whole |].
      rewrite (whitespace_neq c) by (exact W || reflexivity). exact Whole.
    + cbn [append]. destruct (c =? ".")%char; [| exact Whole].
      rewrite (scan_digits_stops 10 w r2 i 0 W).
      destruct (scan_digits 10 r2 i 0) as [[m nf] r3].
      destruct ((ni =? 0) && (nf =? 0)); [reflexivity |].
      rewrite (scan_exponent_stops r3 w W).
      destruct (scan_exponent r3) as [e r4]. reflexivity.
Qed.

Lemma scan_decimal_stops u w :
  stops w -> scan_decimal (u ++ w) = followed_by w (scan_decimal u).
Proof.
  intros W. unfold scan_decimal. rewrite (scan_sign_stops u w W).
  destruct (scan_sign u) as [neg r]. rewrite (scan_unsigned_stops r w W).
  destruct (scan_unsigned r) as [[x rest] |]; reflexivity.
Qed.

(** [parseFloat] reads the same number from a text and from the text
    without the white space around it. *)
Lemma parseFloat_trim s : parseFloat (trim s) = parseFloat s.
Proof.
  unfold parseFloat. rewrite trimStart_trim. unfold trim.
  destruct (trimEnd_split (trimStart s)) as (w & E & W).
  rewrite E at 2. rewrite (scan_decimal_stops _ w (all_whitespace_stops w W)).
  destruct (scan_decimal (trimEnd (trimStart s))) as [[x rest] |]; reflexivity.
Qed.

End ScanFacts.

Import ScanFacts.

(* ================================================================== *)
(** * Further facts about the two scripts *)
(* ================================================================== *)

Module CalculatorFacts.
Section WithHost.
Context {host : Host}.



Lemma showFieldError_requests fieldId message p :
  requests (showFieldError fieldId message p) = requests p.
Proof. unfold showFieldError. destruct (existsb _ _); reflexivity. Qed.

(** A click with an amount above the ceiling of the selected currency
    sends nothing. *)
Lemma click_over_limit (f : form) (p : page) :
  (selected_is (currency_field f) "USD" && gtb (parseFloat (amount_field f)) (of_Z 500)
   || selected_is (currency_field f) "ZWG" && gtb (parseFloat (amount_field f)) (of_Z 8000))
  = true ->
  requests (on_calculate_click f p) = requests p.
Proof.
  intros H. unfold on_calculate_click. rewrite parseFloat_trim.
  destruct (is_empty (trim (amount_field f)));
    [| destruct (is_nan (StringToNumber (trim (amount_field f))));
       [| destruct (leb (parseFloat (amount_field f)) zero) ]];
    destruct (unselected (currency_field f));
    destruct (unselected (transaction_type_field f));
    cbv beta iota zeta; cbn [negb]; rewrite ?showFieldError_requests; try reflexivity.
  destruct (selected_is (currency_field f) "USD"
            && gtb (parseFloat (amount_field f)) (of_Z 500)) eqn:U.
  - cbv beta iota zeta. cbn [requests set_warning set_limit_exceeded].
    now rewrite showFieldError_requests.
  - cbn [orb] in H. rewrite H. cbv beta iota zeta.
    cbn [requests set_warning set_limit_exceeded].
    now rewrite showFieldError_requests.
Qed.

End WithHost.
End CalculatorFacts.
Import CalculatorFacts.


Module BlurFacts.

Lemma toFixed_fixed_text f a :
  0 <= a < 10 ^ 21 * scale ->
  toFixed f (Fin a) = fixed_text f ((2 * a * 10 ^ Z.of_nat f + scale) / (2 * scale)).
Proof.
  intros [H0 H1]. unfold toFixed, fixed_text.
  replace (a <? 0) with false by (symmetry; apply Z.ltb_ge; lia).
  rewrite Z.abs_eq by lia.
  replace (10 ^ 21 * scale <=? a) with false by (symmetry; apply Z.leb_gt; lia).
  cbv zeta. destruct f; reflexivity.
Qed.

(** [toFixed(2)] of a number within half a hundredth of [n / 100]. *)
Lemma toFixed2_near a n :
  0 <= a < 10 ^ 21 * scale ->
  (2 * n - 1) * scale <= 200 * a < (2 * n + 1) * scale ->
  toFixed 2 (Fin a) = fixed_text 2 n.
Proof.
  intros Ha Hn. rewrite toFixed_fixed_text by exact Ha. f_equal.
  pose proof scale_pos as HS. change (10 ^ Z.of_nat 2) with 100.
  symmetry. apply (Z.div_unique _ _ _ (2 * a * 100 + scale - 2 * scale * n)); lia.
Qed.

Lemma blur_positive f a :
  parseFloat (amount_field f) = Fin a -> 0 < a ->
  amount_field (on_amount_blur f) = toFixed 2 (Fin a)
  /\ currency_field (on_amount_blur f) = currency_field f
  /\ transaction_type_field (on_amount_blur f) = transaction_type_field f.
Proof.
  intros E H. unfold on_amount_blur. rewrite E. cbn [is_nan negb andb gtb ltb zero].
  replace (0 <? a) with true by (symmetry; apply Z.ltb_lt; lia).
  cbn [amount_field currency_field transaction_type_field]. auto.
Qed.

Lemma scale_bound : 10 ^ 4 * scale < 10 ^ 21 * scale.
Proof. pose proof scale_pos. apply Z.mul_lt_mono_pos_r; lia. Qed.

End BlurFacts.
Import BlurFacts.


Module RoundTripFacts.

(** *** Reading digits *)

Lemma is_digit_value c : is_digit c = true -> digit_value 10 c = Some (code c - 48).
Proof.
  unfold is_digit, digit_value. cbv zeta. intros H. rewrite H.
  apply andb_true_iff in H as [H1 H2]. apply Z.leb_le in H1, H2.
  replace (code c - 48 <? 10) with true by (symmetry; apply Z.ltb_lt; lia).
  reflexivity.
Qed.

Lemma scan_digits_run D : forall rest acc n,
  all_digits D = true -> ends_digits rest ->
  scan_digits 10 (D ++ rest) acc n
  = (digits_value D acc, n + Z.of_nat (length D), rest).
Proof.
  induction D as [| c D IH]; intros rest acc n H E.
  - cbn. rewrite Z.add_0_r. destruct rest as [| c r]; [reflexivity |].
    cbn in E |- *. now rewrite E.
  - cbn [all_digits] in H. apply andb_true_iff in H as [Hc HD].
    cbn [append scan_digits digits_value]. rewrite (is_digit_value c Hc).
    rewrite IH by assumption. f_equal. f_equal. cbn [length]. lia.
Qed.

Lemma digits_value_app D1 D2 acc :
  digits_value (D1 ++ D2) acc = digits_value D2 (digits_value D1 acc).
Proof.
  revert acc. induction D1 as [| c D IH]; intros acc; cbn [append digits_value];
    [reflexivity | apply IH].
Qed.

Lemma digits_value_zeros j : digits_value (zeros j) 0 = 0.
Proof. induction j as [| j IH]; [reflexivity | exact IH]. Qed.

Lemma digits_value_decimal n : 0 <= n -> digits_value (decimal n) 0 = n.
Proof.
  intros H. destruct (decimal_reads_back n H) as [k E].
  pose proof (scan_digits_run (decimal n) "" 0 0 (decimal_all_digits n) I) as R.
  assert (A : decimal n ++ "" = decimal n).
  { generalize (decimal n). intros s. induction s as [| c s IH]; cbn; congruence. }
  rewrite A, E in R. congruence.
Qed.

Lemma substring_split m : forall j,
  (j <= length m)%nat -> substring 0 j m ++ substring j (length m - j) m = m.
Proof.
  induction m as [| c m IH]; intros j H.
  - destruct j; reflexivity.
  - destruct j as [| j].
    + cbn [substring append length Nat.sub]. f_equal.
      specialize (IH 0%nat ltac:(lia)). cbn [substring append] in IH.
      rewrite Nat.sub_0_r in IH.
      destruct m; [reflexivity |]. exact IH.
    + cbn [substring append length Nat.sub]. f_equal. apply IH. cbn in H. lia.
Qed.

(** *** What [toFixed(2)] prints reads back *)

Lemma digit_not_whitespace c : is_digit c = true -> is_whitespace c = false.
Proof.
  unfold is_digit, is_whitespace. cbv zeta. intros H.
  apply andb_true_iff in H as [H1 H2]. apply Z.leb_le in H1, H2.
  apply orb_false_iff. split; [apply orb_false_iff; split |].
  - apply andb_false_iff. right. apply Z.leb_gt. lia.
  - apply Z.eqb_neq. lia.
  - apply Z.eqb_neq. lia.
Qed.

Lemma point_not_whitespace : is_whitespace "." = false.
Proof. reflexivity. Qed.

Lemma digits_or_points_app a b :
  digits_or_points a = true -> digits_or_points b = true ->
  digits_or_points (a ++ b) = true.
Proof.
  induction a as [| c a IH]; cbn; intros Ha Hb; [exact Hb |].
  apply andb_true_iff in Ha as [-> Ha]. cbn. now apply IH.
Qed.

Lemma all_digits_or_points s : all_digits s = true -> digits_or_points s = true.
Proof.
  induction s as [| c s IH]; cbn; [auto |]. intros H.
  apply andb_true_iff in H as [-> H]. cbn. now apply IH.
Qed.

Lemma unit_not_whitespace c :
  (is_digit c || (c =? ".")%char) = true -> is_whitespace c = false.
Proof.
  intros H. apply orb_true_iff in H as [H | H].
  - now apply digit_not_whitespace.
  - apply Ascii.eqb_eq in H. subst c. reflexivity.
Qed.

Lemma trimEnd_digits s : digits_or_points s = true -> trimEnd s = s.
Proof.
  induction s as [| c s IH]; cbn [digits_or_points trimEnd]; [auto |]. intros H.
  apply andb_true_iff in H as [Hc Hs]. rewrite (IH Hs).
  destruct s; [| reflexivity]. now rewrite (unit_not_whitespace c Hc).
Qed.

Lemma trim_digits s : digits_or_points s = true -> trim s = s.
Proof.
  intros H. unfold trim.
  assert (S : trimStart s = s).
  { destruct s as [| c s]; [reflexivity |]. cbn in H |- *.
    apply andb_true_iff in H as [Hc _]. now rewrite (unit_not_whitespace c Hc). }
  rewrite S. now apply trimEnd_digits.
Qed.

Lemma digit_facts c :
  is_digit c = true ->
  (c =? "-")%char = false /\ (c =? "+")%char = false /\ (c =? ".")%char = false
  /\ (c =? "x")%char = false /\ (c =? "X")%char = false
  /\ (c =? "o")%char = false /\ (c =? "O")%char = false
  /\ (c =? "b")%char = false /\ (c =? "B")%char = false
  /\ "I"%char <> c.
Proof.
  intros H.
  assert (N : forall d, is_digit d = false -> (c =? d)%char = false).
  { intros d D. apply Ascii.eqb_neq. intros ->. congruence. }
  repeat (split; [apply N; reflexivity |]).
  intros <-. discriminate.
Qed.

(** The literal [whole.fraction], both parts digits and [whole] not
    empty, denotes the integer its digits spell, scaled by the length of
    the fraction. *)
Lemma scan_decimal_fixed whole fraction :
  all_digits whole = true -> whole <> "" -> all_digits fraction = true ->
  fraction <> "" ->
  scan_decimal (whole ++ "." ++ fraction)
  = Some (of_decimal (digits_value (whole ++ fraction) 0)
                     (- Z.of_nat (length fraction)), "").
Proof.
  intros Hw Nw Hf Nf.
  destruct whole as [| c0 w]; [congruence |].
  pose proof Hw as Hw'. cbn [all_digits] in Hw'.
  apply andb_true_iff in Hw' as [Hc0 _].
  destruct (digit_facts c0 Hc0) as (M & P & _ & _ & _ & _ & _ & _ & _ & NI).
  change (String c0 w ++ "." ++ fraction) with (String c0 (w ++ String "." fraction)).
  unfold scan_decimal. cbn [scan_sign]. rewrite M, P.
  unfold scan_unsigned.
  assert (Inf : forall rest, prefix "Infinity" (String c0 rest) = false).
  { intros rest. cbn [prefix]. destruct (ascii_dec "I" c0); [contradiction | reflexivity]. }
  rewrite Inf.
  change (String c0 (w ++ String "." fraction)) with (String c0 w ++ String "." fraction).
  rewrite (scan_digits_run (String c0 w) (String "." fraction) 0 0 Hw)
    by reflexivity.
  assert (L : (0 + Z.of_nat (length (String c0 w)) =? 0) = false).
  { apply Z.eqb_neq. cbn [length]. lia. }
  rewrite L. cbn [andb]. rewrite Ascii.eqb_refl.
  pose proof (scan_digits_run fraction "" (digits_value (String c0 w) 0) 0 Hf I) as R.
  assert (A : fraction ++ "" = fraction).
  { clear. induction fraction as [| c s IH]; cbn; congruence. }
  rewrite A in R. rewrite R. cbn [scan_exponent].
  rewrite digits_value_app.
  replace (0 - (0 + Z.of_nat (length fraction))) with (- Z.of_nat (length fraction))
    by lia.
  reflexivity.
Qed.

Lemma radix_prefix_fixed whole fraction :
  all_digits whole = true -> whole <> "" ->
  radix_prefix (whole ++ "." ++ fraction) = None.
Proof.
  intros Hw Nw. destruct whole as [| c0 [| c1 w]]; [congruence | |].
  - cbn. destruct (c0 =? "0")%char; reflexivity.
  - cbn [all_digits] in Hw. apply andb_true_iff in Hw as [_ Hw].
    apply andb_true_iff in Hw as [Hc1 _].
    destruct (digit_facts c1 Hc1) as (_ & _ & _ & X1 & X2 & O1 & O2 & B1 & B2 & _).
    cbn. rewrite X1, X2, O1, O2, B1, B2. destruct (c0 =? "0")%char; reflexivity.
Qed.

Lemma fixed_text_parts n :
  0 <= n ->
  exists whole fraction,
    fixed_text 2 n = whole ++ "." ++ fraction
    /\ all_digits whole = true /\ whole <> ""
    /\ all_digits fraction = true /\ length fraction = 2%nat
    /\ digits_value (whole ++ fraction) 0 = n.
Proof.
  intros Hn. unfold fixed_text.
  set (m := if (length (decimal n) <=? 2)%nat
            then zeros (2 + 1 - length (decimal n)) ++ decimal n else decimal n).
  assert (Hd : all_digits m = true).
  { subst m. destruct (length (decimal n) <=? 2)%nat;
      [apply all_digits_app; [apply zeros_all_digits |] |]; apply decimal_all_digits. }
  assert (Hl : (3 <= length m)%nat).
  { subst m. destruct (length (decimal n) <=? 2)%nat eqn:E.
    - apply Nat.leb_le in E. rewrite length_app, zeros_length.
      pose proof (decimal_nonempty n). lia.
    - apply Nat.leb_gt in E. lia. }
  assert (Hv : digits_value m 0 = n).
  { subst m. destruct (length (decimal n) <=? 2)%nat.
    - rewrite digits_value_app, digits_value_zeros. now apply digits_value_decimal.
    - now apply digits_value_decimal. }
  cbv zeta. fold m.
  exists (substring 0 (length m - 2) m), (substring (length m - 2) 2 m).
  split; [reflexivity |].
  assert (L1 : length (substring 0 (length m - 2) m) = (length m - 2)%nat)
    by (apply length_substring; lia).
  split; [now apply all_digits_substring |].
  split; [intros E; rewrite E in L1; cbn in L1; lia |].
  split; [now apply all_digits_substring |].
  split; [apply length_substring; lia |].
  pose proof (substring_split m (length m - 2) ltac:(lia)) as S.
  replace (length m - (length m - 2))%nat with 2%nat in S by lia.
  now rewrite S.
Qed.

(** The text [toFixed(2)] prints for [n] hundredths parses, with
    [parseFloat] and with [Number], to the number nearest to [n / 100]. *)
Lemma fixed_text_reads_back n :
  0 <= n ->
  parseFloat (fixed_text 2 n) = of_decimal n (-2)
  /\ StringToNumber (fixed_text 2 n) = of_decimal n (-2)
  /\ trim (fixed_text 2 n) = fixed_text 2 n
  /\ is_empty (fixed_text 2 n) = false.
Proof.
  intros Hn.
  destruct (fixed_text_parts n Hn) as (whole & fraction & -> & Hw & Nw & Hf & Lf & V).
  assert (Nf : fraction <> "") by (intros ->; discriminate).
  assert (T : trim (whole ++ "." ++ fraction) = whole ++ "." ++ fraction).
  { apply trim_digits. apply digits_or_points_app; [now apply all_digits_or_points |].
    cbn. now apply all_digits_or_points. }
  assert (E : is_empty (whole ++ "." ++ fraction) = false).
  { destruct whole; [congruence | reflexivity]. }
  pose proof (scan_decimal_fixed whole fraction Hw Nw Hf Nf) as S.
  rewrite V, Lf in S. change (- Z.of_nat 2) with (-2) in S.
  split; [| split; [| split]]; try assumption.
  - unfold parseFloat.
    pose proof (trimStart_trim (whole ++ "." ++ fraction)) as X. rewrite T in X.
    now rewrite X, S.
  - unfold StringToNumber. rewrite T, E, (radix_prefix_fixed _ _ Hw Nw), S.
    reflexivity.
Qed.

(** *** Rounding twice to hundredths *)

Lemma round_half_even_error a b :
  0 <= a -> 0 < b -> 2 * Z.abs (round_half_even a b * b - a) <= b.
Proof.
  intros Ha Hb. unfold round_half_even.
  pose proof (Z.div_mod a b ltac:(lia)) as D.
  pose proof (Z.mod_pos_bound a b Hb) as M.
  destruct (Z.ltb_spec (2 * (a mod b)) b); [nia |].
  destruct (Z.ltb_spec b (2 * (a mod b))); [nia |].
  destruct (Z.even (a / b)); nia.
Qed.

(** Below [2^45] the number nearest to [n / 100] is within half a
    hundredth of it, and prints as [n] hundredths again. *)
Lemma hundredths_round_trip n :
  0 <= n <= 100 * 2 ^ 45 ->
  exists z, of_decimal n (-2) = Fin z
            /\ 0 <= z < 10 ^ 21 * scale
            /\ (0 < n -> 0 < z)
            /\ (2 * n - 1) * scale <= 200 * z < (2 * n + 1) * scale.
Proof.
  intros [H0 H1]. pose proof scale_pos as HS.
  unfold of_decimal. change (0 <=? -2) with false. cbv iota.
  change (10 ^ (- -2)) with 100.
  unfold round_ratio.
  replace (n * scale <? 0) with false by (symmetry; apply Z.ltb_ge; nia).
  unfold round_magnitude.
  set (t := n * scale / 100).
  set (k := Z.max 0 (Z.log2 t - 52)).
  assert (Ht : 0 <= t) by (apply Z.div_pos; nia).
  assert (Tb : t < 2 ^ 1120).
  { unfold t. apply Z.div_lt_upper_bound; [lia |].
    replace (2 ^ 1120) with (2 ^ 46 * scale)
      by (unfold scale; rewrite <- Z.pow_add_r by lia; reflexivity).
    nia. }
  assert (Hk : 0 <= k <= 1067).
  { unfold k. split; [lia |].
    destruct (Z.eq_dec t 0) as [-> | N]; [cbn; lia |].
    assert (Z.log2 t < 1120) by (apply Z.log2_lt_pow2; lia). lia. }
  assert (P : 0 < 2 ^ k) by (apply Z.pow_pos_nonneg; lia).
  assert (K : 128 * 2 ^ k <= scale).
  { unfold scale. replace 128 with (2 ^ 7) by reflexivity.
    rewrite <- Z.pow_add_r by lia. apply Z.pow_le_mono_r; lia. }
  pose proof (round_half_even_error (n * scale) (100 * 2 ^ k) ltac:(nia) ltac:(nia)) as R.
  pose proof (round_half_even_lower (n * scale) (100 * 2 ^ k)) as Lo.
  set (q := round_half_even (n * scale) (100 * 2 ^ k)) in *.
  assert (Q0 : 0 <= q).
  { etransitivity; [| exact Lo]. apply Z.div_pos; nia. }
  set (z := q * 2 ^ k).
  assert (Err : 2 * Z.abs (100 * z - n * scale) <= 100 * 2 ^ k).
  { unfold z. replace (100 * (q * 2 ^ k)) with (q * (100 * 2 ^ k)) by ring. exact R. }
  assert (Zb : 0 <= z) by (unfold z; nia).
  assert (Up : 100 * z < 100 * (10 ^ 21 * scale)).
  { assert (n * scale <= 100 * 2 ^ 45 * scale) by nia.
    assert (100 * 2 ^ 45 * scale + scale < 100 * (10 ^ 21 * scale)) by nia.
    lia. }
  exists z. split.
  - replace (overflow_threshold <=? z) with false; [reflexivity |].
    symmetry. apply Z.leb_gt.
    assert (10 ^ 21 * scale < overflow_threshold).
    { unfold overflow_threshold, scale.
      replace 2098 with (1024 + 1074) by lia. rewrite Z.pow_add_r by lia.
      apply Z.mul_lt_mono_pos_r; [apply Z.pow_pos_nonneg; lia | reflexivity]. }
    lia.
  - split; [lia |]. split; [| lia].
    intros Hn. assert (n * scale >= scale) by nia. lia.
Qed.

End RoundTripFacts.

Import RoundTripFacts.


Module LocatorMoreFacts.

Lemma filter_all {A : Type} (l : list A) : filter (fun _ => true) l = l.
Proof. induction l as [| x r IH]; cbn; [reflexivity | now rewrite IH]. Qed.

Lemma filterM_filter {A : Type} (f : A -> result bool) l l' :
  filterM f l = Ok l' -> l' = filter (verdict f) l.
Proof.
  revert l'. induction l as [| x r IH]; cbn; intros l' H.
  - now inversion H.
  - unfold verdict at 1. destruct (f x) as [b |]; [| discriminate]. cbn [bind] in H.
    destruct (filterM f r) as [r' |]; [| discriminate]. cbn [bind] in H.
    inversion H; subst. rewrite (IH r' eq_refl). reflexivity.
Qed.

Lemma filterM_ext {A : Type} (f g : A -> result bool) l :
  (forall x, f x = g x) -> filterM f l = filterM g l.
Proof.
  intros H. induction l as [| x r IH]; cbn; [reflexivity |].
  now rewrite H, IH.
Qed.

(** A callback that raises on some element makes [filter] raise. *)
Lemma filterM_throw {A : Type} (f : A -> result bool) (e : exn) l x :
  In x l -> f x = Throw e ->
  (forall y e', f y = Throw e' -> e' = e) ->
  filterM f l = Throw e.
Proof.
  intros Hin Hx Hall. induction l as [| y r IH]; [contradiction |].
  cbn. destruct (f y) as [b |] eqn:Fy.
  - cbn [bind]. destruct Hin as [-> | Hin]; [congruence |].
    rewrite (IH Hin). reflexivity.
  - cbn [bind]. f_equal. eapply Hall; eauto.
Qed.

(** A callback that goes on after another one raises when it does. *)
Lemma filterM_after {A : Type} (g : A -> result bool) (h : A -> bool -> bool) l :
  match filterM g l with
  | Ok _ => exists l', filterM (fun x => b <- g x ;; Ok (h x b)) l = Ok l'
  | Throw e => filterM (fun x => b <- g x ;; Ok (h x b)) l = Throw e
  end.
Proof.
  induction l as [| x r IH]; cbn; [eauto |].
  destruct (g x) as [b |]; cbn [bind]; [| reflexivity].
  destruct (filterM g r) as [r' |]; cbn [bind].
  - destruct IH as [l' ->]. cbn [bind]. eauto.
  - rewrite IH. reflexivity.
Qed.

Section WithHost.
Context {host : Host} {display : Display}.

(** *** The loading flag *)

Lemma sortAgents_isLoading sortBy s :
  isLoading (snd (sortAgents sortBy s)) = isLoading s.
Proof. rewrite sortAgents_cases. destruct (sort _ _); reflexivity. Qed.

Lemma applyCurrentFilters_isLoading c s :
  isLoading (snd (applyCurrentFilters c s)) = isLoading s.
Proof.
  rewrite applyCurrentFilters_cases. destruct (filterM _ _); [| reflexivity].
  now rewrite sortAgents_isLoading.
Qed.

Lemma applyFilters_isLoading c s :
  isLoading (snd (applyFilters c s)) = isLoading s.
Proof.
  unfold applyFilters. rewrite mbind_updateDisplay_state.
  apply applyCurrentFilters_isLoading.
Qed.

Lemma performSearch_isLoading c s :
  isLoading (snd (performSearch c s)) = isLoading s.
Proof.
  rewrite performSearch_cases.
  destruct (if is_empty _ then _ else _); [| reflexivity].
  rewrite mbind_updateDisplay_state. now rewrite applyCurrentFilters_isLoading.
Qed.

Lemma clearFilters_isLoading s : isLoading (snd (clearFilters s)) = isLoading s.
Proof.
  unfold clearFilters, mbind, read, modify, updateDisplay, throw, ret, showMessage.
  cbn. destruct (draw _); reflexivity.
Qed.

Lemma loadAgents_resume_isLoading r s :
  isLoading (snd (loadAgents_resume r s)) = false.
Proof.
  rewrite loadAgents_resume_cases. cbv zeta.
  destruct r as [response | status responseJSON]; [| reflexivity].
  destruct (nullish response); [reflexivity |].
  destruct (_ && _); [| reflexivity].
  destruct (processAgentsData _ _) as [[[] | e] s']; reflexivity.
Qed.

Lemma loadAgents_call_cases s :
  loadAgents_call s = if isLoading s then (Ok false, s) else (Ok true, set_isLoading true s).
Proof.
  unfold loadAgents_call, mbind, read, modify, ret. destruct (isLoading s); reflexivity.
Qed.

Lemma flight_step e s n :
  (n <= 1)%nat -> isLoading s = (n =? 1)%nat ->
  match e with LoadSettled _ => (0 <? n)%nat | _ => true end = true ->
  (awaited e s n <= 1)%nat
  /\ isLoading (snd (handle e s)) = (awaited e s n =? 1)%nat.
Proof.
  intros Hn Hl Hf. destruct e as [| r | v | c | c |]; cbn [handle awaited sends].
  - unfold mbind at 1. rewrite loadAgents_call_cases.
    destruct (isLoading s) eqn:L; cbn.
    + split; [exact Hn |]. congruence.
    + assert (n = 0%nat).
      { destruct n as [| [| n]]; [reflexivity | discriminate | lia]. }
      subst n. split; [lia | reflexivity].
  - apply Nat.ltb_lt in Hf. assert (n = 1%nat) by lia. subst n.
    split; [cbn; lia |]. apply loadAgents_resume_isLoading.
  - split; [exact Hn |]. now rewrite processAgentsData_isLoading.
  - split; [exact Hn |]. now rewrite performSearch_isLoading.
  - split; [exact Hn |]. now rewrite applyFilters_isLoading.
  - split; [exact Hn |]. now rewrite clearFilters_isLoading.
Qed.

Lemma flight_invariant events : forall s n,
  (n <= 1)%nat -> isLoading s = (n =? 1)%nat ->
  feasible events s n = true ->
  (in_flight events s n <= 1)%nat
  /\ isLoading (run events s) = (in_flight events s n =? 1)%nat.
Proof.
  induction events as [| e rest IH]; intros s n Hn Hl Hf; cbn; [auto |].
  cbn [feasible] in Hf. apply andb_true_iff in Hf as [H1 H2].
  destruct (flight_step e s n Hn Hl H1) as [A B].
  now apply IH.
Qed.

(** *** Searching is applying the filters *)

Lemma keeps_after_search c agent :
  is_empty (searchTerm_of c) = false ->
  keeps c agent
  = (b <- searchInAgent agent (searchTerm_of c) ;;
     Ok (b && option_matches (region_filter c) (prop agent "province")
           && option_matches (area_filter c) (prop agent "city"))).
Proof. intros E. unfold keeps. cbv zeta. rewrite E. reflexivity. Qed.

Lemma keeps_blank c agent :
  is_empty (searchTerm_of c) = true ->
  keeps c agent
  = Ok (option_matches (region_filter c) (prop agent "province")
        && option_matches (area_filter c) (prop agent "city")).
Proof. intros E. unfold keeps. cbv zeta. rewrite E. reflexivity. Qed.

(** Once the callback of its [filter] does not raise, what
    [applyCurrentFilters] does is independent of the filtered list it
    finds. *)
Lemma applyCurrentFilters_overwrites c l s kept :
  filterM (keeps c) (agents s) = Ok kept ->
  applyCurrentFilters c (set_filteredAgents l s) = applyCurrentFilters c s.
Proof.
  intros K. rewrite !applyCurrentFilters_cases. cbn [agents set_filteredAgents].
  rewrite K. reflexivity.
Qed.

Lemma applyFilters_overwrites c l s kept :
  filterM (keeps c) (agents s) = Ok kept ->
  applyFilters c (set_filteredAgents l s) = applyFilters c s.
Proof.
  intros K. unfold applyFilters, mbind.
  now rewrite (applyCurrentFilters_overwrites c l s kept K).
Qed.

Lemma applyFilters_again c s : applyFilters c (snd (applyFilters c s)) = applyFilters c s.
Proof.
  destruct (filterM (keeps c) (agents s)) as [kept | e] eqn:K.
  - assert (S : exists l, snd (applyFilters c s) = set_filteredAgents l s).
    { unfold applyFilters. rewrite mbind_updateDisplay_state.
      rewrite applyCurrentFilters_cases, K, sortAgents_cases.
      destruct (sort _ _) as [sorted | e]; cbn; [exists sorted | exists kept]; reflexivity. }
    destruct S as [l ->]. now apply (applyFilters_overwrites c l s kept).
  - assert (S : snd (applyFilters c s) = s).
    { unfold applyFilters. rewrite mbind_updateDisplay_state.
      now rewrite applyCurrentFilters_cases, K. }
    now rewrite S.
Qed.

(** *** What is listed is a selection of what is stored *)

Lemma selection_all s : filteredAgents s = agents s -> selection s.
Proof. intros E. exists (fun _ => true). now rewrite filter_all, E. Qed.

Lemma applyFilters_selection c s : selection s -> selection (snd (applyFilters c s)).
Proof.
  intros H. unfold applyFilters. rewrite mbind_updateDisplay_state.
  rewrite applyCurrentFilters_cases.
  destruct (filterM (keeps c) (agents s)) as [kept |] eqn:K; [| exact H].
  destruct (sortAgents_lists (sort_filter c) (set_filteredAgents kept s)) as [A P].
  exists (verdict (keeps c)). rewrite A, P. cbn.
  now rewrite (filterM_filter _ _ _ K).
Qed.

Lemma handle_selection e s : selection s -> selection (snd (handle e s)).
Proof.
  intros H. destruct e as [| r | v | c | c |]; cbn [handle].
  - destruct (loadAgents_call_lists s) as [A F].
    destruct H as [keep P]. exists keep. now rewrite A, F.
  - destruct (loadAgents_resume_lists r s) as [[A F] | (v & _ & _ & F)].
    + destruct H as [keep P]. exists keep. now rewrite A, F.
    + now apply selection_all.
  - destruct (processAgentsData_filtered v s) as [F | [F A]].
    + now apply selection_all.
    + destruct H as [keep P]. exists keep. now rewrite A, F.
  - rewrite performSearch_cases.
    destruct (if is_empty (searchTerm_of c) then _ else _) as [kept |] eqn:F;
      [| exact H].
    apply (applyFilters_selection c (set_filteredAgents kept s)).
    destruct (is_empty (searchTerm_of c)).
    + inversion F; subst. now apply selection_all.
    + exists (verdict (fun agent => searchInAgent agent (searchTerm_of c))).
      cbn. now rewrite (filterM_filter _ _ _ F).
  - now apply applyFilters_selection.
  - apply selection_all. destruct (clearFilters_lists s) as [A F]. now rewrite A, F.
Qed.

Lemma run_selection events : forall s, selection s -> selection (run events s).
Proof.
  induction events as [| e rest IH]; intros s H; [exact H |].
  cbn [run]. now apply IH, handle_selection.
Qed.

(** *** A search field that is not a text *)

Lemma field_matches_throw term field e :
  field_matches term field = Throw e -> e = TypeError.
Proof.
  unfold field_matches. destruct (truthy field); [| discriminate].
  destruct field; try discriminate; now inversion 1.
Qed.

Lemma some_throw {A : Type} (f : A -> result bool) l e :
  some f l = Throw e -> exists x, In x l /\ f x = Throw e.
Proof.
  induction l as [| x r IH]; cbn; [discriminate |].
  destruct (f x) as [[] |] eqn:F; cbn [bind].
  - discriminate.
  - intros H. destruct (IH H) as (y & Hy & E). eauto.
  - intros H. inversion H; subst. eauto.
Qed.

Lemma searchInAgent_throw agent term e :
  searchInAgent agent term = Throw e -> e = TypeError.
Proof.
  unfold searchInAgent. intros H. apply some_throw in H as (x & _ & H).
  eapply field_matches_throw; eauto.
Qed.

Lemma some_no_match term fields :
  forallb text_or_absent fields = false ->
  existsb (field_contains term) fields = false ->
  some (field_matches term) fields = Throw TypeError.
Proof.
  induction fields as [| field r IH]; cbn; [discriminate |].
  intros T M. apply orb_false_iff in M as [M1 M2].
  destruct (text_or_absent field) eqn:F.
  - rewrite (field_matches_pure term field F), M1. cbn [bind]. now apply IH.
  - assert (Tr : truthy field = true).
    { unfold text_or_absent in F. destruct field; try discriminate;
        now apply negb_false_iff in F. }
    unfold field_matches. rewrite Tr.
    destruct field; try reflexivity. discriminate F.
Qed.

Lemma searchInAgent_not_text agent term :
  searchable agent = false -> matches term agent = false ->
  searchInAgent agent term = Throw TypeError.
Proof. unfold searchable, matches, searchInAgent. apply some_no_match. Qed.

Lemma keeps_throw c agent e : keeps c agent = Throw e -> e = TypeError.
Proof.
  unfold keeps. cbv zeta. destruct (is_empty (searchTerm_of c)); [discriminate |].
  destruct (searchInAgent agent (searchTerm_of c)) eqn:S; [discriminate |].
  cbn [bind]. intros H. inversion H; subst. eapply searchInAgent_throw; eauto.
Qed.

(** *** Markers *)

Lemma has_position_required agent :
  has_required_fields agent = true -> has_position agent = Ok true.
Proof.
  unfold has_required_fields, has_position, get. intros H.
  repeat (apply andb_true_iff in H as [H ?]).
  assert (N : nullish agent = false) by (destruct agent; try discriminate; reflexivity).
  rewrite N. cbn [bind].
  repeat match goal with E : truthy _ = true |- _ => rewrite E; clear E end.
  reflexivity.
Qed.

Section WithMap.
Context {library : MapLibrary}.

Lemma required_truthy agent :
  has_required_fields agent = true ->
  truthy agent = true /\ truthy (prop agent "representative") = true.
Proof.
  unfold has_required_fields. intros H.
  repeat (apply andb_true_iff in H as [H ?]). auto.
Qed.

Lemma createMarker_named agent :
  has_required_fields agent = true -> has_name agent = true ->
  marker_fault agent = None ->
  exists initials,
    getInitials (prop agent "representative") = Ok initials
    /\ createMarker agent = Ok {| agentData := agent; icon := initials |}.
Proof.
  intros R N F. destruct (required_truthy agent R) as [T1 T2].
  unfold createMarker, createCustomIcon. rewrite T1, F.
  unfold has_name in N. unfold getInitials. rewrite T2. cbn [negb].
  destruct (prop agent "representative") as [| | | | text | | |];
    try discriminate N.
  cbv zeta. destruct (split_nonempty " " (trim text)) as (w0 & ws & ->).
  destruct ws; cbn [bind]; eauto.
Qed.

Lemma createMarker_unnamed agent :
  has_required_fields agent = true -> has_name agent = false ->
  createMarker agent = Throw TypeError.
Proof.
  intros R N. destruct (required_truthy agent R) as [T1 T2].
  unfold createMarker, createCustomIcon. rewrite T1.
  unfold has_name in N. unfold getInitials. rewrite T2. cbn [negb].
  destruct (prop agent "representative"); try reflexivity. discriminate N.
Qed.

(** As long as the names are texts and the library raises nothing, each
    agent gets its marker. *)
Lemma add_markers_named : forall l markers,
  Forall (fun a => has_required_fields a = true) l ->
  Forall (fun a => has_name a = true) l ->
  Forall (fun a => marker_fault a = None /\ layer_fault a = None) l ->
  exists added,
    add_markers l markers = (Ok tt, (markers ++ added)%list)
    /\ map agentData added = l
    /\ Forall (fun m => getInitials (prop (agentData m) "representative")
                        = Ok (icon m)) added.
Proof.
  induction l as [| agent r IH]; intros markers R N F.
  - exists []. cbn. now rewrite app_nil_r.
  - inversion R as [| ? ? R1 R2]; inversion N as [| ? ? N1 N2];
      inversion F as [| ? ? [F1 F1'] F2]; subst.
    destruct (createMarker_named agent R1 N1 F1) as (initials & G & C).
    destruct (IH (markers ++ [{| agentData := agent; icon := initials |}])%list
                R2 N2 F2) as (added & E & M & I).
    exists ({| agentData := agent; icon := initials |} :: added).
    cbn [add_markers]. rewrite (has_position_required agent R1), C, F1', E.
    rewrite <- app_assoc. cbn [app map agentData]. rewrite M.
    split; [reflexivity | split; [reflexivity |]].
    constructor; [exact G | exact I].
Qed.

(** The first agent whose name is not a text ends the loop. *)
Lemma add_markers_unnamed : forall before markers agent after,
  Forall (fun a => has_required_fields a = true) (before ++ agent :: after) ->
  Forall (fun a => has_name a = true) before ->
  Forall (fun a => marker_fault a = None /\ layer_fault a = None) before ->
  has_name agent = false ->
  exists added,
    add_markers (before ++ agent :: after) markers
    = (Throw TypeError, (markers ++ added)%list)
    /\ map agentData added = before.
Proof.
  induction before as [| b r IH]; intros markers agent after R N F U.
  - inversion R as [| ? ? R1 R2]; subst. exists [].
    cbn [app add_markers]. rewrite (has_position_required agent R1).
    rewrite (createMarker_unnamed agent R1 U). now rewrite app_nil_r.
  - cbn [app] in R. inversion R as [| ? ? R1 R2]; inversion N as [| ? ? N1 N2];
      inversion F as [| ? ? [F1 F1'] F2]; subst.
    destruct (createMarker_named b R1 N1 F1) as (initials & G & C).
    destruct (IH (markers ++ [{| agentData := b; icon := initials |}])%list
                agent after R2 N2 F2 U) as (added & E & M).
    exists ({| agentData := b; icon := initials |} :: added).
    cbn [app add_markers]. rewrite (has_position_required b R1), C, F1', E.
    rewrite <- app_assoc. cbn [app map agentData]. now rewrite M.
Qed.

End WithMap.

End WithHost.
End LocatorMoreFacts.

Import LocatorMoreFacts.

Module OptionsFacts.

Lemma Permutation_filter {A : Type} (f : A -> bool) l l' :
  Permutation l l' -> Permutation (filter f l) (filter f l').
Proof.
  induction 1 as [| x l l' _ IH | x y l | l l' l'' _ IH1 _ IH2]; cbn.
  - constructor.
  - destruct (f x); [now constructor | exact IH].
  - destruct (f x), (f y); try reflexivity. apply perm_swap.
  - now transitivity (filter f l').
Qed.

Lemma SameValueZero_text text w :
  SameValueZero (VStr text) w = true -> w = VStr text.
Proof.
  unfold SameValueZero. destruct w; cbn; try discriminate.
  rewrite orb_false_r. intros H. apply String.eqb_eq in H. now subst.
Qed.

Lemma strict_eq_text text w : strict_eq (VStr text) w = true -> w = VStr text.
Proof.
  destruct w; cbn; try discriminate. intros H. apply String.eqb_eq in H. now subst.
Qed.

Lemma SameValueZero_refl_text text : SameValueZero (VStr text) (VStr text) = true.
Proof. unfold SameValueZero. cbn. now rewrite String.eqb_refl. Qed.

Lemma add_all_seen l : forall seen v, In v seen -> In v (add_all seen l).
Proof.
  induction l as [| x r IH]; intros seen v H; cbn; [exact H |].
  destruct (existsb _ seen); apply IH; [exact H |].
  apply in_or_app. now left.
Qed.

Lemma add_all_in l : forall seen v, In v (add_all seen l) -> In v seen \/ In v l.
Proof.
  induction l as [| x r IH]; intros seen v; cbn; [auto |].
  destruct (existsb _ seen); intros H; apply IH in H as [H | H]; auto.
  apply in_app_or in H as [H | [<- | []]]; auto.
Qed.

Lemma add_all_text l text : forall seen,
  In (VStr text) l -> In (VStr text) (add_all seen l).
Proof.
  induction l as [| x r IH]; intros seen; [contradiction |].
  intros [-> | H]; cbn.
  - destruct (existsb (SameValueZero (VStr text)) seen) eqn:E.
    + apply existsb_exists in E as (w & Hw & E).
      apply SameValueZero_text in E. subst w. now apply add_all_seen.
    + apply add_all_seen, in_or_app. right. now left.
  - destruct (existsb _ seen); now apply IH.
Qed.

Lemma add_all_once l text : forall seen,
  (List.length (filter (strict_eq (VStr text)) seen) <= 1)%nat ->
  (List.length (filter (strict_eq (VStr text)) (add_all seen l)) <= 1)%nat.
Proof.
  induction l as [| x r IH]; intros seen H; cbn; [exact H |].
  destruct (existsb (SameValueZero x) seen) eqn:E; apply IH; [exact H |].
  rewrite filter_app, List.length_app. cbn [filter].
  destruct (strict_eq (VStr text) x) eqn:X; [| cbn; lia].
  apply strict_eq_text in X. subst x.
  assert (N : filter (strict_eq (VStr text)) seen = []).
  { destruct (filter (strict_eq (VStr text)) seen) as [| w ws] eqn:F; [reflexivity |].
    assert (I : In w (filter (strict_eq (VStr text)) seen)) by (rewrite F; now left).
    apply filter_In in I as [I1 I2].
    assert (existsb (SameValueZero (VStr text)) seen = true).
    { apply existsb_exists. exists w. split; [exact I1 |].
      unfold SameValueZero. now rewrite I2. }
    congruence. }
  rewrite N. cbn. lia.
Qed.

(** *** The value of an option *)

Lemma code_inj c d : code c = code d -> c = d.
Proof.
  unfold code. intros H. apply N2Z.inj in H.
  rewrite <- (ascii_N_embedding c), <- (ascii_N_embedding d). now rewrite H.
Qed.

Lemma before_quote_all : forall s,
  ~ In quotation_mark (units s) -> before_quote s = s.
Proof.
  induction s as [| c r IH]; cbn [before_quote list_ascii_of_string];
    [reflexivity |]. intros H.
  destruct (Ascii.eqb_spec c quotation_mark) as [-> | _]; [exfalso; apply H; now left |].
  rewrite IH; [reflexivity |]. intros I. apply H. now right.
Qed.

Lemma normalize_cons c t :
  (code c =? 13) = false ->
  normalize_newlines (String c t) = String c (normalize_newlines t).
Proof. intros H. cbn [normalize_newlines]. now rewrite H. Qed.

(** A CR that no LF follows becomes an LF. *)
Lemma normalize_cr c t :
  code c = 13 ->
  (forall d t', t = String d t' -> (code d =? 10) = false) ->
  normalize_newlines (String c t)
  = String (ascii_of_N 10) (normalize_newlines t).
Proof.
  intros C H. cbn [normalize_newlines]. rewrite C. cbn [Z.eqb Pos.eqb].
  destruct t as [| d t']; [reflexivity |]. now rewrite (H d t' eq_refl).
Qed.

Lemma normalize_crlf c d t :
  code c = 13 -> code d = 10 ->
  normalize_newlines (String c (String d t)) = String d (normalize_newlines t).
Proof. intros C D. cbn [normalize_newlines]. rewrite C, D. reflexivity. Qed.

Lemma normalize_plain : forall s,
  ~ In carriage_return (units s) -> normalize_newlines s = s.
Proof.
  induction s as [| c r IH]; [reflexivity |]. intros H.
  rewrite normalize_cons.
  - rewrite IH; [reflexivity |]. intros I. apply H. now right.
  - apply Z.eqb_neq. intros E. apply H. left.
    apply code_inj. rewrite E. reflexivity.
Qed.

Lemma tokenizer_plain c t :
  (c =? quotation_mark)%char = false -> (c =? "&")%char = false ->
  (code c =? 0) = false ->
  attribute_value (String c t) None = option_map (String c) (attribute_value t None).
Proof. intros Q A Z. cbn [attribute_value]. now rewrite Q, A, Z. Qed.

Lemma reference_read (name : string) (d : ascii) (t : string) :
  reference name = Some d ->
  attribute_value (String "&" (name ++ String ";" t)) None
  = option_map (String d) (attribute_value t None).
Proof.
  unfold reference.
  repeat match goal with
         | |- context [(name =? ?k)%string] =>
             destruct (String.eqb_spec name k) as [-> | _];
             [intros H; inversion H; subst; reflexivity |]
         end.
  discriminate.
Qed.

Lemma append_associative : forall a b c : string, (a ++ b) ++ c = a ++ (b ++ c).
Proof. induction a as [| x a IH]; intros b c; cbn; [reflexivity | now rewrite IH]. Qed.

Lemma as_read_cons c r :
  (c =? quotation_mark)%char = false -> (code c =? 13) = false ->
  as_read (String c r)
  = if code c =? 0 then None else option_map (String c) (as_read r).
Proof.
  intros Q C. unfold as_read. cbn [before_quote]. rewrite Q.
  cbn [nul_free]. rewrite normalize_cons by exact C.
  destruct (code c =? 0); cbn [negb andb]; [reflexivity |].
  destruct (nul_free (before_quote r)); reflexivity.
Qed.

(** The first code unit of an escaped text is no LF unless that of the
    text is. *)
Lemma serialize_head d r :
  (code d =? 10) = false ->
  forall h t, serialize_text (String d r) = String h t -> (code h =? 10) = false.
Proof.
  intros D h t. cbn [serialize_text]. unfold escape_unit.
  destruct (d =? "&")%char; [intros E; inversion E; reflexivity |].
  destruct (d =? "<")%char; [intros E; inversion E; reflexivity |].
  destruct (d =? ">")%char; [intros E; inversion E; reflexivity |].
  destruct (code d =? 160); [intros E; inversion E; reflexivity |].
  cbn [append]. intros E. inversion E. now subst.
Qed.

Lemma attribute_value_serialized rest : forall n s,
  (String.length s <= n)%nat ->
  attribute_value
    (normalize_newlines (serialize_text s ++ String quotation_mark rest)) None
  = as_read s.
Proof.
  assert (Stop : forall t,
            attribute_value (normalize_newlines (String quotation_mark t)) None
            = Some "") by reflexivity.
  induction n as [| n IH]; intros s L.
  { destruct s; [apply Stop | cbn in L; lia]. }
  destruct s as [| c r]; [apply Stop |].
  cbn [String.length] in L. assert (Lr : (String.length r <= n)%nat) by lia.
  destruct (Ascii.eqb_spec c quotation_mark) as [-> | NQ]; [apply Stop |].
  apply Ascii.eqb_neq in NQ.
  assert (Ref : forall name d,
            reference name = Some d -> (code d =? 13) = false ->
            (code d =? 0) = false -> (d =? quotation_mark)%char = false ->
            normalize_newlines
              ((String "&" (name ++ ";")) ++ serialize_text r
               ++ String quotation_mark rest)
            = String "&" (name ++ String ";"
                (normalize_newlines (serialize_text r ++ String quotation_mark rest))) ->
            escape_unit d = String "&" (name ++ ";") ->
            c = d ->
            attribute_value
              (normalize_newlines
                 (serialize_text (String c r) ++ String quotation_mark rest)) None
            = as_read (String c r)).
  { intros name d R C13 C0 Q N E ->. cbn [serialize_text]. rewrite E.
    rewrite append_associative, N, (reference_read name d _ R), (IH r Lr).
    rewrite as_read_cons by assumption. now rewrite C0. }
  destruct (Ascii.eqb_spec c "&") as [E | N1].
  { apply (Ref "amp" "&"%char); auto; reflexivity. }
  destruct (Ascii.eqb_spec c "<") as [E | N2].
  { apply (Ref "lt" "<"%char); auto; reflexivity. }
  destruct (Ascii.eqb_spec c ">") as [E | N3].
  { apply (Ref "gt" ">"%char); auto; reflexivity. }
  destruct (code c =? 160) eqn:N4.
  { apply (Ref "nbsp" (ascii_of_N 160)); auto; try reflexivity.
    apply code_inj. apply Z.eqb_eq in N4. rewrite N4. reflexivity. }
  clear Ref. apply Ascii.eqb_neq in N1, N2, N3.
  assert (Plain : escape_unit c = String c "").
  { unfold escape_unit. now rewrite N1, N2, N3, N4. }
  cbn [serialize_text]. rewrite Plain. cbn [append].
  destruct (code c =? 13) eqn:C13.
  - apply Z.eqb_eq in C13.
    assert (C0 : (code c =? 0) = false) by (rewrite C13; reflexivity).
    assert (LF : forall t, attribute_value (String (ascii_of_N 10) t) None
                           = option_map (String (ascii_of_N 10)) (attribute_value t None))
      by reflexivity.
    destruct r as [| d r'].
    + cbn [serialize_text append].
      rewrite normalize_cr by (auto; intros d t' E; inversion E; reflexivity).
      rewrite LF, Stop. unfold as_read. cbn [before_quote]. rewrite NQ.
      cbn [nul_free]. rewrite C0. cbn [negb andb].
      rewrite normalize_cr by (auto; intros d t' E; discriminate E). reflexivity.
    + destruct (code d =? 10) eqn:D10.
      * apply Z.eqb_eq in D10.
        assert (Ed : d = ascii_of_N 10) by (apply code_inj; rewrite D10; reflexivity).
        subst d. change (serialize_text (String (ascii_of_N 10) r'))
          with (String (ascii_of_N 10) (serialize_text r')).
        cbn [append]. rewrite normalize_crlf by (auto; reflexivity).
        rewrite LF, (IH r') by (cbn [String.length] in Lr; lia).
        unfold as_read. cbn [before_quote]. rewrite NQ.
        change (ascii_of_N 10 =? quotation_mark)%char with false.
        cbn [nul_free]. rewrite C0. change (code (ascii_of_N 10) =? 0) with false.
        cbn [negb andb]. rewrite normalize_crlf by (auto; reflexivity).
        destruct (nul_free (before_quote r')); reflexivity.
      * rewrite normalize_cr.
        2: exact C13.
        2: { intros h t E.
             destruct (serialize_text (String d r')) as [| h0 t0] eqn:S.
             - cbn [append] in E. inversion E. reflexivity.
             - cbn [append] in E. inversion E; subst.
               exact (serialize_head d r' D10 h t0 S). }
        rewrite LF, (IH (String d r') Lr).
        unfold as_read. cbn [before_quote]. rewrite NQ.
        cbn [nul_free]. rewrite C0. cbn [negb andb].
        rewrite normalize_cr.
        2: exact C13.
        2: { intros h t E. destruct (d =? quotation_mark)%char; [discriminate E |].
             inversion E. now subst. }
        destruct (if (d =? quotation_mark)%char then "" else String d (before_quote r'))
          eqn:B; destruct (nul_free _); reflexivity.
  - rewrite normalize_cons by exact C13.
    destruct (code c =? 0) eqn:C0.
    + cbn [attribute_value]. rewrite NQ, N1, C0.
      rewrite as_read_cons by assumption. now rewrite C0.
    + rewrite tokenizer_plain by assumption.
      rewrite (IH r Lr), as_read_cons by assumption. now rewrite C0.
Qed.

Lemma option_value_text text : option_value (VStr text) = as_read text.
Proof. exact (attribute_value_serialized _ _ text (le_n _)). Qed.

Section WithHost.
Context {host : Host}.

Lemma comes_after_default x y :
  comes_after default_compare x y
  = match String.compare (ToString x) (ToString y) with Gt => true | _ => false end.
Proof. unfold default_compare. apply comes_after_code_units. Qed.

Lemma default_sort_sorted l :
  StronglySorted (fun x y => comes_after default_compare x y = false)
                 (sort_by (comes_after default_compare) l).
Proof.
  apply (sort_by_sorted default_compare (fun _ => True)).
  - intros x y _ _. rewrite !comes_after_default.
    rewrite (String.compare_antisym (ToString y) (ToString x)).
    destruct (String.compare (ToString x) (ToString y)); cbn; congruence.
  - intros x y z _ _ _. rewrite !comes_after_default.
    pose proof (string_compare_trans (ToString x) (ToString y) (ToString z)) as H.
    destruct (String.compare (ToString x) (ToString y)),
             (String.compare (ToString y) (ToString z)),
             (String.compare (ToString x) (ToString z));
      try congruence; intros; exfalso; apply H; congruence.
  - apply Forall_forall. auto.
Qed.

(** Without a comparator [sort] cannot raise: it returns what the pure
    sort returns. *)
Lemma default_sort_pure l :
  sort (fun x y => Ok (default_compare x y)) l
  = Ok (sort_by (comes_after default_compare) l).
Proof. apply sort_pure. reflexivity. Qed.

Lemma options_of_in field l v :
  In v (options_of field l) <->
  In v (Set_of (filter truthy (map (fun agent => prop agent field) l))).
Proof. unfold options_of. apply sort_by_in. Qed.

Lemma options_of_text field l text :
  In (VStr text) (options_of field l) <->
  text <> "" /\ exists agent, In agent l /\ prop agent field = VStr text.
Proof.
  rewrite options_of_in. unfold Set_of. split.
  - intros H. apply add_all_in in H as [[] | H].
    apply filter_In in H as [H T]. apply in_map_iff in H as (agent & E & H).
    split; [| eauto]. intros ->. discriminate.
  - intros (N & agent & H & E). apply add_all_text. apply filter_In. split.
    + apply in_map_iff. eauto.
    + destruct text; [congruence | reflexivity].
Qed.

End WithHost.
End OptionsFacts.
Import OptionsFacts.


Module LocatorLoadFacts.
Section WithHost.
Context {host : Host} {display : Display}.

Lemma handle_grows e s : exists added, agents (snd (handle e s)) = (agents s ++ added)%list.
Proof.
  destruct (handle_agents e s) as [-> | (v & _ & ->)].
  - exists []. now rewrite app_nil_r.
  - destruct v; try (exists []; cbn; now rewrite app_nil_r).
    cbn. eauto.
Qed.

(** The message for anything raised that is not a rejected request. *)
Lemma errorMessage_default e :
  status_of e = VUndefined -> responseJSON_of e = VUndefined ->
  errorMessage e = "Failed to load agents. Please try again later.".
Proof.
  unfold errorMessage. intros -> ->. cbn [strict_eq].
  unfold geb, leb. cbn [ToNumber is_nan negb]. rewrite andb_false_r. reflexivity.
Qed.

End WithHost.
End LocatorLoadFacts.
Import LocatorLoadFacts.


Module NarrowingFacts.

Lemma prefix_shorter t u : forall s, prefix (t ++ u) s = true -> prefix t s = true.
Proof.
  induction t as [| a t IH]; intros s H; [destruct s; reflexivity |].
  destruct s as [| b s]; [discriminate |]. cbn in H |- *.
  destruct (ascii_dec a b); [now apply IH | discriminate].
Qed.

(** A text that contains a term contains every beginning of it. *)
Lemma includes_shorter t u : forall s, includes s (t ++ u) = true -> includes s t = true.
Proof.
  induction s as [| c s IH]; cbn [includes]; intros H.
  - rewrite orb_false_r in H |- *. now apply prefix_shorter in H.
  - apply orb_true_iff in H as [H | H]; apply orb_true_iff.
    + left. now apply prefix_shorter in H.
    + right. now apply IH.
Qed.

Section WithHost.
Context {host : Host}.

Lemma matches_shorter term more agent :
  matches (term ++ more) agent = true -> matches term agent = true.
Proof.
  unfold matches. rewrite !existsb_exists. intros (field & Hin & H).
  exists field. split; [exact Hin |]. unfold field_contains in *.
  destruct field; try discriminate.
  apply andb_true_iff in H as [H1 H2]. rewrite H1. cbn.
  now apply includes_shorter in H2.
Qed.

End WithHost.
End NarrowingFacts.

Import NarrowingFacts.


Module DebounceFacts.
Section WithArgs.
Context {A : Type}.

Lemma executedFunction_single (args : A) d :
  single d ->
  pending (executedFunction args d) = [(next_id d, args)]
  /\ timeout (executedFunction args d) = Some (next_id d).
Proof.
  intros [E | (id & a & E & T)]; unfold executedFunction; cbn; rewrite E.
  - split; [| reflexivity]. destruct (timeout d); reflexivity.
  - rewrite T. cbn. rewrite Nat.eqb_refl. cbn. auto.
Qed.

Lemma elapse_single (d : debounced A) : single d -> pending (elapse d) = [].
Proof.
  intros [E | (id & a & E & T)]; unfold elapse; rewrite E; [exact E |].
  cbn. destruct (timeout d); reflexivity.
Qed.

Lemma apply_step_single e (d : debounced A) : single d -> single (apply_step e d).
Proof.
  intros H. destruct e as [args |]; cbn [apply_step].
  - right. exists (next_id d), args. now apply executedFunction_single.
  - left. now apply elapse_single.
Qed.

Lemma run_steps_single steps : forall d : debounced A,
  single d -> single (run_steps steps d).
Proof.
  induction steps as [| e rest IH]; intros d H; [exact H |].
  cbn [run_steps]. now apply IH, apply_step_single.
Qed.

Lemma run_steps_app s1 s2 (d : debounced A) :
  run_steps (s1 ++ s2) d = run_steps s2 (run_steps s1 d).
Proof. revert d. induction s1 as [| e r IH]; intros d; cbn; auto. Qed.

(** A burst of calls leaves the timer of the last call, and has
    invoked nothing. *)
Lemma burst calls : forall (args : A) d,
  single d ->
  let d' := run_steps (map Call (calls ++ [args])) d in
  invoked d' = invoked d /\ exists id, pending d' = [(id, args)].
Proof.
  induction calls as [| c calls IH]; intros args d H; cbn [app map run_steps apply_step].
  - destruct (executedFunction_single args d H) as [P _]. split; [reflexivity | eauto].
  - destruct (IH args (executedFunction c d)) as [I P].
    + apply (apply_step_single (Call c) d H).
    + split; [exact I | exact P].
Qed.

End WithArgs.
End DebounceFacts.

Import DebounceFacts.


(* ================================================================== *)
(** * Further properties of the locator *)
(* ================================================================== *)

Module LocatorViewsSpec.

Lemma thousand : of_Z 1000 = Fin (1000 * scale).
Proof. apply of_Z_exact. lia. Qed.

(** X1.  A distance below 1000 is shown in metres, rounded to the
    nearest integer, halves upwards; so every distance from 999.5 up to
    1000 is shown as "1000m". *)
Theorem formatDistance_metres (distance : value) (a : Z) :
  ToNumber distance = Fin a ->
  0 <= a < 1000 * scale ->
  let r := (2 * a + scale) / (2 * scale) in
  formatDistance distance = decimal r ++ "m"
  /\ 0 <= r <= 1000
  /\ (2 * r - 1) * scale <= 2 * a < (2 * r + 1) * scale
  /\ (1999 * scale <= 2 * a -> formatDistance distance = "1000m").
Proof.
  intros E [H0 H1]. cbv zeta. pose proof scale_pos as HS.
  set (r := (2 * a + scale) / (2 * scale)).
  assert (B : (2 * r - 1) * scale <= 2 * a < (2 * r + 1) * scale).
  { pose proof (Z.mul_div_le (2 * a + scale) (2 * scale) ltac:(lia)) as L.
    pose proof (Z.mul_succ_div_gt (2 * a + scale) (2 * scale) ltac:(lia)) as U.
    fold r in L, U. nia. }
  assert (R : 0 <= r <= 1000) by nia.
  assert (F : formatDistance distance = decimal r ++ "m").
  { unfold formatDistance. rewrite E, thousand. cbn [ltb].
    replace (a <? 1000 * scale) with true by (symmetry; apply Z.ltb_lt; lia).
    cbn [Math_round]. fold r. now rewrite NumberToString_small. }
  repeat split; try lia; try exact F.
  intros T. rewrite F. replace r with 1000 by nia. reflexivity.
Qed.

(** X2.  A distance from 1000 up to [10^21] is shown in kilometres with
    exactly one decimal: digits, a point, one digit and "km". *)
Theorem formatDistance_kilometres (distance : value) (a : Z) :
  ToNumber distance = Fin a ->
  1000 * scale <= a < 10 ^ 21 * scale ->
  exists whole tenth,
    formatDistance distance = whole ++ "." ++ String tenth "km"
    /\ all_digits whole = true /\ whole <> "" /\ is_digit tenth = true.
Proof.
  intros E [H0 H1]. pose proof scale_pos as HS.
  unfold formatDistance. rewrite E, thousand. cbn [ltb divide_by].
  replace (a <? 1000 * scale) with false by (symmetry; apply Z.ltb_ge; lia).
  unfold round_ratio.
  replace (a <? 0) with false by (symmetry; apply Z.ltb_ge; lia).
  assert (T1 : 1 <= a / 1000) by (apply Z.div_le_lower_bound; lia).
  assert (T2 : a / 1000 < 10 ^ 18 * scale) by (apply Z.div_lt_upper_bound; lia).
  assert (O : 2 * 10 ^ 18 * scale < overflow_threshold).
  { unfold overflow_threshold, scale.
    replace 2098 with (1024 + 1074) by lia. rewrite Z.pow_add_r by lia.
    apply Z.mul_lt_mono_pos_r; [apply Z.pow_pos_nonneg; lia | reflexivity]. }
  destruct (round_magnitude_bound a 1000) as (z & -> & Hz); try lia.
  destruct (toFixed_layout 1 z) as (whole & fraction & L & D1 & N1 & D2 & N2);
    [lia | lia |].
  replace (z <? 0) with false in L by (symmetry; apply Z.ltb_ge; lia).
  destruct fraction as [| tenth [| ? ?]]; cbn [length] in N2; try lia.
  exists whole, tenth. rewrite L. cbn [append].
  repeat split.
  - clear. induction whole as [| c w IH]; cbn; [reflexivity | now rewrite IH].
  - exact D1.
  - intros ->. cbn in N1. lia.
  - cbn in D2. now apply andb_true_iff in D2 as [D2 _].
Qed.

(** X3.  The distance of a card is left out when the agent's distance
    is falsy (absent, [null], 0, empty); a distance that is present but
    does not convert to a number is shown as "NaNkm". *)
Theorem distance_label_edges (agent : value) :
  (truthy (prop agent "distance") = false -> distance_label agent = "")
  /\ (truthy (prop agent "distance") = true ->
      is_nan (ToNumber (prop agent "distance")) = true ->
      distance_label agent = "NaNkm").
Proof.
  unfold distance_label. split.
  - intros ->. reflexivity.
  - intros -> N. unfold formatDistance.
    destruct (ToNumber (prop agent "distance")); try discriminate. reflexivity.
Qed.

End LocatorViewsSpec.

Module InitialsSpec.
Section WithHost.
Context {host : Host}.

(** X4.  For a name that is a non-empty text, [getInitials] returns the
    upper-cased form of at most two characters of the name, none of them
    a space; the first is the first character of the trimmed name, and
    there is none exactly when the name is blank. *)
Theorem getInitials_of_text (text : string) :
  text <> "" ->
  exists t,
    getInitials (VStr text) = Ok (Letters (toUpperCase t))
    /\ (length t <= 2)%nat
    /\ (forall c, In c (units t) -> c <> " "%char /\ In c (units text))
    /\ match trim text with
       | String c _ => exists t', t = String c t'
       | EmptyString => t = ""
       end.
Proof.
  intros Hne. unfold getInitials.
  assert (T : truthy (VStr text) = true) by (destruct text; [congruence | reflexivity]).
  rewrite T. cbn [negb]. cbv zeta.
  pose proof (trimStart_trim text) as TS.
  pose proof (trimStart_head (trim text)) as TH. rewrite TS in TH.
  destruct (split_nonempty " " (trim text)) as (word0 & words & E). rewrite E.
  destruct (split_head _ _ _ _ E) as [I0 H0].
  destruct words as [| word1 rest].
  - apply split_single in E. subst word0.
    exists (substring 0 2 (trim text)). split; [reflexivity |].
    destruct (substring_two (trim text)) as (L & U & F).
    split; [exact L |]. split; [| exact F].
    intros c Hc. split; [| apply trim_units; auto].
    destruct (I0 c (U c Hc)). assumption.
  - pose proof (split_second _ _ _ _ _ E) as I1.
    destruct (trim text) as [| c r] eqn:TT; [discriminate |].
    assert (C : c <> " "%char).
    { intros ->. rewrite space_is_whitespace in TH. discriminate. }
    destruct (H0 C) as [r0 ->]. cbn [first_unit ToString].
    assert (Hc : In c (units text)) by (apply trim_units; rewrite TT; now left).
    destruct word1 as [| c1 r1]; cbn [is_empty negb first_unit ToString].
    + exists (String c ""). split; [reflexivity |].
      split; [cbn; lia |]. split; [| eauto].
      intros x [<- | []]. auto.
    + exists (String c (String c1 "")). split; [reflexivity |].
      destruct (I1 c1) as [C1 U1]; [now left |].
      assert (Hc1 : In c1 (units text)) by (apply trim_units; rewrite TT; exact U1).
      split; [cbn; lia |]. split; [| eauto].
      intros x [<- | [<- | []]]; auto.
Qed.

(** X5.  When two spaces follow the first word of the trimmed name, the
    second piece of the split is empty and the initials are the first
    letter alone. *)
Theorem getInitials_double_space (text : string) (c : ascii) (word rest : string) :
  trim text = String c word ++ "  " ++ rest ->
  (forall x, In x (units (String c word)) -> x <> " "%char) ->
  getInitials (VStr text) = Ok (Letters (toUpperCase (String c ""))).
Proof.
  intros E W. unfold getInitials.
  assert (T : truthy (VStr text) = true).
  { destruct text; [discriminate | reflexivity]. }
  rewrite T. cbn [negb]. cbv zeta. rewrite E.
  change (String c word ++ "  " ++ rest)
    with (String c word ++ String " " (String " " rest)).
  rewrite (split_word " " (String c word) (String " " rest) W).
  cbn [split]. rewrite Ascii.eqb_refl. reflexivity.
Qed.

End WithHost.
End InitialsSpec.

Module EscapeSpec.

(** X6.  [escapeHtml] gives the empty text for anything that is not a
    string.  For a string, the result has no angle bracket; a text without
    any of [&], [<], [>] and the no-break space is returned as it is, and
    a quotation mark is always kept as it is. *)
Theorem escapeHtml_markup (text : value) :
  (forall c, In c (units (escapeHtml text)) -> c <> "<"%char /\ c <> ">"%char)
  /\ (forall s, text = VStr s ->
        (forall c, In c (units s) ->
           c <> "&"%char /\ c <> "<"%char /\ c <> ">"%char /\ code c <> 160) ->
        escapeHtml text = s)
  /\ (forall s, text = VStr s -> In quotation_mark (units s) ->
        In quotation_mark (units (escapeHtml text)))
  /\ ((forall s, text <> VStr s) -> escapeHtml text = "").
Proof.
  split; [| split; [| split]].
  - intros c H. destruct text; cbn in H; try contradiction.
    eapply serialize_text_units; eauto.
  - intros s -> H. now apply serialize_text_plain.
  - intros s -> H. cbn. apply serialize_text_keeps; auto; discriminate.
  - intros H. destruct text; try reflexivity. exfalso. now apply (H s).
Qed.

End EscapeSpec.

Module LocatorViewsMoreSpec.
Section WithHost.
Context {host : Host} {display : Display}.

(** X7.  The options [populateFilters] offers for a field hold every
    non-empty text the field has among the stored agents, each text
    once, in the order of code units; nothing falsy is offered. *)
Theorem options_listed_once_in_order (field : string) (l : list value) :
  let options := options_of field l in
  (forall text, In (VStr text) options <->
                text <> "" /\ exists agent, In agent l /\ prop agent field = VStr text)
  /\ (forall text, (List.length (filter (strict_eq (VStr text)) options) <= 1)%nat)
  /\ (forall v, In v options -> truthy v = true)
  /\ StronglySorted (fun x y => comes_after default_compare x y = false) options.
Proof.
  cbv zeta. split; [| split; [| split]].
  - intros text. apply options_of_text.
  - intros text. unfold options_of.
    rewrite (Permutation_length
               (Permutation_filter (strict_eq (VStr text)) _ _
                  (sort_by_perm default_compare _))).
    apply add_all_once. cbn. lia.
  - intros v H. apply options_of_in in H. unfold Set_of in H.
    apply add_all_in in H as [[] | H]. now apply filter_In in H.
  - apply default_sort_sorted.
Qed.

(** X8.  The value of the option of a region is what a parser reads
    back from the markup: the region's text up to its first quotation
    mark, which [escapeHtml] does not escape, with its newlines
    normalised.  So choosing a region among the options whose text
    holds neither a quotation mark nor a carriage return, with an empty
    search box and no area chosen, lists exactly the stored agents of
    that province, at least one; choosing any other lists the agents
    whose province is the value of the option, or every agent when that
    value is empty. *)
Theorem offered_region_selects_its_agents (c : controls) (s : state)
    (text v : string) :
  In (VStr text) (options_of "province" (agents s)) ->
  searchTerm_of c = "" ->
  option_value (VStr text) = Some v ->
  region_filter c = Some v ->
  unselected (area_filter c) = true ->
  let s' := snd (applyFilters c s) in
  let of_province name agent := strict_eq (prop agent "province") (VStr name) in
  v = normalize_newlines (before_quote text)
  /\ (~ In quotation_mark (units text) -> ~ In carriage_return (units text) ->
      v = text
      /\ Permutation (filteredAgents s') (filter (of_province text) (agents s))
      /\ filteredAgents s' <> [])
  /\ (v <> "" ->
      Permutation (filteredAgents s') (filter (of_province v) (agents s)))
  /\ (v = "" -> Permutation (filteredAgents s') (agents s)).
Proof.
  intros Hin Hterm Hvalue Hregion Harea. cbv zeta.
  rewrite option_value_text in Hvalue. unfold as_read in Hvalue.
  destruct (nul_free (before_quote text)); [| discriminate Hvalue].
  injection Hvalue as <-.
  set (v := normalize_newlines (before_quote text)) in *.
  assert (Hne : text <> "" /\ exists agent, In agent (agents s)
                                           /\ prop agent "province" = VStr text).
  { now apply options_of_text. }
  destruct Hne as (Hne & agent & Ha & Hp).
  assert (S : forall kept,
             filterM (keeps c) (agents s) = Ok kept ->
             Permutation (filteredAgents (snd (applyFilters c s))) kept).
  { intros kept K. unfold applyFilters. rewrite mbind_updateDisplay_state.
    rewrite applyCurrentFilters_cases, K.
    destruct (sortAgents_lists (sort_filter c) (set_filteredAgents kept s)) as [_ P].
    exact P. }
  assert (K : v <> "" ->
              filterM (keeps c) (agents s)
              = Ok (filter (fun agent => strict_eq (prop agent "province") (VStr v))
                           (agents s))).
  { intros B. apply filterM_pure. intros x _.
    rewrite keeps_blank by (now rewrite Hterm).
    unfold option_matches. rewrite Hregion, Harea. cbn [unselected orb].
    replace (is_empty v) with false by (destruct v; [congruence | reflexivity]).
    cbn [orb]. now rewrite andb_true_r. }
  split; [reflexivity | split; [| split]].
  - intros Q C.
    assert (E : v = text).
    { unfold v. rewrite (before_quote_all text Q). now apply normalize_plain. }
    clearbody v. subst v. split; [reflexivity |].
    pose proof (S _ (K Hne)) as P. split; [exact P |].
    intros E. rewrite E in P. apply Permutation_nil in P.
    assert (I : In agent (filter (fun agent => strict_eq (prop agent "province") (VStr text))
                                 (agents s))).
    { apply filter_In. split; [exact Ha |]. rewrite Hp. cbn. apply String.eqb_refl. }
    rewrite P in I. contradiction.
  - intros B. exact (S _ (K B)).
  - intros B. apply S. apply blank_filter_keeps_all; [exact Hterm | | exact Harea].
    rewrite Hregion, B. reflexivity.
Qed.

End WithHost.
End LocatorViewsMoreSpec.

Module LocatorStateSpec.
Section WithHost.
Context {host : Host} {display : Display} {library : MapLibrary}.

(** X9.  Loads never overlap.  Along any sequence of events in which a
    reply arrives only for a request that awaits one, at most one request
    is in flight, and the loading flag is set exactly while one is: a
    call of [loadAgents] made in the meantime sends nothing, and every
    reply, whatever it holds, clears the flag.  So any number of calls in
    a row send a single request. *)
Theorem one_request_in_flight (events : list event) (k : nat) :
  feasible events initial_state 0 = true ->
  (in_flight events initial_state 0 <= 1)%nat
  /\ isLoading (run events initial_state)
     = (in_flight events initial_state 0 =? 1)%nat
  /\ in_flight (repeat LoadCalled (S k)) initial_state 0 = 1%nat.
Proof.
  intros F.
  destruct (flight_invariant events initial_state 0) as [A B]; auto.
  split; [exact A |]. split; [exact B |].
  assert (Step : forall s n,
             snd (handle LoadCalled s) = (if isLoading s then s else set_isLoading true s)
             /\ awaited LoadCalled s n = (if isLoading s then n else S n)).
  { intros s n. unfold handle, awaited, sends, mbind.
    rewrite loadAgents_call_cases. destruct (isLoading s); split; reflexivity. }
  assert (G : forall n s, isLoading s = true ->
                          in_flight (repeat LoadCalled n) s 1 = 1%nat).
  { induction n as [| n IH]; intros s L; [reflexivity |].
    cbn [repeat in_flight]. destruct (Step s 1%nat) as [-> ->]. rewrite L.
    now apply IH. }
  cbn [repeat in_flight]. destruct (Step initial_state 0%nat) as [-> ->].
  cbn [isLoading initial_state]. now apply G.
Qed.

(** X10.  [performSearch] ends in the same state, and with the same
    outcome, as [applyFilters]: the list it first filters by the search
    term is recomputed from the stored agents by [applyCurrentFilters]. *)
Theorem search_is_applying_filters (c : controls) (s : state) :
  performSearch c s = applyFilters c s.
Proof.
  rewrite performSearch_cases.
  destruct (is_empty (searchTerm_of c)) eqn:E.
  - fold (applyFilters c). 
    apply (applyFilters_overwrites c _ s
             (filter (fun agent =>
                        option_matches (region_filter c) (prop agent "province")
                        && option_matches (area_filter c) (prop agent "city"))
                     (agents s))).
    apply filterM_pure. intros x _. now apply keeps_blank.
  - pose proof (filterM_after
                  (fun agent => searchInAgent agent (searchTerm_of c))
                  (fun agent b =>
                     b && option_matches (region_filter c) (prop agent "province")
                       && option_matches (area_filter c) (prop agent "city"))
                  (agents s)) as A.
    assert (K : forall l,
               filterM (fun x => b <- searchInAgent x (searchTerm_of c) ;;
                                 Ok (b && option_matches (region_filter c) (prop x "province")
                                       && option_matches (area_filter c) (prop x "city"))) l
               = filterM (keeps c) l).
    { intros l. apply filterM_ext. intros x. symmetry.
      now apply keeps_after_search. }
    rewrite K in A.
    destruct (filterM (fun agent => searchInAgent agent (searchTerm_of c)) (agents s))
      as [kept1 | e].
    + destruct A as [kept A]. fold (applyFilters c).
      now apply (applyFilters_overwrites c kept1 s kept).
    + unfold applyFilters, mbind. rewrite applyCurrentFilters_cases, A. reflexivity.
Qed.

(** X11.  Filters always start from the stored agents, never from what
    is listed: applying the same filters twice changes nothing, and when
    applying them succeeds the result is the same whatever was listed
    before. *)
Theorem filters_start_from_stored_agents (c : controls) (s : state) :
  applyFilters c (snd (applyFilters c s)) = applyFilters c s
  /\ (fst (applyFilters c s) = Ok tt ->
      forall l, applyFilters c (set_filteredAgents l s) = applyFilters c s).
Proof.
  split; [apply applyFilters_again |].
  intros H l. destruct (filterM (keeps c) (agents s)) as [kept | e] eqn:K.
  - now apply (applyFilters_overwrites c l s kept).
  - unfold applyFilters, mbind in H. rewrite applyCurrentFilters_cases, K in H.
    discriminate.
Qed.

(** X12.  After any sequence of events from the initial state, the
    listed agents are, up to their order, a selection of the stored
    ones: no agent is listed that is not stored, and none more often than
    it is stored. *)
Theorem listed_agents_are_a_selection (events : list event) :
  let final := run events initial_state in
  (exists keep, Permutation (filteredAgents final) (filter keep (agents final)))
  /\ (List.length (filteredAgents final) <= List.length (agents final))%nat.
Proof.
  cbv zeta.
  destruct (run_selection events initial_state) as [keep P].
  { apply selection_all. reflexivity. }
  split; [eauto |].
  rewrite (Permutation_length P). apply filter_length_le.
Qed.

(** X13.  One stored agent with a search field that is present but is
    not a text (a phone number sent as a JSON number, say) stops every
    search whose term none of its text fields contains: [searchInAgent]
    raises a [TypeError], and [performSearch] and [applyFilters] let it
    out, leaving the state as it was. *)
Theorem search_raises_on_a_field_that_is_not_text
    (c : controls) (s : state) (agent : value) :
  In agent (agents s) ->
  searchTerm_of c <> "" ->
  searchable agent = false ->
  matches (searchTerm_of c) agent = false ->
  searchInAgent agent (searchTerm_of c) = Throw TypeError
  /\ performSearch c s = (Throw TypeError, s)
  /\ applyFilters c s = (Throw TypeError, s).
Proof.
  intros Hin Hterm Hs Hm.
  assert (E : is_empty (searchTerm_of c) = false)
    by (destruct (searchTerm_of c); [congruence | reflexivity]).
  pose proof (searchInAgent_not_text agent _ Hs Hm) as T.
  assert (A : applyFilters c s = (Throw TypeError, s)).
  { unfold applyFilters, mbind. rewrite applyCurrentFilters_cases.
    rewrite (filterM_throw (keeps c) TypeError (agents s) agent Hin).
    - reflexivity.
    - rewrite (keeps_after_search c agent E), T. reflexivity.
    - intros y e'. apply keeps_throw. }
  split; [exact T |]. split; [| exact A].
  rewrite performSearch_cases, E.
  rewrite (filterM_throw (fun a => searchInAgent a (searchTerm_of c))
             TypeError (agents s) agent Hin T).
  - reflexivity.
  - intros y e'. apply searchInAgent_throw.
Qed.

(** X14.  After any sequence of events from the initial state,
    [renderMapMarkers] skips no listed agent for want of coordinates.
    When the names of the listed agents are texts and the map library
    raises nothing, it makes one marker for each listed agent, in order,
    with the agent's initials as its icon, and fits the map when there
    are between 1 and 99 of them.  At the first listed agent whose name
    is not a text it raises a [TypeError], leaving the markers of the
    agents before that one. *)
Theorem every_listed_agent_has_a_marker (events : list event) :
  let listed := filteredAgents (run events initial_state) in
  let willing a := marker_fault a = None /\ layer_fault a = None in
  (Forall (fun a => has_name a = true) listed ->
   Forall willing listed ->
   fit_fault listed = None ->
   exists markers,
     renderMapMarkers listed = (Ok (fitted (List.length listed)), markers)
     /\ map agentData markers = listed
     /\ Forall (fun m => getInitials (prop (agentData m) "representative")
                         = Ok (icon m)) markers)
  /\ (forall before agent after,
        listed = (before ++ agent :: after)%list ->
        Forall (fun a => has_name a = true) before ->
        Forall willing before ->
        has_name agent = false ->
        exists markers,
          renderMapMarkers listed = (Throw TypeError, markers)
          /\ map agentData markers = before).
Proof.
  cbv zeta.
  destruct (LocatorSpec.run_required events initial_state) as [H1 H2];
    [constructor | apply incl_refl |].
  assert (R : Forall (fun a => has_required_fields a = true)
                     (filteredAgents (run events initial_state))).
  { rewrite Forall_forall in *. auto. }
  split.
  - intros N F B.
    destruct (add_markers_named _ [] R N F) as (added & E & M & I).
    assert (Len : List.length added
                  = List.length (filteredAgents (run events initial_state))).
    { rewrite <- M. now rewrite length_map. }
    exists added. unfold renderMapMarkers. rewrite E. cbn [app].
    rewrite M, B, Len. unfold fitted.
    destruct (_ && _); auto.
  - intros before agent after L N F U. rewrite L in R |- *.
    destruct (add_markers_unnamed before [] agent after R N F U) as (added & E & M).
    exists added. unfold renderMapMarkers. rewrite E. auto.
Qed.

(** X15.  For a stored agent [getInitials] never falls back to the
    money-bag sign, since a stored name is truthy: it returns a text when
    the name is a text and raises a [TypeError] when it is anything
    else. *)
Theorem stored_agents_have_initials (events : list event) (agent : value) :
  In agent (agents (run events initial_state)) ->
  getInitials (prop agent "representative") <> Ok MoneyBag
  /\ (forall text, prop agent "representative" = VStr text ->
        exists t, getInitials (prop agent "representative") = Ok (Letters t))
  /\ ((forall text, prop agent "representative" <> VStr text) ->
      getInitials (prop agent "representative") = Throw TypeError).
Proof.
  intros Hin.
  destruct (LocatorSpec.run_required events initial_state) as [H1 _];
    [constructor | apply incl_refl |].
  rewrite Forall_forall in H1. specialize (H1 agent Hin).
  unfold has_required_fields in H1.
  repeat (apply andb_true_iff in H1 as [H1 ?]).
  assert (T : truthy (prop agent "representative") = true) by assumption.
  unfold getInitials. rewrite T. cbn [negb]. split; [| split].
  - destruct (prop agent "representative"); try discriminate.
    cbv zeta. destruct (split " " (trim s)) as [| w0 [| w1 ws]]; discriminate.
  - intros text ->. cbv zeta.
    destruct (split_nonempty " " (trim text)) as (w0 & ws & ->).
    destruct ws; eauto.
  - intros N. destruct (prop agent "representative"); try reflexivity.
    exfalso. now apply (N s).
Qed.

End WithHost.
End LocatorStateSpec.

Module LocatorLoadSpec.
Section WithHost.
Context {host : Host} {display : Display}.

(** X22.  Stored agents are never dropped, replaced or reordered:
    whatever happens, the accumulated list afterwards is the list before
    with agents appended. *)
Theorem stored_agents_only_grow (events : list event) (s : state) :
  exists added, agents (run events s) = (agents s ++ added)%list.
Proof.
  revert s. induction events as [| e rest IH]; intros s; cbn [run].
  - exists []. now rewrite app_nil_r.
  - destruct (IH (snd (handle e s))) as [added2 ->].
    destruct (handle_grows e s) as [added1 ->].
    exists (added1 ++ added2)%list. now rewrite app_assoc.
Qed.

(** X23.  A response that brings at least one new agent resets the
    listing to all the stored agents in the order they were loaded,
    whatever the search box, the filters and the sort order hold:
    [processAgentsData] does not consult them. *)
Theorem merge_resets_the_listing (items : list value) (s : state) :
  filter (valid_new_agent (agents s)) items <> [] ->
  let s' := snd (processAgentsData (VArr items) s) in
  agents s' = (agents s ++ filter (valid_new_agent (agents s)) items)%list
  /\ filteredAgents s' = agents s'.
Proof.
  intros H. cbv zeta. split; [apply processAgentsData_agents |].
  unfold processAgentsData, mbind, read, modify, updateDisplay,
    populateFilters, throw, ret, showMessage. cbn.
  destruct (filter (valid_new_agent (agents s)) items) as [| a l]; [congruence |].
  cbn. destruct (draw _); cbn; [reflexivity |].
  destruct (fill _); cbn; [reflexivity |].
  destruct (_ =? _)%nat; reflexivity.
Qed.

(** X24.  The toast "Found N EcoCash agents" is shown exactly by the
    load that fills an empty store (rendering permitting), [N] being the
    number of agents stored; a later load that adds agents shows no
    toast, and one that adds nothing changes nothing at all. *)
Theorem found_toast_on_first_load (items : list value) (s : state) :
  let new := filter (valid_new_agent (agents s)) items in
  let s' := snd (processAgentsData (VArr items) s) in
  (new = [] -> s' = s)
  /\ (new <> [] ->
      draw (agents s ++ new)%list = None -> fill (agents s ++ new)%list = None ->
      (agents s = [] ->
         toasts s'
         = (toasts s ++ [(("Found " ++ decimal (Z.of_nat (List.length new))
                             ++ " EcoCash agents")%string, "success")])%list)
      /\ (agents s <> [] -> toasts s' = toasts s)).
Proof.
  cbv zeta. split.
  - intros E. unfold processAgentsData, mbind, read. cbn. rewrite E. reflexivity.
  - intros N D F.
    unfold processAgentsData, mbind, read, modify, updateDisplay,
      populateFilters, throw, ret, showMessage. cbn.
    destruct (filter (valid_new_agent (agents s)) items) as [| a l] eqn:Q;
      [congruence |].
    cbn. rewrite D. cbn. rewrite F. cbn. split.
    + intros ->. cbn. rewrite Nat.eqb_refl. reflexivity.
    + intros Hne. destruct (agents s) as [| b r]; [congruence |].
      cbn [List.length app].
      replace (S (List.length (r ++ a :: l)) =? S (List.length l))%nat with false;
        [reflexivity |].
      symmetry. apply Nat.eqb_neq. rewrite List.length_app. cbn. lia.
Qed.

(** X25.  What the user is told when a load fails.  A response that
    does not pass the test of [loadAgents] always gives "Failed to load
    agents. Please try again later.": the message the server put in
    [data.message], which the code raises as an [Error], is not shown.
    A request rejected with status 0 gives the hint about the internet
    connection, and one rejected with a status of 500 or more "Server
    error occurred.". *)
Theorem load_failure_messages (r : reply) (s : state) :
  isLoading s = false ->
  let s' := snd (loadAgents r s) in
  (forall response, r = Resolved response -> well_formed response = false ->
     toasts s'
     = (toasts s ++ [("Failed to load agents. Please try again later.", "error")])%list)
  /\ (forall body, r = Rejected zero body ->
        toasts s'
        = (toasts s ++ [("Failed to load agents. Please check your internet connection.",
                         "error")])%list)
  /\ (forall status body, r = Rejected status body -> geb status (of_Z 500) = true ->
        toasts s'
        = (toasts s ++ [("Failed to load agents. Server error occurred.", "error")])%list).
Proof.
  intros L. cbv zeta. rewrite loadAgents_cases, L, loadAgents_resume_cases. cbv zeta.
  split; [| split].
  - intros response -> W. unfold well_formed in W.
    destruct (nullish response); cbn [negb andb] in W.
    + reflexivity.
    + rewrite W. cbn [snd toasts set_isLoading add_toast set_isLoading].
      rewrite errorMessage_default by reflexivity. reflexivity.
  - intros body ->. reflexivity.
  - intros status body -> G. cbn [snd toasts set_isLoading add_toast].
    unfold errorMessage. cbn [status_of strict_eq ToNumber].
    destruct (num_eqb status zero) eqn:Z0.
    + exfalso. destruct status as [| | | z]; try discriminate Z0.
      cbn [num_eqb zero] in Z0. apply Z.eqb_eq in Z0. subst z.
      vm_compute in G. discriminate G.
    + rewrite G. reflexivity.
Qed.

(** X26.  Clearing the filters lists all the stored agents in the order
    they were loaded, although it resets the sort control to "name";
    when the names of the stored agents are texts, applying the filters
    with controls as [clearFilters] leaves them (nothing to search for,
    no region, no area, sorting by name) lists the same agents sorted by
    name.  So the two listings agree only when the stored agents are in
    name order already. *)
Theorem clearing_does_not_sort (c : controls) (s : state) :
  searchTerm_of c = "" ->
  unselected (region_filter c) = true ->
  unselected (area_filter c) = true ->
  selected_is (sort_filter c) "distance" = false ->
  filteredAgents (snd (clearFilters s)) = agents s
  /\ (Forall (fun a => has_name a = true) (agents s) ->
      filteredAgents (snd (applyFilters c s))
      = sort_by (comes_after name_order) (agents s)).
Proof.
  intros Hterm Hregion Harea Hsort. split; [apply clearFilters_lists |].
  intros H.
  unfold applyFilters. rewrite mbind_updateDisplay_state.
  rewrite applyCurrentFilters_cases.
  rewrite (blank_filter_keeps_all c (agents s) Hterm Hregion Harea).
  rewrite sortAgents_pure by (intros _; exact H).
  unfold order_of. rewrite Hsort. reflexivity.
Qed.

End WithHost.
End LocatorLoadSpec.

Module NarrowingSpec.
Section WithHost.
Context {host : Host} {display : Display}.

(** X30.  Typing more can only narrow the results: when the search term
    of one search begins with the term of another and the region and
    area filters are the same, every agent the longer term lists is
    listed for the shorter term too (for stored agents whose search
    fields are texts). *)
Theorem typing_more_narrows_the_results
    (c1 c2 : controls) (s : state) (more : string) :
  Forall (fun a => searchable a = true /\ has_name a = true) (agents s) ->
  searchTerm_of c2 = searchTerm_of c1 ++ more ->
  region_filter c2 = region_filter c1 ->
  area_filter c2 = area_filter c1 ->
  incl (filteredAgents (snd (performSearch c2 s)))
       (filteredAgents (snd (performSearch c1 s))).
Proof.
  intros H T R A. rewrite !performSearch_pure by exact H.
  cbn [filteredAgents set_filteredAgents]. intros x Hx.
  apply sort_by_in in Hx. apply sort_by_in.
  apply filter_In in Hx as [Hin K]. apply filter_In. split; [exact Hin |].
  unfold kept_by in *. rewrite R, A, T in K.
  apply andb_true_iff in K as [K K3]. apply andb_true_iff in K as [K1 K2].
  rewrite K2, K3, !andb_true_r.
  apply orb_true_iff in K1 as [E | M]; apply orb_true_iff.
  - left. destruct (searchTerm_of c1); [reflexivity | discriminate].
  - right. now apply matches_shorter in M.
Qed.

End WithHost.
End NarrowingSpec.

Module DebounceSpec.
Section WithArgs.
Context {A : Type}.

(** X29.  The function [debounce] returns keeps at most one timer
    pending, whatever the calls and the timers that come due.  A burst
    of calls with no timer coming due in between, followed by the wait
    running out, invokes [func] exactly once, with the arguments of the
    last call of the burst; another wait running out invokes nothing
    more. *)
Theorem debounce_runs_the_last_call (before : list (step A)) (burst_calls : list A)
    (args : A) :
  let d0 := run_steps before fresh in
  let d1 := run_steps (map Call (burst_calls ++ [args]) ++ [Elapse]) d0 in
  (List.length (pending d0) <= 1)%nat
  /\ invoked d1 = (invoked d0 ++ [args])%list
  /\ pending d1 = []
  /\ invoked (elapse d1) = invoked d1.
Proof.
  cbv zeta.
  assert (S0 : single (run_steps before (@fresh A))).
  { apply run_steps_single. now left. }
  rewrite run_steps_app.
  destruct (burst burst_calls args _ S0) as [I [id P]].
  cbn [run_steps apply_step].
  assert (S1 : single (run_steps (map Call (burst_calls ++ [args]))
                                  (run_steps before fresh)))
    by now apply run_steps_single.
  split; [| split; [| split]].
  - destruct S0 as [-> | (i & a & -> & _)]; cbn; lia.
  - unfold elapse. rewrite P. cbn. now rewrite I.
  - now apply elapse_single.
  - unfold elapse at 1. now rewrite (elapse_single _ S1).
Qed.

End WithArgs.
End DebounceSpec.

(* ================================================================== *)
(** * Further properties of the calculator *)
(* ================================================================== *)

Module CalculatorHandlersSpec.
Section WithHost.
Context {host : Host}.



(** X18.  After a click each of the three fields carries at most one
    error message, and no message is attached to anything else. *)
Theorem one_message_per_field (f : form) (p : page) :
  let fields := map fst (field_errors (on_calculate_click f p)) in
  NoDup fields
  /\ incl fields ["ecocash-amount"; "ecocash-currency"; "ecocash-transaction-type"].
Proof.
  cbv zeta. unfold on_calculate_click.
  destruct (is_empty (trim (amount_field f)));
    [| destruct (is_nan (StringToNumber (trim (amount_field f))));
       [| destruct (leb (parseFloat (trim (amount_field f))) zero) ]];
    destruct (unselected (currency_field f));
    destruct (unselected (transaction_type_field f));
    cbn;
    repeat match goal with
           | |- context [if ?b then _ else _] => destruct b
           | |- context [match ?o with Some _ => _ | None => _ end] => destruct o
           end;
    cbn; (split; [repeat constructor; cbn; intuition discriminate
                 | intros x Hx; cbn in Hx |- *; tauto]).
Qed.

(** X19.  The warning shown while typing is sound for the click: when
    the [input]/[change] handler marks the amount as over the limit, a
    click on the same form sends no request. *)
Theorem live_warning_is_sound (f : form) (p p' : page) :
  limit_exceeded (on_amount_or_currency_change f p) = true ->
  requests (on_calculate_click f p') = requests p'.
Proof.
  intros H. apply click_over_limit.
  unfold on_amount_or_currency_change in H.
  destruct (is_nan (parseFloat (amount_field f))); [discriminate |].
  destruct (selected_is (currency_field f) "USD"
            && gtb (parseFloat (amount_field f)) (of_Z 500)); [reflexivity |].
  destruct (selected_is (currency_field f) "ZWG"
            && gtb (parseFloat (amount_field f)) (of_Z 8000)); [reflexivity |].
  discriminate.
Qed.

End WithHost.
End CalculatorHandlersSpec.

Module BlurSpec.
Section WithHost.
Context {host : Host}.

(** X20.  Reformatting on blur rounds an amount that is above the
    ceiling by less than half a cent down to the ceiling: the click that
    is refused for the text as typed goes through once the field has lost
    focus, with "500.00" (or "8000.00") as the amount. *)
Theorem blur_rounds_down_to_the_ceiling
    (f : form) (p : page) (a : Z) (cur : string) (lim : Z) (msg ty : string) :
  In (cur, lim, msg) ceilings ->
  currency_field f = Some cur ->
  transaction_type_field f = Some ty -> ty <> "" ->
  parseFloat (amount_field f) = Fin a ->
  lim * scale < a -> 200 * a < (200 * lim + 1) * scale ->
  amount_field (on_amount_blur f) = decimal lim ++ ".00"
  /\ requests (on_calculate_click f p) = requests p
  /\ requests (on_calculate_click (on_amount_blur f) p)
     = (requests p ++ [request_for (decimal lim ++ ".00") cur ty])%list.
Proof.
  intros Hin Hcur Hty Hne E Hlo Hhi. pose proof scale_pos as HS.
  pose proof scale_bound as HB.
  assert (Ty : is_empty ty = false) by (destruct ty; [congruence | reflexivity]).
  assert (Hcases : (cur = "USD" /\ lim = 500) \/ (cur = "ZWG" /\ lim = 8000)).
  { simpl in Hin. destruct Hin as [H | [H | []]]; inversion H; auto. }
  destruct (blur_positive f a E) as (A & C & T); [lia |].
  destruct Hcases as [[-> ->] | [-> ->]].
  - assert (Text : toFixed 2 (Fin a) = "500.00").
    { rewrite (toFixed2_near a 50000); [reflexivity | lia | lia]. }
    assert (L : of_Z 500 = Fin (500 * scale)) by (apply of_Z_exact; lia).
    rewrite A, Text. split; [reflexivity |]. split.
    + apply click_over_limit. rewrite Hcur, E, L. cbn [selected_is gtb ltb].
      replace (500 * scale <? a) with true by (symmetry; apply Z.ltb_lt; lia).
      reflexivity.
    + unfold on_calculate_click. rewrite A, C, T, Hcur, Hty, Text.
      assert (E1 : trim "500.00" = "500.00") by reflexivity.
      assert (E2 : is_nan (StringToNumber "500.00") = false) by (vm_compute; reflexivity).
      assert (E3 : leb (parseFloat "500.00") zero = false) by (vm_compute; reflexivity).
      assert (E4 : gtb (parseFloat "500.00") (of_Z 500) = false) by (vm_compute; reflexivity).
      rewrite E1, E2, E3. cbn [unselected is_empty]. rewrite Ty.
      cbv beta iota zeta. cbn [negb selected_is]. rewrite E4. reflexivity.
  - assert (Text : toFixed 2 (Fin a) = "8000.00").
    { rewrite (toFixed2_near a 800000); [reflexivity | lia | lia]. }
    assert (L : of_Z 8000 = Fin (8000 * scale)) by (apply of_Z_exact; lia).
    rewrite A, Text. split; [reflexivity |]. split.
    + apply click_over_limit. rewrite Hcur, E, L. cbn [selected_is gtb ltb].
      replace (8000 * scale <? a) with true by (symmetry; apply Z.ltb_lt; lia).
      cbn. reflexivity.
    + unfold on_calculate_click. rewrite A, C, T, Hcur, Hty, Text.
      assert (E1 : trim "8000.00" = "8000.00") by reflexivity.
      assert (E2 : is_nan (StringToNumber "8000.00") = false) by (vm_compute; reflexivity).
      assert (E3 : leb (parseFloat "8000.00") zero = false) by (vm_compute; reflexivity).
      assert (E4 : gtb (parseFloat "8000.00") (of_Z 8000) = false) by (vm_compute; reflexivity).
      rewrite E1, E2, E3. cbn [unselected is_empty]. rewrite Ty.
      cbv beta iota zeta. cbn [negb selected_is]. rewrite E4. reflexivity.
Qed.

(** X21.  Reformatting on blur turns a positive amount below half a cent
    into "0.00", which the click then refuses as not greater than
    zero. *)
Theorem blur_rounds_small_amounts_to_zero (f : form) (p : page) (a : Z) :
  parseFloat (amount_field f) = Fin a ->
  0 < a -> 200 * a < scale ->
  unselected (currency_field f) = false ->
  unselected (transaction_type_field f) = false ->
  amount_field (on_amount_blur f) = "0.00"
  /\ field_errors (on_calculate_click (on_amount_blur f) p)
     = [("ecocash-amount", "Amount must be greater than zero")]
  /\ requests (on_calculate_click (on_amount_blur f) p) = requests p.
Proof.
  intros E H0 H1 Hc Ht. pose proof scale_pos as HS. pose proof scale_bound as HB.
  destruct (blur_positive f a E H0) as (A & C & T).
  assert (Text : toFixed 2 (Fin a) = "0.00").
  { rewrite (toFixed2_near a 0); [reflexivity | lia | lia]. }
  rewrite A, Text. split; [reflexivity |].
  unfold on_calculate_click. rewrite A, C, T, Text, Hc, Ht.
  assert (E1 : trim "0.00" = "0.00") by reflexivity.
  assert (E2 : is_nan (StringToNumber "0.00") = false) by (vm_compute; reflexivity).
  assert (E3 : leb (parseFloat "0.00") zero = true) by (vm_compute; reflexivity).
  rewrite E1, E2, E3. split; reflexivity.
Qed.

End WithHost.
End BlurSpec.

Module RoundTripSpec.
Section WithHost.
Context {host : Host}.

(** What [toFixed(2)] prints for a number up to [2^45], read back and
    printed again, is the same text. *)
Lemma toFixed2_again a :
  0 <= a <= 2 ^ 45 * scale ->
  exists z, parseFloat (toFixed 2 (Fin a)) = Fin z
            /\ 0 <= z
            /\ toFixed 2 (Fin z) = toFixed 2 (Fin a)
            /\ is_nan (StringToNumber (trim (toFixed 2 (Fin a)))) = false.
Proof.
  intros [H0 H1]. pose proof scale_pos as HS.
  assert (B : 2 ^ 45 * scale < 10 ^ 21 * scale)
    by (apply Z.mul_lt_mono_pos_r; [exact HS | reflexivity]).
  rewrite (toFixed_fixed_text 2 a) by lia.
  change (10 ^ Z.of_nat 2) with 100.
  set (n := (2 * a * 100 + scale) / (2 * scale)).
  assert (N0 : 0 <= n) by (apply Z.div_pos; nia).
  assert (N1 : n <= 100 * 2 ^ 45).
  { assert (n < 100 * 2 ^ 45 + 1); [| lia].
    apply Z.div_lt_upper_bound; nia. }
  destruct (fixed_text_reads_back n N0) as (P & Q & T & _).
  destruct (hundredths_round_trip n (conj N0 N1)) as (z & E & Z0 & _ & Near).
  exists z. rewrite P, T, Q, E. repeat split; try lia.
  - now apply toFixed2_near.
Qed.

(** X27.  Reformatting on blur is idempotent: for an amount up to
    [2^45], a second blur leaves the field as the first one left it.  And
    the text the first blur writes for a positive amount has two decimals
    and passes the "must be a number" test of the click. *)
Theorem blur_is_idempotent (f : form) :
  (forall a, parseFloat (amount_field f) = Fin a -> a <= 2 ^ 45 * scale) ->
  on_amount_blur (on_amount_blur f) = on_amount_blur f
  /\ (forall a, parseFloat (amount_field f) = Fin a -> 0 < a ->
        two_decimals (amount_field (on_amount_blur f)) = true
        /\ is_nan (StringToNumber (trim (amount_field (on_amount_blur f)))) = false).
Proof.
  intros B. pose proof scale_pos as HS. split.
  - destruct (parseFloat (amount_field f)) as [| | | a] eqn:E.
    + assert (F : on_amount_blur f = f) by (unfold on_amount_blur; now rewrite E).
      now rewrite !F.
    + assert (F : on_amount_blur f
                  = {| amount_field := "Infinity";
                       currency_field := currency_field f;
                       transaction_type_field := transaction_type_field f |})
        by (unfold on_amount_blur; now rewrite E).
      rewrite F. unfold on_amount_blur. cbn [amount_field].
      assert (I : parseFloat "Infinity" = PInf) by (vm_compute; reflexivity).
      rewrite I. reflexivity.
    + assert (F : on_amount_blur f = f) by (unfold on_amount_blur; now rewrite E).
      now rewrite !F.
    + destruct (Z.ltb_spec 0 a) as [Pos | Neg].
      * destruct (toFixed2_again a) as (z & Pz & Z0 & Tz & _);
          [split; [lia | now apply B] |].
        assert (F : on_amount_blur f
                    = {| amount_field := toFixed 2 (Fin a);
                         currency_field := currency_field f;
                         transaction_type_field := transaction_type_field f |}).
        { unfold on_amount_blur. rewrite E. cbn [is_nan negb andb gtb ltb zero].
          replace (0 <? a) with true by (symmetry; apply Z.ltb_lt; lia).
          reflexivity. }
        rewrite F. unfold on_amount_blur.
        cbn [amount_field currency_field transaction_type_field].
        rewrite Pz. cbn [is_nan negb andb gtb ltb zero].
        destruct (0 <? z); [now rewrite Tz | reflexivity].
      * assert (F : on_amount_blur f = f).
        { unfold on_amount_blur. rewrite E. cbn [is_nan negb andb gtb ltb zero].
          replace (0 <? a) with false by (symmetry; apply Z.ltb_ge; lia).
          reflexivity. }
        now rewrite !F.
  - intros a E Pos. destruct (blur_positive f a E Pos) as (A & _ & _). rewrite A.
    destruct (toFixed2_again a) as (z & _ & _ & _ & N);
      [split; [lia | now apply B] |].
    split; [| exact N]. apply toFixed2_plain. unfold plain.
    apply Z.ltb_lt. rewrite Z.abs_eq by lia.
    assert (2 ^ 45 * scale < 10 ^ 21 * scale)
      by (apply Z.mul_lt_mono_pos_r; [exact HS | reflexivity]).
    specialize (B a E). lia.
Qed.

(** X28.  When the response gives no total, the total shown is the sum
    of the parsed amount and tariff printed with two decimals: printing
    the sum, parsing the text and printing again changes nothing (for a
    sum from 0 up to [2^45]). *)
Theorem default_total_is_the_formatted_sum
    (apiResponse : value) (currency amount_now : string) (a : Z) :
  truthy (prop apiResponse "totalAmount") = false ->
  add (parseFloatOf (or_else (prop apiResponse "amount") (VStr amount_now)))
      (parseFloatOf (or_else (prop apiResponse "totalTariff") (VStr "0.00")))
  = Fin a ->
  0 <= a <= 2 ^ 45 * scale ->
  shown_totalAmount (showSuccess apiResponse currency amount_now) = toFixed 2 (Fin a).
Proof.
  intros T E B. unfold showSuccess. cbn [shown_totalAmount].
  unfold or_else at 1. rewrite T, E. cbn [parseFloatOf].
  destruct (toFixed2_again a B) as (z & -> & _ & Tz & _). exact Tz.
Qed.

End WithHost.
End RoundTripSpec.

(** ** Instances on concrete forms and responses *)

Module CalculatorExamples.

(** 450.50 USD passes validation and stays under the ceiling. *)
Lemma limit_check_witness :
  requests (on_calculate_click form_450_usd blank_page)
  = [request_for "450.50" "USD" "sendmoney"].
Proof.
  refine (proj1 (proj1 (proj1 (CalculatorSpec.limit_check_at_submit_and_on_input
                   (host := ascii_host) form_450_usd blank_page
                   "USD" 500 "USD transactions cannot exceed $500" "sendmoney"
                   _ _) _ _ _ _ _) _)).
  - simpl. auto.
  - reflexivity.
  - reflexivity.
  - discriminate.
  - reflexivity.
  - vm_compute. reflexivity.
  - vm_compute. reflexivity.
  - vm_compute. reflexivity.
Defined.

(** C1 (as stated) fails: 500.00000000000000001 USD passes the basic
    validation and is above the ceiling, yet [parseFloat] reads it as
    500: the request is sent with the amount as typed, no message is
    shown and the input/change handler raises no flag. *)
Lemma amount_above_ceiling_is_sent :
  let f := form_just_over_usd in
  exceeds (amount_field f) 500 = true
  /\ is_empty (trim (amount_field f)) = false
  /\ is_nan (StringToNumber (trim (amount_field f))) = false
  /\ gtb (parseFloat (trim (amount_field f))) zero = true
  /\ parseFloat (amount_field f) = of_Z 500
  /\ requests (on_calculate_click f blank_page)
     = [request_for "500.00000000000000001" "USD" "sendmoney"]
  /\ field_errors (on_calculate_click f blank_page) = []
  /\ limit_exceeded (on_amount_or_currency_change f blank_page) = false.
Proof. vm_compute. repeat split. Qed.

(** A form with nothing in it: three messages and no request. *)
Lemma validation_witness :
  requests (on_calculate_click form_empty blank_page) = []
  /\ In ("ecocash-amount", "Please enter an amount")
        (field_errors (on_calculate_click form_empty blank_page)).
Proof.
  refine (proj1 (proj2 (CalculatorSpec.request_only_after_validation
                   (host := ascii_host) form_empty blank_page)) _).
  reflexivity.
Defined.

Lemma convertTransactionType_witness :
  convertTransactionType "airtime" = VStr "AIRTIME".
Proof.
  refine (proj1 (proj2 (proj2 (CalculatorSpec.convertTransactionType_cases
                   (host := ascii_host) "airtime" form_50_zwg blank_page))) _ _ _).
  - discriminate.
  - discriminate.
  - reflexivity.
Defined.

(** C6 (as stated) fails: ["constructor"] is not a key of the map, yet
    the conversion returns the member inherited from [Object.prototype],
    not the upper-cased text. *)
Lemma convertTransactionType_constructor :
  assoc "constructor"
    [ ("sendmoney", VStr "SENDMONEY"); ("SENDMONEY", VStr "SENDMONEY") ] = None
  /\ convertTransactionType "constructor" = VBuiltin "constructor"
  /\ convertTransactionType "constructor" <> VStr (toUpperCase "constructor").
Proof. repeat split. discriminate. Qed.

Lemma showSuccess_witness :
  shown_serviceCharge (showSuccess bare_success "USD" "12.345") = "0.00".
Proof.
  refine (proj1 (CalculatorSpec.showSuccess_defaults_and_rendering
                   bare_success "USD" "12.345") _).
  reflexivity.
Defined.

(** C10 (as stated) fails: with the amount left out of the response and
    the amount input empty when it arrives, the amount and the total are
    shown as "NaN". *)
Lemma showSuccess_not_two_decimals :
  shown_amount (showSuccess bare_success "USD" "") = "NaN"
  /\ shown_totalAmount (showSuccess bare_success "USD" "") = "NaN"
  /\ two_decimals (shown_amount (showSuccess bare_success "USD" "")) = false.
Proof. vm_compute. repeat split. Qed.

End CalculatorExamples.

Module LocatorExamples.

#[local] Existing Instance quiet_display.

(** Two responses that share the agent 2: it is stored once. *)
Lemma ids_distinct_witness :
  distinct_ids
    (agents (run [ ProcessAgents (VArr [bob; alice]);
                   LoadSettled (Resolved (response_with (VArr [alice; carl]))) ]
                 initial_state)) = true.
Proof.
  refine (proj1 (LocatorSpec.ids_distinct_across_loads
                   (host := ascii_host)
                   [ ProcessAgents (VArr [bob; alice]);
                     LoadSettled (Resolved (response_with (VArr [alice; carl]))) ]
                   initial_state VNull _)).
  repeat constructor; intros items H; inversion H; vm_compute; reflexivity.
Defined.

(** C2 (as stated) fails: one response that lists the id 1 twice puts
    two agents with that id in the accumulated list. *)
Lemma duplicate_ids_within_one_response :
  let s := run [ ProcessAgents (VArr [ agent 1 "Bob" VNull;
                                       agent 1 "Bobby" VNull ]) ]
               initial_state in
  agents s = [ agent 1 "Bob" VNull; agent 1 "Bobby" VNull ]
  /\ distinct_ids (agents s) = false.
Proof. vm_compute. split; reflexivity. Qed.

(** Carl (20) comes first, Bob (none) and Zed (0) follow in their
    previous order, alice (1500000) is last. *)
Example distance_sort_run :
  filteredAgents (snd (sortAgents (Some "distance") (showing [bob; alice; carl; zed])))
  = [carl; bob; zed; alice].
Proof. vm_compute. reflexivity. Qed.

Lemma distance_sort_witness :
  sortAgents (Some "distance") (showing [bob; alice; carl; zed])
  = (Ok tt, set_filteredAgents
              (sort_by (comes_after distance_order)
                       (filteredAgents (showing [bob; alice; carl; zed])))
              (showing [bob; alice; carl; zed])).
Proof.
  refine (proj1 (LocatorSpec.distance_sort_ascending_unknown_as_999999
                   (host := ascii_host) (showing [bob; alice; carl; zed]) _)).
  repeat constructor; vm_compute; reflexivity.
Defined.

(** C3 (as stated) fails: Bob has no distance and alice is 1500000 away,
    yet the sort leaves Bob before alice; and Zed, at distance 0, is
    placed after Carl, at distance 20. *)
Lemma unknown_distance_before_known :
  unknown_distance bob = true
  /\ unknown_distance alice = false
  /\ filteredAgents (snd (sortAgents (Some "distance") (showing [bob; alice])))
     = [bob; alice]
  /\ unknown_last
       (filteredAgents (snd (sortAgents (Some "distance") (showing [bob; alice]))))
     = false
  /\ filteredAgents (snd (sortAgents (Some "distance") (showing [zed; carl])))
     = [carl; zed].
Proof. vm_compute. repeat split; reflexivity. Qed.

(** Searching " HAR " finds the agents of Harare. *)
Lemma search_witness :
  searchInAgent bob "har" = Ok true.
Proof.
  refine (proj1 (LocatorSpec.search_matches_five_fields
                   (host := ascii_host) search_har (showing [bob; alice])
                   "har" bob) _).
  reflexivity.
Defined.

(** C4 (as stated) fails: Tari's phone number is a number, which the
    store accepts.  None of the five fields contains "bob", yet the
    search does not drop Tari: it raises a [TypeError] and the listing
    stays as it was. *)
Lemma numeric_phone_breaks_the_search :
  agents (run [ProcessAgents (VArr [tari])] initial_state) = [tari]
  /\ matches "bob" tari = false
  /\ searchInAgent tari "bob" = Throw TypeError
  /\ performSearch search_bob (showing [tari]) = (Throw TypeError, showing [tari]).
Proof. vm_compute. repeat split; reflexivity. Qed.

(** Typing " BOB " keeps Bob alone; typing blanks keeps everyone, in
    name order. *)
Example search_run :
  filteredAgents (snd (performSearch search_bob (showing [carl; alice; bob]))) = [bob]
  /\ filteredAgents (snd (performSearch search_blank (showing [carl; alice; bob])))
     = [alice; bob; carl].
Proof. vm_compute. split; reflexivity. Qed.

(** The letters decide before their case does: alice comes before Bob,
    who by code units would come first. *)
Example name_sort_run :
  filteredAgents (snd (sortAgents (Some "name") (showing [carl; bob; zed; alice])))
  = [alice; bob; carl; zed]
  /\ comes_after code_unit_compare "alice" "Bob" = true.
Proof. vm_compute. split; reflexivity. Qed.

Lemma name_sort_witness :
  sortAgents (Some "name") (showing [carl; bob; zed; alice])
  = (Ok tt, set_filteredAgents
              (sort_by (comes_after name_order)
                       (filteredAgents (showing [carl; bob; zed; alice])))
              (showing [carl; bob; zed; alice])).
Proof.
  refine (proj1 (proj1 (LocatorSpec.name_sort_is_stable
                   (host := ascii_host) (Some "name")
                   (showing [carl; bob; zed; alice]) _ _) _)).
  - exact ascii_collation_consistent.
  - reflexivity.
  - repeat constructor.
Defined.

(** C5 (as stated) fails: two agents whose names came as the numbers 7
    and 3 are stored as they are, and sorting them by name raises a
    [TypeError] and leaves 7 before 3. *)
Lemma numeric_names_are_not_sorted :
  let l := [numbered 1 7; numbered 2 3] in
  agents (run [ProcessAgents (VArr l)] initial_state) = l
  /\ sortAgents (Some "name") (showing l) = (Throw TypeError, showing l)
  /\ comes_after name_order (numbered 1 7) (numbered 2 3) = true.
Proof. vm_compute. repeat split; reflexivity. Qed.



(** An entry whose latitude is the number 0 is not stored. *)
Lemma required_fields_witness :
  has_required_fields
    (VObj [ ("id", VNum (of_Z 7)); ("representative", VStr "Eve");
            ("latitude", VNum zero); ("longitude", VNum (of_Z 31)) ]) = false.
Proof.
  refine (proj2 (proj2 (proj2 (proj2
            (LocatorSpec.stored_agents_have_required_fields
               (host := ascii_host) [] initial_state [])))) _ _).
  do 5 right. left. reflexivity.
Defined.

End LocatorExamples.

(** ** Instances of the further properties *)

Module MoreExamples.

#[local] Existing Instance quiet_display.

(** 999.5 is shown as 1000 metres. *)
Lemma formatDistance_metres_witness : formatDistance (VStr "999.5") = "1000m".
Proof.
  refine (proj2 (proj2 (proj2 (LocatorViewsSpec.formatDistance_metres
                                 (VStr "999.5") (1999 * (scale / 2)) _ _))) _).
  - vm_compute. reflexivity.
  - split; [apply Z.leb_le | apply Z.ltb_lt]; vm_compute; reflexivity.
  - apply Z.leb_le. vm_compute. reflexivity.
Defined.

Lemma formatDistance_kilometres_witness :
  exists whole tenth,
    formatDistance (VStr "1500") = whole ++ "." ++ String tenth "km"
    /\ all_digits whole = true /\ whole <> "" /\ is_digit tenth = true.
Proof.
  apply (LocatorViewsSpec.formatDistance_kilometres (VStr "1500") (1500 * scale)).
  - vm_compute. reflexivity.
  - split; [apply Z.leb_le | apply Z.ltb_lt]; vm_compute; reflexivity.
Defined.

Lemma distance_label_witness :
  distance_label (VObj [ ("distance", VStr "near") ]) = "NaNkm".
Proof.
  refine (proj2 (LocatorViewsSpec.distance_label_edges
                   (VObj [ ("distance", VStr "near") ])) _ _).
  - reflexivity.
  - vm_compute. reflexivity.
Defined.

Lemma getInitials_witness :
  exists t,
    getInitials (VStr " john smith") = Ok (Letters (toUpperCase t))
    /\ (length t <= 2)%nat.
Proof.
  destruct (InitialsSpec.getInitials_of_text (host := ascii_host) " john smith")
    as (t & A & B & _); [discriminate |].
  exists t. split; assumption.
Defined.

Lemma getInitials_double_space_witness :
  getInitials (VStr "John  Smith") = Ok (Letters (toUpperCase "J")).
Proof.
  apply (InitialsSpec.getInitials_double_space (host := ascii_host)
           "John  Smith" "J" "ohn" "Smith").
  - reflexivity.
  - intros x H. cbn in H.
    repeat (destruct H as [<- | H]; [discriminate |]). contradiction.
Defined.

Lemma escapeHtml_witness : escapeHtml (VStr "Gweru") = "Gweru".
Proof.
  refine (proj1 (proj2 (EscapeSpec.escapeHtml_markup (VStr "Gweru"))) "Gweru" eq_refl _).
  intros c H. cbn in H.
  repeat (destruct H as [<- | H];
          [repeat split; try discriminate; vm_compute; discriminate |]).
  contradiction.
Defined.

Lemma options_witness :
  In (VStr "Midlands") (options_of "province" [dube; moyo; ncube]).
Proof.
  refine (proj2 (proj1 (LocatorViewsMoreSpec.options_listed_once_in_order
                          (host := ascii_host) "province" [dube; moyo; ncube])
                       "Midlands") _).
  split; [discriminate |]. exists dube. split; [now left | reflexivity].
Defined.

Lemma offered_region_witness :
  filteredAgents (snd (applyFilters region_midlands (showing [dube; moyo; ncube])))
  <> [].
Proof.
  refine (proj2 (proj2 (proj1 (proj2
            (LocatorViewsMoreSpec.offered_region_selects_its_agents
               (host := ascii_host) region_midlands
               (showing [dube; moyo; ncube]) "Midlands" "Midlands" _ _ _ _ _))
            _ _))).
  - vm_compute. right. left. reflexivity.
  - reflexivity.
  - reflexivity.
  - reflexivity.
  - reflexivity.
  - intros H. vm_compute in H.
    repeat (destruct H as [H | H]; [discriminate H |]). contradiction.
  - intros H. vm_compute in H.
    repeat (destruct H as [H | H]; [discriminate H |]). contradiction.
Defined.

(** The option of a province with a quotation mark in its name carries
    the name up to the mark; choosing it lists nobody. *)
Example quoted_region_lists_nothing :
  let region := "Mat" ++ String quotation_mark "North" in
  let quoted := agent_of 14 "P Sibanda" region (VStr "0771234570") in
  options_of "province" [quoted] = [VStr region]
  /\ option_value (VStr region) = Some "Mat"
  /\ filteredAgents
       (snd (applyFilters
               {| agent_search := ""; region_filter := option_value (VStr region);
                  area_filter := None; sort_filter := Some "name" |}
               (showing [quoted]))) = [].
Proof. vm_compute. repeat split; reflexivity. Qed.

(** Two calls, a reply that fails, another call. *)
Lemma one_request_witness :
  (in_flight [ LoadCalled; LoadCalled; LoadSettled (Rejected zero VUndefined);
               LoadCalled ] initial_state 0 <= 1)%nat.
Proof.
  refine (proj1 (LocatorStateSpec.one_request_in_flight
                   (host := ascii_host)
                   [ LoadCalled; LoadCalled; LoadSettled (Rejected zero VUndefined);
                     LoadCalled ] 5 _)).
  vm_compute. reflexivity.
Defined.

Lemma filters_witness :
  applyFilters search_har (set_filteredAgents [] (showing [bob; alice]))
  = applyFilters search_har (showing [bob; alice]).
Proof.
  refine (proj2 (LocatorStateSpec.filters_start_from_stored_agents
                   (host := ascii_host) search_har (showing [bob; alice])) _ []).
  vm_compute. reflexivity.
Defined.

(** Moyo's phone number is a number: searching for Smith raises. *)
Lemma search_raises_witness :
  performSearch search_smith (showing [dube; moyo])
  = (Throw TypeError, showing [dube; moyo]).
Proof.
  refine (proj1 (proj2 (LocatorStateSpec.search_raises_on_a_field_that_is_not_text
                          (host := ascii_host) search_smith (showing [dube; moyo])
                          moyo _ _ _ _))).
  - right. left. reflexivity.
  - discriminate.
  - vm_compute. reflexivity.
  - vm_compute. reflexivity.
Defined.

(** Two agents with names: two markers, and the map is fitted. *)
Lemma markers_witness :
  exists markers,
    renderMapMarkers (library := willing_map)
      (filteredAgents (run [ ProcessAgents (VArr [dube; ncube]) ] initial_state))
    = (Ok (fitted (List.length
                     (filteredAgents
                        (run [ ProcessAgents (VArr [dube; ncube]) ] initial_state)))),
       markers)
    /\ map agentData markers
       = filteredAgents (run [ ProcessAgents (VArr [dube; ncube]) ] initial_state)
    /\ Forall (fun m => getInitials (prop (agentData m) "representative")
                        = Ok (icon m)) markers.
Proof.
  refine (proj1 (LocatorStateSpec.every_listed_agent_has_a_marker
                   (host := ascii_host) (library := willing_map)
                   [ ProcessAgents (VArr [dube; ncube]) ]) _ _ _).
  - vm_compute. repeat constructor.
  - vm_compute. repeat constructor.
  - reflexivity.
Defined.

(** A name sent as a number stops the markers at the first agent. *)
Example markers_stop_at_a_number :
  renderMapMarkers (library := willing_map) [numbered 1 7; dube]
  = (Throw TypeError, []).
Proof. vm_compute. reflexivity. Qed.

Lemma stored_initials_witness :
  getInitials (prop bob "representative") <> Ok MoneyBag.
Proof.
  refine (proj1 (LocatorStateSpec.stored_agents_have_initials
                   (host := ascii_host) [ ProcessAgents (VArr [bob]) ] bob _)).
  vm_compute. left. reflexivity.
Defined.


Lemma live_warning_witness :
  requests (on_calculate_click (form_with "600") blank_page) = requests blank_page.
Proof.
  refine (CalculatorHandlersSpec.live_warning_is_sound
            (host := ascii_host) (form_with "600") blank_page blank_page _).
  vm_compute. reflexivity.
Defined.

(** 500.004 is over the ceiling as typed and "500.00" after the blur. *)
Lemma blur_ceiling_witness :
  amount_field (on_amount_blur (form_with "500.004")) = decimal 500 ++ ".00".
Proof.
  refine (proj1 (BlurSpec.blur_rounds_down_to_the_ceiling
                   (host := ascii_host) (form_with "500.004") blank_page
                   (units_of (parseFloat "500.004")) "USD" 500
                   "USD transactions cannot exceed $500" "sendmoney"
                   _ _ _ _ _ _ _)).
  - simpl. auto.
  - reflexivity.
  - reflexivity.
  - discriminate.
  - vm_compute. reflexivity.
  - apply Z.ltb_lt. vm_compute. reflexivity.
  - apply Z.ltb_lt. vm_compute. reflexivity.
Defined.

Lemma blur_zero_witness :
  amount_field (on_amount_blur (form_with "0.004")) = "0.00".
Proof.
  refine (proj1 (BlurSpec.blur_rounds_small_amounts_to_zero
                   (host := ascii_host) (form_with "0.004") blank_page
                   (units_of (parseFloat "0.004")) _ _ _ _ _)).
  - vm_compute. reflexivity.
  - apply Z.ltb_lt. vm_compute. reflexivity.
  - apply Z.ltb_lt. vm_compute. reflexivity.
  - reflexivity.
  - reflexivity.
Defined.

Lemma merge_resets_witness :
  filteredAgents (snd (processAgentsData (VArr [bob]) (showing [alice])))
  = agents (snd (processAgentsData (VArr [bob]) (showing [alice]))).
Proof.
  refine (proj2 (LocatorLoadSpec.merge_resets_the_listing
                   [bob] (showing [alice]) _)).
  vm_compute. discriminate.
Defined.

(** The first load tells how many agents it found. *)
Lemma found_toast_witness :
  toasts (snd (processAgentsData (VArr [bob; alice]) initial_state))
  = (toasts initial_state
     ++ [(("Found "
           ++ decimal (Z.of_nat (List.length
                                   (filter (valid_new_agent (agents initial_state))
                                           [bob; alice])))
           ++ " EcoCash agents")%string, "success")])%list.
Proof.
  refine (proj1 (proj2 (LocatorLoadSpec.found_toast_on_first_load
                          [bob; alice] initial_state)
                       _ _ _) _).
  - vm_compute. discriminate.
  - reflexivity.
  - reflexivity.
  - reflexivity.
Defined.

(** The server's own message is not shown. *)
Lemma load_failure_witness :
  toasts (snd (loadAgents (Resolved refused) initial_state))
  = (toasts initial_state
     ++ [("Failed to load agents. Please try again later.", "error")])%list.
Proof.
  refine (proj1 (LocatorLoadSpec.load_failure_messages
                   (host := ascii_host) (Resolved refused) initial_state _)
                refused eq_refl _).
  - reflexivity.
  - reflexivity.
Defined.

Lemma clearing_witness :
  filteredAgents (snd (clearFilters (showing [carl; bob]))) = agents (showing [carl; bob]).
Proof.
  refine (proj1 (LocatorLoadSpec.clearing_does_not_sort
                   (host := ascii_host) cleared_controls (showing [carl; bob])
                   _ _ _ _)).
  - reflexivity.
  - reflexivity.
  - reflexivity.
  - reflexivity.
Defined.

(** Carl was loaded before Bob: clearing lists Carl first, applying the
    cleared filters lists Bob first. *)
Example clearing_run :
  filteredAgents (snd (clearFilters (showing [carl; bob]))) = [carl; bob]
  /\ filteredAgents (snd (applyFilters cleared_controls (showing [carl; bob])))
     = [bob; carl].
Proof. vm_compute. split; reflexivity. Qed.

Lemma blur_idempotent_witness :
  on_amount_blur (on_amount_blur (form_with "12.345")) = on_amount_blur (form_with "12.345").
Proof.
  refine (proj1 (RoundTripSpec.blur_is_idempotent (form_with "12.345") _)).
  intros a E. vm_compute in E. injection E as <-.
  apply Z.leb_le. vm_compute. reflexivity.
Defined.

Lemma default_total_witness :
  shown_totalAmount (showSuccess tariff_only "USD" "10")
  = toFixed 2 (Fin (units_of (add (parseFloat "10") (parseFloat "1.50")))).
Proof.
  refine (RoundTripSpec.default_total_is_the_formatted_sum
            tariff_only "USD" "10"
            (units_of (add (parseFloat "10") (parseFloat "1.50"))) _ _ _).
  - reflexivity.
  - vm_compute. reflexivity.
  - split; apply Z.leb_le; vm_compute; reflexivity.
Defined.

(** Typing "bob" after "bo". *)
Lemma narrowing_witness :
  incl (filteredAgents (snd (performSearch (search_for "bob") (showing [bob; alice]))))
       (filteredAgents (snd (performSearch (search_for "bo") (showing [bob; alice])))).
Proof.
  refine (NarrowingSpec.typing_more_narrows_the_results
            (host := ascii_host) (search_for "bo") (search_for "bob")
            (showing [bob; alice]) "b" _ _ _ _).
  - repeat constructor.
  - reflexivity.
  - reflexivity.
  - reflexivity.
Defined.

End MoreExamples.
